(** * ratelimit-kit: a shallow embedding of the limiter core

    The development follows the TypeScript sources:

    - [src/core/ratelimit.ts]     the orchestrator [Ratelimit.limit];
    - [src/core/slidingWindow.ts] the two-window approximation;
    - [src/core/tokenBucket.ts]   the token bucket;
    - [src/store/memory.ts]       the in-process store;
    - [src/headers.ts]            the header builder [build].

    A finite JavaScript [number] is modelled by a rational of [Q]: every
    double is a rational, and [Math.floor], [Math.ceil], [Math.max],
    [Math.min] and the comparisons are exact on doubles.  The arithmetic
    of the two algorithms ([+], [-], [*], [/]) is given twice.
    [SlidingWindow] and [TokenBucket] take it without rounding; what is
    proved on them are bounds, invariants and equalities between whole
    numbers.  [RoundedSlidingWindow] and [RoundedTokenBucket] follow every
    operation by a rounding [fl]; with [Float.round], the rounding to the
    nearest double, they compute what the code computes, and the
    properties that name a value the code rounds are proved on them.  The
    three non-finite numbers only matter where the orchestrator normalises
    the result of the cost function, and are modelled there
    ([JsNumber]). *)

From Stdlib Require Import QArith Qround Qminmax Qpower Lqa ZArith Lia.
From Stdlib Require Import DecimalString.
From stdpp Require Import gmap strings.

Local Open Scope Q_scope.

(* ===================================================================== *)
(** ** JavaScript numbers                                                 *)
(* ===================================================================== *)

(** [Math.*] and the comparison operators on finite numbers. *)
Module JsMath.

Definition floor (x : Q) : Q := inject_Z (Qfloor x).
Definition ceil (x : Q) : Q := inject_Z (Qceiling x).
Definition max (x y : Q) : Q := Qmax x y.
Definition min (x y : Q) : Q := Qmin x y.

(** [a <= b], [a >= b], [a < b], [a > b], [a === b], [a !== b]. *)
Definition leb (a b : Q) : bool := Qle_bool a b.
Definition geb (a b : Q) : bool := Qle_bool b a.
Definition ltb (a b : Q) : bool := negb (Qle_bool b a).
Definition gtb (a b : Q) : bool := negb (Qle_bool a b).
Definition eqb (a b : Q) : bool := Qeq_bool a b.
Definition neqb (a b : Q) : bool := negb (Qeq_bool a b).

End JsMath.

(** The whole of [number]: finite values, [NaN] and the two infinities. *)
Module JsNumber.

Inductive number : Type :=
| Fin (q : Q)
| NaN
| PosInf
| NegInf.

(** [Math.floor(x)]: the infinities and [NaN] are returned unchanged. *)
Definition floor (x : number) : number :=
  match x with
  | Fin q => Fin (JsMath.floor q)
  | other => other
  end.

(** [ToBoolean(x)] on numbers: [0] and [NaN] are falsy. *)
Definition truthy (x : number) : bool :=
  match x with
  | Fin q => JsMath.neqb q 0
  | NaN => false
  | PosInf | NegInf => true
  end.

(** [a || b]. *)
Definition or (a b : number) : number := if truthy a then a else b.

(** [Math.max(a, b)]: [NaN] if either argument is [NaN]. *)
Definition max (a b : number) : number :=
  match a, b with
  | NaN, _ | _, NaN => NaN
  | PosInf, _ | _, PosInf => PosInf
  | NegInf, y => y
  | x, NegInf => x
  | Fin x, Fin y => Fin (JsMath.max x y)
  end.

End JsNumber.

(* ===================================================================== *)
(** ** src/core/types.ts                                                  *)
(* ===================================================================== *)

Module Types.

(** [Omit<LimitResult, 'now'>], what an algorithm returns. *)
Record PartialResult : Type := mkPartial {
  p_allowed : bool;
  p_limit : Q;
  p_remaining : Q;
  p_reset : Q;                 (* epoch seconds *)
  p_retryAfter : option Q      (* milliseconds *)
}.

(** [LimitResult].  [policy] is the property [build] reads through
    [(result as any).policy]; no algorithm sets it. *)
Record LimitResult : Type := mkResult {
  allowed : bool;
  limit : Q;
  remaining : Q;
  reset : Q;
  retryAfter : option Q;
  now : Q;                     (* epoch ms *)
  policy : option string
}.

(** [{ ...result, now }] *)
Definition with_now (r : PartialResult) (t : Q) : LimitResult :=
  mkResult (p_allowed r) (p_limit r) (p_remaining r) (p_reset r)
           (p_retryAfter r) t None.

Inductive AlgorithmName : Type := sliding | tokenBucket.

(** The object returned by [compute]. *)
Record Computed (S : Type) : Type := mkComputed {
  state : S;
  result : PartialResult;
  ttlMs : Q
}.
Arguments mkComputed {S} _ _ _.
Arguments state {S} _.
Arguments result {S} _.
Arguments ttlMs {S} _.

(** [interface Algorithm], generic in the shape of its state (the
    sources type it as [any]).  The [policy] descriptor, a rendering of
    the configuration as text, is left out. *)
Record Algorithm (S : Type) : Type := mkAlgorithm {
  name : AlgorithmName;
  compute : option S -> Q -> Q -> Computed S
}.
Arguments mkAlgorithm {S} _ _.
Arguments name {S} _.
Arguments compute {S} _ _ _ _.

(** A constructor either returns or throws [new Error(msg)]. *)
Inductive Thrown (A : Type) : Type :=
| Ok (a : A)
| Throw (msg : string).
Arguments Ok {A} _.
Arguments Throw {A} _.

End Types.

(* ===================================================================== *)
(** ** src/core/slidingWindow.ts                                          *)
(* ===================================================================== *)

Module SlidingWindow.

Record Config : Type := mkConfig { limit : Q; windowMs : Q }.

Record State : Type := mkState {
  windowStart : Q;
  count : Q;
  prevStart : Q;
  prevCount : Q
}.

Section Compute.
Variable config : Config.

Definition curWindowStart (now : Q) : Q :=
  JsMath.floor (now / windowMs config) * windowMs config.

Definition prevWindowStart (now : Q) : Q :=
  curWindowStart now - windowMs config.

(** [state ?? { windowStart: curWindowStart, count: 0, ... }] *)
Definition initial (state : option State) (now : Q) : State :=
  match state with
  | Some s => s
  | None => mkState (curWindowStart now) 0 (prevWindowStart now) 0
  end.

(** The block [if (s.windowStart !== curWindowStart) { ... }]. *)
Definition rollover (s : State) (now : Q) : State :=
  if JsMath.neqb (windowStart s) (curWindowStart now) then
    let contiguous := JsMath.eqb (windowStart s) (prevWindowStart now) in
    mkState (curWindowStart now)
            0
            (if contiguous then windowStart s else prevWindowStart now)
            (if contiguous then count s else 0)
  else s.

(** [s.count += cost] *)
Definition charge (s : State) (cost : Q) : State :=
  mkState (windowStart s) (count s + cost) (prevStart s) (prevCount s).

Definition weight (now : Q) : Q :=
  let overlapMs := windowMs config - (now - curWindowStart now) in
  overlapMs / windowMs config.

Definition effective (s : State) (now : Q) : Q :=
  count s +
  (if JsMath.eqb (prevStart s) (prevWindowStart now)
   then prevCount s * weight now else 0).

Definition compute (state : option State) (cost now : Q)
  : Types.Computed State :=
  let s := initial state now in
  let s := rollover s now in
  let s := charge s cost in
  let effective := effective s now in
  let allowed := JsMath.leb effective (limit config) in
  let remaining := JsMath.max 0 (JsMath.floor (limit config - effective)) in
  let reset := JsMath.ceil ((windowStart s + windowMs config) / 1000) in
  let retryAfter :=
    if negb allowed then
      let retryAfter := (windowStart s + windowMs config) - now in
      Some (if JsMath.ltb retryAfter 0 then 0 else retryAfter)
    else None in
  let ttlMs :=
    JsMath.max 1000 ((windowStart s + 2 * windowMs config) - now) in
  Types.mkComputed s
    (Types.mkPartial allowed (limit config) remaining reset retryAfter)
    ttlMs.

(** The state to which the cost is added. *)
Definition rolled (state : option State) (now : Q) : State :=
  rollover (initial state now) now.
End Compute.

(** The state, if there is one, is of the window of [t], carries nothing
    from the window before, and counts [c]. *)
Definition counting (config : Config) (t c : Q) (state : option State)
  : Prop :=
  match state with
  | Some s =>
      windowStart s == curWindowStart config t /\
      prevCount s == 0 /\ count s == c
  | None => c == 0
  end.

(** Neither counter of a window state is negative. *)
Definition counts_ok (s : State) : Prop := 0 <= count s /\ 0 <= prevCount s.

Definition prior_ok (state : option State) : Prop :=
  match state with
  | Some s => counts_ok s
  | None => True
  end.

Definition slidingWindow (config : Config)
  : Types.Thrown (Types.Algorithm State) :=
  if JsMath.leb (limit config) 0 then Types.Throw "limit must be > 0"
  else if JsMath.leb (windowMs config) 0 then Types.Throw "windowMs must be > 0"
  else Types.Ok (Types.mkAlgorithm Types.sliding (compute config)).

End SlidingWindow.

(* ===================================================================== *)
(** ** src/core/tokenBucket.ts                                            *)
(* ===================================================================== *)

Module TokenBucket.

Record Config : Type := mkConfig { capacity : Q; refillRatePerSec : Q }.

Record State : Type := mkState { tokens : Q; last : Q }.

Section Compute.
Variable config : Config.

Definition refillPerMs : Q := refillRatePerSec config / 1000.

(** [state ?? { tokens: capacity, last: now }] *)
Definition initial (state : option State) (now : Q) : State :=
  match state with
  | Some s => s
  | None => mkState (capacity config) now
  end.

(** The block [if (now > s.last) { ... }]. *)
Definition refill (s : State) (now : Q) : State :=
  if JsMath.gtb now (last s) then
    let delta := now - last s in
    let refill := delta * refillPerMs in
    mkState (JsMath.min (capacity config) (tokens s + refill)) now
  else s.

(** The admission block: the state after it, [allowed], [retryAfter]. *)
Definition admission (s : State) (cost : Q) : State * bool * option Q :=
  if JsMath.geb (tokens s) cost then
    (mkState (tokens s - cost) (last s), true, None)
  else
    let needed := cost - tokens s in
    (s, false,
     if JsMath.gtb refillPerMs 0
     then Some (JsMath.ceil (needed / refillPerMs)) else None).

Definition compute (state : option State) (cost now : Q)
  : Types.Computed State :=
  let s := initial state now in
  let s := refill s now in
  let '(s, allowed, retryAfter) := admission s cost in
  let remaining := JsMath.max 0 (JsMath.floor (tokens s)) in
  let reset := JsMath.ceil ((now + 1000) / 1000) in
  let ttlMs :=
    JsMath.max 1000 (JsMath.ceil ((capacity config / refillPerMs) + 1000)) in
  Types.mkComputed s
    (Types.mkPartial allowed (capacity config) remaining reset retryAfter)
    ttlMs.

(** The state on which the admission block runs. *)
Definition refilled (state : option State) (now : Q) : State :=
  refill (initial state now) now.

(** A bucket holds between nothing and its capacity. *)
Definition bucket_ok (s : State) : Prop :=
  0 <= tokens s /\ tokens s <= capacity config.

Definition prior_ok (state : option State) : Prop :=
  match state with
  | Some s => bucket_ok s
  | None => True
  end.

(** The bucket, if there is one, was last refilled at [t] and holds [k]
    tokens; a key without state is a full bucket. *)
Definition holding (t k : Q) (state : option State) : Prop :=
  match state with
  | Some s => last s == t /\ tokens s == k
  | None => k == capacity config
  end.

(** The states the algorithm can have produced hold no more than the
    capacity. *)
Definition within_capacity (state : option State) : Prop :=
  match state with
  | Some s => tokens s <= capacity config
  | None => True
  end.

Definition not_overdrawn (state : option State) : Prop :=
  match state with
  | Some s => 0 <= tokens s
  | None => True
  end.
End Compute.

Definition tokenBucket (config : Config)
  : Types.Thrown (Types.Algorithm State) :=
  if JsMath.leb (capacity config) 0 then Types.Throw "capacity must be > 0"
  else if JsMath.leb (refillRatePerSec config) 0
       then Types.Throw "refillRatePerSec must be > 0"
  else Types.Ok (Types.mkAlgorithm Types.tokenBucket (compute config)).

End TokenBucket.

(* ===================================================================== *)
(** ** Arithmetic in binary64                                             *)
(* ===================================================================== *)

(** The result of [+], [-], [*] and [/] on finite numbers is the double
    nearest to the exact result, ties going to the even significand.  The
    doubles are the rationals [m * 2^e] with [|m| < 2^53]; the range of the
    exponent is not bounded here, so a result that would overflow to
    [Infinity] or fall among the subnormals is kept with 53 bits. *)
Module Float.

(** The whole number nearest to [v], the even one of two at equal
    distance. *)
Definition nearest_even (v : Q) : Z :=
  let f := Qfloor v in
  match Qcompare (v - inject_Z f) (1 # 2) with
  | Lt => f
  | Gt => (f + 1)%Z
  | Eq => if Z.even f then f else (f + 1)%Z
  end.

(** For [0 < x], the exponent [e] of the last place of the significand:
    [2^52 <= x / 2^e < 2^53]. *)
Definition exponent (x : Q) : Z :=
  let e := (Z.log2 (Qnum x) - Z.log2 (Zpos (Qden x)) - 53)%Z in
  if Qle_bool (2 ^ 53) (x / 2 ^ e) then (e + 1)%Z else e.

Definition round_pos (x : Q) : Q :=
  let e := exponent x in
  inject_Z (nearest_even (x / 2 ^ e)) * 2 ^ e.

(** The double nearest to [x], as a fraction in lowest terms. *)
Definition round (x : Q) : Q :=
  let x := Qred x in
  Qred match Qnum x with
       | Z0 => 0
       | Zpos _ => round_pos x
       | Zneg _ => - round_pos (- x)
       end.

(** What the properties below use of a rounding: it respects equality of
    rationals, leaves the whole numbers up to [2^53] as they are, keeps
    the sign of a positive number, and preserves the order.  [round] is
    one, the identity (arithmetic without rounding) another. *)
Class Rounding (fl : Q -> Q) : Prop := {
  rounding_proper : forall x y, x == y -> fl x == fl y;
  rounding_whole :
    forall z : Z, (Z.abs z <= 2 ^ 53)%Z -> fl (inject_Z z) == inject_Z z;
  rounding_positive : forall x, 0 < x -> 0 < fl x;
  rounding_monotone : forall x y, x <= y -> fl x <= fl y
}.

(** The four operators under a rounding [fl]. *)
Section Operators.
Variable fl : Q -> Q.

Definition add (a b : Q) : Q := fl (a + b).
Definition sub (a b : Q) : Q := fl (a - b).
Definition mul (a b : Q) : Q := fl (a * b).
Definition div (a b : Q) : Q := fl (a / b).
End Operators.

End Float.

(* ===================================================================== *)
(** ** src/core/slidingWindow.ts, in rounded arithmetic                   *)
(* ===================================================================== *)

(** [compute] once more, with every [+], [-], [*] and [/] of the source
    followed by the rounding [fl].  With [Float.round] this is what the
    code computes on doubles; with the identity it is
    [SlidingWindow.compute]. *)
Module RoundedSlidingWindow.

Section Compute.
Variable fl : Q -> Q.
Variable config : SlidingWindow.Config.

Local Notation "a ⊕ b" := (Float.add fl a b) (at level 50, left associativity).
Local Notation "a ⊖ b" := (Float.sub fl a b) (at level 50, left associativity).
Local Notation "a ⊗ b" := (Float.mul fl a b) (at level 40, left associativity).
Local Notation "a ⊘ b" := (Float.div fl a b) (at level 40, left associativity).
Local Abbreviation limit := (SlidingWindow.limit config).
Local Abbreviation windowMs := (SlidingWindow.windowMs config).

Definition curWindowStart (now : Q) : Q :=
  JsMath.floor (now ⊘ windowMs) ⊗ windowMs.

Definition prevWindowStart (now : Q) : Q :=
  curWindowStart now ⊖ windowMs.

(** [state ?? { windowStart: curWindowStart, count: 0, ... }] *)
Definition initial (state : option SlidingWindow.State) (now : Q)
  : SlidingWindow.State :=
  match state with
  | Some s => s
  | None =>
      SlidingWindow.mkState (curWindowStart now) 0 (prevWindowStart now) 0
  end.

(** The block [if (s.windowStart !== curWindowStart) { ... }]. *)
Definition rollover (s : SlidingWindow.State) (now : Q)
  : SlidingWindow.State :=
  if JsMath.neqb (SlidingWindow.windowStart s) (curWindowStart now) then
    let contiguous :=
      JsMath.eqb (SlidingWindow.windowStart s) (prevWindowStart now) in
    SlidingWindow.mkState
      (curWindowStart now)
      0
      (if contiguous then SlidingWindow.windowStart s
       else prevWindowStart now)
      (if contiguous then SlidingWindow.count s else 0)
  else s.

(** [s.count += cost] *)
Definition charge (s : SlidingWindow.State) (cost : Q)
  : SlidingWindow.State :=
  SlidingWindow.mkState
    (SlidingWindow.windowStart s) (SlidingWindow.count s ⊕ cost)
    (SlidingWindow.prevStart s) (SlidingWindow.prevCount s).

Definition weight (now : Q) : Q :=
  let overlapMs := windowMs ⊖ (now ⊖ curWindowStart now) in
  overlapMs ⊘ windowMs.

Definition effective (s : SlidingWindow.State) (now : Q) : Q :=
  SlidingWindow.count s ⊕
  (if JsMath.eqb (SlidingWindow.prevStart s) (prevWindowStart now)
   then SlidingWindow.prevCount s ⊗ weight now else 0).

Definition compute (state : option SlidingWindow.State) (cost now : Q)
  : Types.Computed SlidingWindow.State :=
  let s := initial state now in
  let s := rollover s now in
  let s := charge s cost in
  let effective := effective s now in
  let allowed := JsMath.leb effective limit in
  let remaining := JsMath.max 0 (JsMath.floor (limit ⊖ effective)) in
  let reset :=
    JsMath.ceil ((SlidingWindow.windowStart s ⊕ windowMs) ⊘ 1000) in
  let retryAfter :=
    if negb allowed then
      let retryAfter := (SlidingWindow.windowStart s ⊕ windowMs) ⊖ now in
      Some (if JsMath.ltb retryAfter 0 then 0 else retryAfter)
    else None in
  let ttlMs :=
    JsMath.max 1000
      ((SlidingWindow.windowStart s ⊕ (2 ⊗ windowMs)) ⊖ now) in
  Types.mkComputed s
    (Types.mkPartial allowed limit remaining reset retryAfter)
    ttlMs.

(** The state to which the cost is added. *)
Definition rolled (state : option SlidingWindow.State) (now : Q)
  : SlidingWindow.State :=
  rollover (initial state now) now.
End Compute.

(** The state, if there is one, is of the window of [t], carries nothing
    from the window before, and counts [c]. *)
Definition counting (fl : Q -> Q) (config : SlidingWindow.Config) (t c : Q)
    (state : option SlidingWindow.State) : Prop :=
  match state with
  | Some s =>
      SlidingWindow.windowStart s == curWindowStart fl config t /\
      SlidingWindow.prevCount s == 0 /\ SlidingWindow.count s == c
  | None => c == 0
  end.

Definition slidingWindow (fl : Q -> Q) (config : SlidingWindow.Config)
  : Types.Thrown (Types.Algorithm SlidingWindow.State) :=
  if JsMath.leb (SlidingWindow.limit config) 0
  then Types.Throw "limit must be > 0"
  else if JsMath.leb (SlidingWindow.windowMs config) 0
       then Types.Throw "windowMs must be > 0"
  else Types.Ok (Types.mkAlgorithm Types.sliding (compute fl config)).

End RoundedSlidingWindow.

(* ===================================================================== *)
(** ** src/core/tokenBucket.ts, in rounded arithmetic                     *)
(* ===================================================================== *)

Module RoundedTokenBucket.

Section Compute.
Variable fl : Q -> Q.
Variable config : TokenBucket.Config.

Local Notation "a ⊕ b" := (Float.add fl a b) (at level 50, left associativity).
Local Notation "a ⊖ b" := (Float.sub fl a b) (at level 50, left associativity).
Local Notation "a ⊗ b" := (Float.mul fl a b) (at level 40, left associativity).
Local Notation "a ⊘ b" := (Float.div fl a b) (at level 40, left associativity).
Local Abbreviation capacity := (TokenBucket.capacity config).
Local Abbreviation refillRatePerSec := (TokenBucket.refillRatePerSec config).

Definition refillPerMs : Q := refillRatePerSec ⊘ 1000.

(** The block [if (now > s.last) { ... }]. *)
Definition refill (s : TokenBucket.State) (now : Q) : TokenBucket.State :=
  if JsMath.gtb now (TokenBucket.last s) then
    let delta := now ⊖ TokenBucket.last s in
    let refill := delta ⊗ refillPerMs in
    TokenBucket.mkState
      (JsMath.min capacity (TokenBucket.tokens s ⊕ refill)) now
  else s.

(** The admission block: the state after it, [allowed], [retryAfter]. *)
Definition admission (s : TokenBucket.State) (cost : Q)
  : TokenBucket.State * bool * option Q :=
  if JsMath.geb (TokenBucket.tokens s) cost then
    (TokenBucket.mkState (TokenBucket.tokens s ⊖ cost) (TokenBucket.last s),
     true, None)
  else
    let needed := cost ⊖ TokenBucket.tokens s in
    (s, false,
     if JsMath.gtb refillPerMs 0
     then Some (JsMath.ceil (needed ⊘ refillPerMs)) else None).

Definition compute (state : option TokenBucket.State) (cost now : Q)
  : Types.Computed TokenBucket.State :=
  let s := TokenBucket.initial config state now in
  let s := refill s now in
  let '(s, allowed, retryAfter) := admission s cost in
  let remaining := JsMath.max 0 (JsMath.floor (TokenBucket.tokens s)) in
  let reset := JsMath.ceil ((now ⊕ 1000) ⊘ 1000) in
  let ttlMs :=
    JsMath.max 1000 (JsMath.ceil ((capacity ⊘ refillPerMs) ⊕ 1000)) in
  Types.mkComputed s
    (Types.mkPartial allowed capacity remaining reset retryAfter)
    ttlMs.

(** The state on which the admission block runs. *)
Definition refilled (state : option TokenBucket.State) (now : Q)
  : TokenBucket.State :=
  refill (TokenBucket.initial config state now) now.
End Compute.

Definition tokenBucket (fl : Q -> Q) (config : TokenBucket.Config)
  : Types.Thrown (Types.Algorithm TokenBucket.State) :=
  if JsMath.leb (TokenBucket.capacity config) 0
  then Types.Throw "capacity must be > 0"
  else if JsMath.leb (TokenBucket.refillRatePerSec config) 0
       then Types.Throw "refillRatePerSec must be > 0"
  else Types.Ok (Types.mkAlgorithm Types.tokenBucket (compute fl config)).

End RoundedTokenBucket.

(* ===================================================================== *)
(** ** The decision of the sliding window as a function of its inputs     *)
(* ===================================================================== *)

(** The account the specification gives of a decision (section 4.2,
    "Windowed-Decay", steps 1 to 5), written as expressions in the stored
    state, the cost and the clock and read in the arithmetic of the code:
    each operation is rounded by [fl].  The properties below compare it
    with [RoundedSlidingWindow.compute], the embedding of the source. *)
Module WindowedDecay.

Section Decision.
Variable fl : Q -> Q.
Variable config : SlidingWindow.Config.

Local Abbreviation windowMs := (SlidingWindow.windowMs config).

(** Step 1: the start of the window of [now], and of the one before. *)
Definition window (now : Q) : Q :=
  fl (inject_Z (Qfloor (fl (now / windowMs))) * windowMs).

Definition before (now : Q) : Q := fl (window now - windowMs).

(** Steps 2 and 3, the count: what the state has counted in the window of
    [now]; nothing if there is no state or it is of another window. *)
Definition counted (state : option SlidingWindow.State) (now : Q) : Q :=
  match state with
  | Some s =>
      if Qeq_bool (SlidingWindow.windowStart s) (window now)
      then SlidingWindow.count s else 0
  | None => 0
  end.

(** Steps 2 and 3, the previous count: what the state brings from the
    window before that of [now].  A state of the window of [now] brings
    its [prevCount] if that is of the window before; a state of the window
    before brings its [count]; any other state brings nothing. *)
Definition carried (state : option SlidingWindow.State) (now : Q) : Q :=
  match state with
  | Some s =>
      if Qeq_bool (SlidingWindow.windowStart s) (window now) then
        if Qeq_bool (SlidingWindow.prevStart s) (before now)
        then SlidingWindow.prevCount s else 0
      else
        if Qeq_bool (SlidingWindow.windowStart s) (before now)
        then SlidingWindow.count s else 0
  | None => 0
  end.

(** Step 5: [overlap / windowMs]. *)
Definition weight (now : Q) : Q :=
  fl (fl (windowMs - fl (now - window now)) / windowMs).

(** Steps 4 and 5: [count + cost + weight * prevCount]. *)
Definition effective (state : option SlidingWindow.State) (cost now : Q)
  : Q :=
  fl (fl (counted state now + cost) + fl (carried state now * weight now)).
End Decision.

End WindowedDecay.

(* ===================================================================== *)
(** ** The runtime: a clock, a heap, promises                             *)
(* ===================================================================== *)

Module Runtime.

(** What the code can observe of its environment: the value [Date.now()]
    returns, and the store's private data. *)
Record World (H : Type) : Type := mkWorld { clock : Q; heap : H }.
Arguments mkWorld {H} _ _.
Arguments clock {H} _.
Arguments heap {H} _.

(** How an [async] function ends.  [Unmodelled] marks a run that leaves
    the fragment modelled here (a non-finite number reaching an
    algorithm, which is defined on finite numbers). *)
Inductive Outcome (A : Type) : Type :=
| Resolved (a : A)
| Rejected (msg : string)
| Unmodelled.
Arguments Resolved {A} _.
Arguments Rejected {A} _.
Arguments Unmodelled {A}.

Definition Async (H A : Type) : Type := World H -> Outcome (A * World H).

Definition ret {H A} (a : A) : Async H A := fun w => Resolved (a, w).

(** [await]: a rejection propagates to the caller uncaught. *)
Definition bind {H A B} (m : Async H A) (k : A -> Async H B) : Async H B :=
  fun w =>
    match m w with
    | Resolved (a, w') => k a w'
    | Rejected msg => Rejected msg
    | Unmodelled => Unmodelled
    end.

Definition Date_now {H} : Async H Q := fun w => Resolved (clock w, w).

Definition get_heap {H} : Async H H := fun w => Resolved (heap w, w).

Definition put_heap {H} (h : H) : Async H unit :=
  fun w => Resolved (tt, mkWorld (clock w) h).

(** The environment moves the clock between calls
    ([vi.setSystemTime] in the tests). *)
Definition setSystemTime {H} (t : Q) (w : World H) : World H :=
  mkWorld t (heap w).

(** [interface Store] *)
Record Store (H S : Type) : Type := mkStore {
  load : string -> Async H (option S);
  save : string -> S -> Q -> Async H unit;
  reset : option (string -> Async H unit)
}.
Arguments mkStore {H S} _ _ _.
Arguments load {H S} _ _.
Arguments save {H S} _ _ _ _.
Arguments reset {H S} _.

End Runtime.

Notation "'await' x <- m ; k" := (Runtime.bind m (fun x => k))
  (at level 10, x name, m at level 100, k at level 200,
   format "'[v' 'await'  x  <-  m ; '/' k ']'").

(* ===================================================================== *)
(** ** src/store/memory.ts                                                *)
(* ===================================================================== *)

Module MemoryStore.
Import Runtime.

Record Entry (S : Type) : Type := mkEntry { state : S; expiresAt : Q }.
Arguments mkEntry {S} _ _.
Arguments state {S} _.
Arguments expiresAt {S} _.

Section Store.
Context {S : Type}.

(** [for (const [k, v] of map) if (v.expiresAt <= now) map.delete(k)] *)
Definition cleanup (now : Q) (map : gmap string (Entry S))
  : gmap string (Entry S) :=
  filter (fun kv => JsMath.leb (expiresAt kv.2) now = false) map.

Definition load (key : string) : Async (gmap string (Entry S)) (option S) :=
  await now <- Date_now ;
  await map <- get_heap ;
  let map := cleanup now map in
  await _ <- put_heap map ;
  match map !! key with
  | None => ret None
  | Some v =>
      if JsMath.leb (expiresAt v) now
      then await _ <- put_heap (delete key map) ; ret None
      else ret (Some (state v))
  end.

Definition save (key : string) (state : S) (ttlMs : Q)
  : Async (gmap string (Entry S)) unit :=
  await now <- Date_now ;
  await map <- get_heap ;
  let map := cleanup now map in
  put_heap (<[key := mkEntry state (now + ttlMs)]> map).

Definition reset (key : string) : Async (gmap string (Entry S)) unit :=
  await map <- get_heap ;
  put_heap (delete key map).

(** What [load] finds under a key: an entry that has not expired. *)
Definition stored (w : World (gmap string (Entry S))) (key : string)
  : option S :=
  match heap w !! key with
  | Some v => if JsMath.leb (expiresAt v) (clock w) then None else Some (state v)
  | None => None
  end.

Definition memoryStore : Store (gmap string (Entry S)) S :=
  mkStore load save (Some reset).

(** A freshly created store, with the clock reading [t]. *)
Definition fresh (t : Q) : World (gmap string (Entry S)) := mkWorld t ∅.
End Store.

End MemoryStore.

(* ===================================================================== *)
(** ** src/core/ratelimit.ts                                              *)
(* ===================================================================== *)

Module Ratelimit.
Import Runtime.

Section Limiter.
Context {H S Ctx : Type}.

Record RatelimitOptions : Type := mkOptions {
  opt_store : Store H S;
  opt_algorithm : Types.Algorithm S;
  opt_key : Ctx -> string;
  opt_namespace : option string;
  opt_cost : option (Ctx -> JsNumber.number)
}.

Record Ratelimit : Type := mkRatelimit {
  store : Store H S;
  algorithm : Types.Algorithm S;
  keyFn : Ctx -> string;
  namespace : string;
  costFn : Ctx -> JsNumber.number
}.

(** [constructor(opts)] *)
Definition new (opts : RatelimitOptions) : Ratelimit :=
  mkRatelimit (opt_store opts) (opt_algorithm opts) (opt_key opts)
    (default "default"%string (opt_namespace opts))
    (default (fun _ => JsNumber.Fin 1) (opt_cost opts)).

(** [Math.max(0, Math.floor(this.costFn(ctx)) || 1)] *)
Definition cost (this : Ratelimit) (ctx : Ctx) : JsNumber.number :=
  JsNumber.max (JsNumber.Fin 0)
    (JsNumber.or (JsNumber.floor (costFn this ctx)) (JsNumber.Fin 1)).

Definition fullKey (this : Ratelimit) (ctx : Ctx) : string :=
  namespace this +:+ ":" +:+ keyFn this ctx.

(** The algorithms take a finite cost. *)
Definition finite (x : JsNumber.number) : Async H Q :=
  match x with
  | JsNumber.Fin q => ret q
  | _ => fun _ => Unmodelled
  end.

Definition limit (this : Ratelimit) (ctx : Ctx) : Async H Types.LimitResult :=
  await now <- Date_now ;
  let key := fullKey this ctx in
  await cost <- finite (cost this ctx) ;
  await state <- load (store this) key ;
  let out := Types.compute (algorithm this) state cost now in
  await _ <- save (store this) key (Types.state out) (Types.ttlMs out) ;
  ret (Types.with_now (Types.result out) now).
End Limiter.

Arguments RatelimitOptions : clear implicits.
Arguments Ratelimit : clear implicits.

End Ratelimit.

(* ===================================================================== *)
(** ** src/headers.ts                                                     *)
(* ===================================================================== *)

Module Headers.

Record HeadersOptions : Type := mkOptions {
  standard : option bool;
  legacy : option bool;
  policy : option bool
}.

(** [{}] *)
Definition empty_options : HeadersOptions := mkOptions None None None.

(** [const { standard = true, legacy = false, policy = false } = opts] *)
Definition standard_of (opts : HeadersOptions) : bool :=
  default true (standard opts).
Definition legacy_of (opts : HeadersOptions) : bool :=
  default false (legacy opts).
Definition policy_of (opts : HeadersOptions) : bool :=
  default false (policy opts).

Section Build.
(** [String(n)] on numbers is taken as given. *)
Variable String_ : Q -> string.

Definition retry_after_header (result : Types.LimitResult)
    (out : gmap string string) : gmap string string :=
  match Types.retryAfter result with
  | Some ms => <["Retry-After"%string := String_ (JsMath.ceil (ms / 1000))]> out
  | None => out
  end.

Definition build (result : Types.LimitResult) (opts : option HeadersOptions)
  : gmap string string :=
  let opts := default empty_options opts in
  let standard := standard_of opts in
  let legacy := legacy_of opts in
  let policy := policy_of opts in
  let out : gmap string string := ∅ in
  let out :=
    if standard then
      let out := <["RateLimit-Limit"%string := String_ (Types.limit result)]> out in
      let out := <["RateLimit-Remaining"%string := String_ (Types.remaining result)]> out in
      let out := <["RateLimit-Reset"%string := String_ (Types.reset result)]> out in
      retry_after_header result out
    else out in
  let out :=
    if legacy then
      let out := <["X-RateLimit-Limit"%string := String_ (Types.limit result)]> out in
      let out := <["X-RateLimit-Remaining"%string := String_ (Types.remaining result)]> out in
      let out := <["X-RateLimit-Reset"%string := String_ (Types.reset result)]> out in
      retry_after_header result out
    else out in
  match Types.policy result with
  | Some p =>
      if policy && negb (String.eqb p "")
      then <["RateLimit-Policy"%string := p]> out else out
  | None => out
  end.
End Build.

(** The names each family may write. *)
Definition standard_names : list string :=
  ["RateLimit-Limit"; "RateLimit-Remaining"; "RateLimit-Reset"]%string.
Definition legacy_names : list string :=
  ["X-RateLimit-Limit"; "X-RateLimit-Remaining"; "X-RateLimit-Reset"]%string.
Definition policy_names : list string := ["RateLimit-Policy"%string].

(** Decimal rendering of a whole number, as [String] prints it. *)
Definition decimal (n : Q) : string :=
  NilEmpty.string_of_int (Z.to_int (Qfloor n)).

(** [mockResult] and [mockDeniedResult] of tests/headers.test.ts, at
    [now = 0], and the denied one with a policy descriptor. *)
Definition mockResult : Types.LimitResult :=
  Types.mkResult true 100 95 1234567890 None 0 None.
Definition mockDeniedResult : Types.LimitResult :=
  Types.mkResult false 100 0 1234567890 (Some 5000) 0 None.
Definition mockDeniedWithPolicy : Types.LimitResult :=
  Types.mkResult false 100 0 1234567890 (Some 5000) 0 (Some "100;w=60"%string).

End Headers.

(* ===================================================================== *)
(** ** Limiters of the test suite                                         *)
(* ===================================================================== *)

Module Fixtures.
Import Runtime.

Definition sliding_of (limit windowMs : Q) : Types.Algorithm SlidingWindow.State :=
  Types.mkAlgorithm Types.sliding
    (SlidingWindow.compute (SlidingWindow.mkConfig limit windowMs)).

Definition bucket_of (capacity refillRatePerSec : Q)
  : Types.Algorithm TokenBucket.State :=
  Types.mkAlgorithm Types.tokenBucket
    (TokenBucket.compute (TokenBucket.mkConfig capacity refillRatePerSec)).

(** The two algorithms in rounded arithmetic; with [Float.round], as the
    code runs them. *)
Definition rounded_sliding_of (fl : Q -> Q) (limit windowMs : Q)
  : Types.Algorithm SlidingWindow.State :=
  Types.mkAlgorithm Types.sliding
    (RoundedSlidingWindow.compute fl (SlidingWindow.mkConfig limit windowMs)).

Definition rounded_bucket_of (fl : Q -> Q) (capacity refillRatePerSec : Q)
  : Types.Algorithm TokenBucket.State :=
  Types.mkAlgorithm Types.tokenBucket
    (RoundedTokenBucket.compute fl
       (TokenBucket.mkConfig capacity refillRatePerSec)).

(** [new Ratelimit({ algorithm, store: memoryStore(), key: () => 'test',
    cost })] *)
Definition limiter {S : Type} (algorithm : Types.Algorithm S)
    (cost : option (unit -> JsNumber.number))
  : Ratelimit.Ratelimit (gmap string (MemoryStore.Entry S)) S unit :=
  Ratelimit.new
    (Ratelimit.mkOptions MemoryStore.memoryStore algorithm
       (fun _ => "test"%string) None cost).

(** The decision of a run, if it resolved. *)
Definition decision {H A} (o : Outcome (A * World H)) : option A :=
  match o with
  | Resolved (a, _) => Some a
  | _ => None
  end.

(** The world a run leaves behind; the world is unchanged if the run did
    not resolve. *)
Definition world_after {H A} (w : World H) (o : Outcome (A * World H))
  : World H :=
  match o with
  | Resolved (_, w') => w'
  | _ => w
  end.

(** [allowed] of each decision of a list. *)
Definition verdicts (decisions : list (option Types.LimitResult))
  : list (option bool) :=
  List.map (option_map Types.allowed) decisions.

(** The state a key has after [n] calls of [compute] with the same cost
    at the same instant, starting from [state]. *)
Fixpoint replay {S} (alg : Types.Algorithm S) (n : nat) (cost now : Q)
    (state : option S) : option S :=
  match n with
  | O => state
  | Datatypes.S n' =>
      replay alg n' cost now
        (Some (Types.state (Types.compute alg state cost now)))
  end.

(** [n] calls in a row with the clock standing still: the decisions, and
    the world left behind. *)
Fixpoint burst {H S Ctx} (this : Ratelimit.Ratelimit H S Ctx) (ctx : Ctx)
    (n : nat) (w : World H) : list (option Types.LimitResult) * World H :=
  match n with
  | O => ([], w)
  | Datatypes.S n' =>
      let o := Ratelimit.limit this ctx w in
      let '(rest, w') := burst this ctx n' (world_after w o) in
      (decision o :: rest, w')
  end.

(** Whether a string holds the separator [":"] of the full key. *)
Fixpoint has_colon (s : string) : bool :=
  match s with
  | EmptyString => false
  | String c rest => String.eqb (String c EmptyString) ":" || has_colon rest
  end.

(** [new Ratelimit({ algorithm, store, key: () => key, namespace })] *)
Definition keyed {H S : Type} (store : Store H S) (algorithm : Types.Algorithm S)
    (namespace key : string) : Ratelimit.Ratelimit H S unit :=
  Ratelimit.new
    (Ratelimit.mkOptions store algorithm (fun _ => key) (Some namespace) None).

(** The verdicts of [m] requests of which the first [n] are allowed and the
    others denied. *)
Definition first_allowed (n m : nat) : list (option bool) :=
  List.map (fun i => Some (Nat.ltb i n)) (List.seq 0 m).

(** A series of calls of [compute] for one key, each given as its cost and
    its clock reading and run on the state the call before returned: the
    cost admitted in total, and the state left. *)
Fixpoint serve {S} (alg : Types.Algorithm S) (state : option S)
    (requests : list (Q * Q)) : Q * option S :=
  match requests with
  | [] => (0, state)
  | (cost, now) :: rest =>
      let out := Types.compute alg state cost now in
      let '(admitted, final) := serve alg (Some (Types.state out)) rest in
      ((if Types.p_allowed (Types.result out) then cost else 0) + admitted,
       final)
  end.
End Fixtures.

(* ===================================================================== *)
(** * Properties                                                          *)
(* ===================================================================== *)

(** ** Comparisons and rounding on finite numbers *)

Section JsMathFacts.
Implicit Types a b x : Q.

Lemma leb_true a b : JsMath.leb a b = true <-> a <= b.
Proof. apply Qle_bool_iff. Qed.

Lemma leb_false a b : JsMath.leb a b = false <-> b < a.
Proof.
  unfold JsMath.leb. rewrite <- not_true_iff_false, Qle_bool_iff.
  split; [apply Qnot_le_lt | apply Qlt_not_le].
Qed.

Lemma geb_true a b : JsMath.geb a b = true <-> b <= a.
Proof. apply Qle_bool_iff. Qed.

Lemma geb_false a b : JsMath.geb a b = false <-> a < b.
Proof. apply leb_false. Qed.

Lemma gtb_true a b : JsMath.gtb a b = true <-> b < a.
Proof. unfold JsMath.gtb. rewrite negb_true_iff. apply leb_false. Qed.

Lemma gtb_false a b : JsMath.gtb a b = false <-> a <= b.
Proof. unfold JsMath.gtb. rewrite negb_false_iff. apply leb_true. Qed.

Lemma ltb_true a b : JsMath.ltb a b = true <-> a < b.
Proof. apply gtb_true. Qed.

Lemma ltb_false a b : JsMath.ltb a b = false <-> b <= a.
Proof. apply gtb_false. Qed.

Lemma eqb_true a b : JsMath.eqb a b = true <-> a == b.
Proof. apply Qeq_bool_iff. Qed.

Lemma eqb_false a b : JsMath.eqb a b = false <-> ~ a == b.
Proof.
  unfold JsMath.eqb. rewrite <- not_true_iff_false, Qeq_bool_iff. tauto.
Qed.

Lemma neqb_true a b : JsMath.neqb a b = true <-> ~ a == b.
Proof. unfold JsMath.neqb. rewrite negb_true_iff. apply eqb_false. Qed.

Lemma neqb_false a b : JsMath.neqb a b = false <-> a == b.
Proof. unfold JsMath.neqb. rewrite negb_false_iff. apply eqb_true. Qed.

Lemma floor_le x : JsMath.floor x <= x.
Proof. apply Qfloor_le. Qed.

Lemma floor_gt x : x - 1 < JsMath.floor x.
Proof.
  unfold JsMath.floor. pose proof (Qlt_floor x) as Hlt.
  rewrite inject_Z_plus in Hlt. change (inject_Z 1) with 1 in Hlt. lra.
Qed.

Lemma ceil_ge x : x <= JsMath.ceil x.
Proof. apply Qle_ceiling. Qed.

Lemma ceil_lt x : JsMath.ceil x < x + 1.
Proof.
  unfold JsMath.ceil. pose proof (Qceiling_lt x) as Hlt.
  unfold Z.sub in Hlt. rewrite inject_Z_plus, inject_Z_opp in Hlt.
  change (inject_Z 1) with 1 in Hlt. lra.
Qed.

Lemma max_ge_l a b : a <= JsMath.max a b.
Proof. apply Q.le_max_l. Qed.

Lemma max_ge_r a b : b <= JsMath.max a b.
Proof. apply Q.le_max_r. Qed.

Lemma min_le_l a b : JsMath.min a b <= a.
Proof. apply Q.le_min_l. Qed.


Lemma min_glb a b x : x <= a -> x <= b -> x <= JsMath.min a b.
Proof. apply Q.min_glb. Qed.

(** The floor of a number is the one whole number within one below it. *)
Lemma floor_unique x (z : Z) :
  inject_Z z <= x -> x < inject_Z z + 1 -> JsMath.floor x = inject_Z z.
Proof.
  intros Hle Hlt. unfold JsMath.floor. f_equal.
  pose proof (Qfloor_le x) as H1. pose proof (Qlt_floor x) as H2.
  rewrite inject_Z_plus in H2. change (inject_Z 1) with 1 in H2.
  assert (inject_Z (Qfloor x) < inject_Z (z + 1)) as Ha
    by (rewrite inject_Z_plus; change (inject_Z 1) with 1; lra).
  assert (inject_Z z < inject_Z (Qfloor x + 1)) as Hb
    by (rewrite inject_Z_plus; change (inject_Z 1) with 1; lra).
  rewrite <- Zlt_Qlt in Ha, Hb. lia.
Qed.
End JsMathFacts.

(** ** Rounding to the nearest double *)

Section FloatFacts.
Import Float.

Lemma pow2_pos z : 0 < 2 ^ z.
Proof. apply Qpower_0_lt. reflexivity. Qed.

Lemma pow2_succ z : 2 ^ (z + 1) == 2 * 2 ^ z.
Proof.
  rewrite Qpower_plus by (intros H; discriminate H).
  change (2 ^ 1) with 2. ring.
Qed.

Lemma pow2_le z z' : (z <= z')%Z -> 2 ^ z <= 2 ^ z'.
Proof. intros H. apply Qpower_le_compat_l; [exact H | lra]. Qed.

Lemma pow2_whole (n : Z) : (0 <= n)%Z -> 2 ^ n == inject_Z (2 ^ n).
Proof. intros H. rewrite Zpower_Qpower by exact H. reflexivity. Qed.

Lemma pow2_neg (e : Z) : (e <= 0)%Z -> 2 ^ e == / inject_Z (2 ^ (- e)).
Proof.
  intros H. rewrite <- pow2_whole by lia. rewrite <- Qpower_opp.
  rewrite Z.opp_involutive. reflexivity.
Qed.

Lemma mul_le_of_le_div a b c : 0 < c -> a <= b / c -> a * c <= b.
Proof.
  intros Hc H. assert (b / c * c == b) as Hb by (field; lra).
  set (q := b / c) in *. nra.
Qed.

Lemma lt_mul_of_div_lt a b c : 0 < c -> b / c < a -> b < a * c.
Proof.
  intros Hc H. assert (b / c * c == b) as Hb by (field; lra).
  set (q := b / c) in *. nra.
Qed.

Lemma log2_bounds (n : Z) :
  (0 < n)%Z ->
  2 ^ Z.log2 n <= inject_Z n /\ inject_Z n < 2 ^ (Z.log2 n + 1).
Proof.
  intros Hn. destruct (Z.log2_spec n Hn) as [Hl Hu].
  pose proof (Z.log2_nonneg n) as H0.
  rewrite !pow2_whole by lia. rewrite <- Zle_Qle, <- Zlt_Qlt.
  rewrite Z.add_1_r. split; assumption.
Qed.

Lemma exponent_spec x :
  0 < x -> 2 ^ 52 <= x / 2 ^ exponent x /\ x / 2 ^ exponent x < 2 ^ 53.
Proof.
  intros Hx. destruct x as [n d].
  assert (0 < n)%Z as Hn.
  { unfold Qlt in Hx. cbn in Hx. lia. }
  destruct (log2_bounds n Hn) as [HnL HnU].
  destruct (log2_bounds (Zpos d) eq_refl) as [HdL HdU].
  unfold exponent. cbn [Qnum Qden].
  set (e0 := (Z.log2 n - Z.log2 (Z.pos d) - 53)%Z).
  assert (2 ^ e0 == 2 ^ Z.log2 n / 2 ^ Z.log2 (Z.pos d) / 2 ^ 53) as He0.
  { unfold e0. rewrite !Qpower_minus by (intros H; discriminate H). reflexivity. }
  rewrite pow2_succ in HnU, HdU.
  pose proof (pow2_pos (Z.log2 n)) as HA.
  pose proof (pow2_pos (Z.log2 (Z.pos d))) as HB.
  pose proof (pow2_pos e0) as HE.
  set (A := 2 ^ Z.log2 n) in *. set (B := 2 ^ Z.log2 (Z.pos d)) in *.
  set (N := inject_Z n) in *. set (D := inject_Z (Z.pos d)) in *.
  assert (n # d == N / D) as HND by apply Qmake_Qdiv.
  assert (0 < D) as HD by lra.
  assert (0 < N) as HN by lra.
  set (x := n # d) in *.
  assert (x / 2 ^ e0 == N * B * 2 ^ 53 / (D * A)) as Hv.
  { rewrite He0, HND. field. repeat split; lra. }
  assert (2 ^ 53 == 2 * 2 ^ 52) as H53 by reflexivity.
  assert (0 < 2 ^ 52) as H52 by reflexivity.
  set (P52 := 2 ^ 52) in *. set (P53 := 2 ^ 53) in *.
  assert (0 < D * A) as HDA by nra.
  assert (D * A < 2 * (N * B)) as H1 by nra.
  assert (N * B < 2 * (D * A)) as H2 by nra.
  assert (P52 < x / 2 ^ e0) as HvL.
  { rewrite Hv. apply Qlt_shift_div_l; [exact HDA |]. rewrite H53.
    set (DA := D * A) in *. set (NB := N * B) in *. nra. }
  assert (x / 2 ^ e0 < 2 * P53) as HvU.
  { rewrite Hv. apply Qlt_shift_div_r; [exact HDA |]. rewrite H53.
    set (DA := D * A) in *. set (NB := N * B) in *. nra. }
  destruct (Qle_bool P53 (x / 2 ^ e0)) eqn:Htest.
  - apply Qle_bool_iff in Htest.
    assert (x / 2 ^ (e0 + 1) == x / 2 ^ e0 / 2) as Hhalf.
    { rewrite pow2_succ. field. lra. }
    rewrite Hhalf. split.
    + apply Qle_shift_div_l; lra.
    + apply Qlt_shift_div_r; lra.
  - assert (~ P53 <= x / 2 ^ e0) as Hnot.
    { intros H. apply Qle_bool_iff in H. congruence. }
    split; [lra |]. apply Qnot_le_lt. exact Hnot.
Qed.

Lemma nearest_even_floor v :
  (Qfloor v <= nearest_even v <= Qfloor v + 1)%Z.
Proof.
  unfold nearest_even. destruct (Qcompare _ _); [destruct (Z.even _) |..]; lia.
Qed.

Lemma nearest_even_comp v v' : v == v' -> nearest_even v = nearest_even v'.
Proof.
  intros H. unfold nearest_even. rewrite (Qfloor_comp _ _ H).
  assert (v - inject_Z (Qfloor v') == v' - inject_Z (Qfloor v')) as Hf
    by (rewrite H; reflexivity).
  rewrite (Qcompare_comp _ _ Hf _ _ (Qeq_refl (1 # 2))). reflexivity.
Qed.

Lemma nearest_even_whole z : nearest_even (inject_Z z) = z.
Proof.
  unfold nearest_even. rewrite Qfloor_Z.
  destruct (Qcompare_spec (inject_Z z - inject_Z z) (1 # 2)) as [H | H | H];
    [exfalso; lra | reflexivity | exfalso; lra].
Qed.

Lemma nearest_even_monotone v v' :
  v <= v' -> (nearest_even v <= nearest_even v')%Z.
Proof.
  intros Hle. pose proof (Qfloor_resp_le _ _ Hle) as Hf.
  pose proof (nearest_even_floor v) as Hv.
  pose proof (nearest_even_floor v') as Hv'.
  destruct (Z.eq_dec (Qfloor v) (Qfloor v')) as [Heq | Hne]; [| lia].
  unfold nearest_even in *. rewrite <- Heq in *.
  set (f := Qfloor v) in *.
  destruct (Qcompare_spec (v - inject_Z f) (1 # 2)) as [H1 | H1 | H1];
    destruct (Qcompare_spec (v' - inject_Z f) (1 # 2)) as [H2 | H2 | H2];
    try destruct (Z.even f); try lia; lra.
Qed.

Lemma round_comp x y : x == y -> round x = round y.
Proof. intros H. unfold round. rewrite (Qred_complete _ _ H). reflexivity. Qed.

Lemma round_zero : round 0 = 0.
Proof. reflexivity. Qed.

Lemma round_opp x : round (- x) == - round x.
Proof.
  unfold round. rewrite Qred_opp.
  destruct (Qred x) as [[| p | p] d].
  - reflexivity.
  - change (- (Z.pos p # d)) with (Z.neg p # d). cbn [Qnum].
    change (- (Z.neg p # d)) with (Z.pos p # d).
    rewrite !Qred_correct. reflexivity.
  - change (- (Z.neg p # d)) with (Z.pos p # d). cbn [Qnum].
    rewrite !Qred_correct. ring.
Qed.

Lemma round_pos_spec x :
  0 < x ->
  exists e : Z,
    2 ^ 52 <= x / 2 ^ e /\ x / 2 ^ e < 2 ^ 53 /\
    round x == inject_Z (nearest_even (x / 2 ^ e)) * 2 ^ e.
Proof.
  intros Hx. pose proof (Qred_correct x) as Hred.
  assert (0 < Qred x) as Hpos by (rewrite Hred; exact Hx).
  exists (exponent (Qred x)).
  destruct (exponent_spec _ Hpos) as [HL HU].
  assert (round x == round_pos (Qred x)) as ->.
  { unfold round. rewrite Qred_correct.
    destruct (Qred x) as [[| p | p] d]; cbn [Qnum].
    - exfalso. revert Hpos. unfold Qlt. cbn. lia.
    - reflexivity.
    - exfalso. revert Hpos. unfold Qlt. cbn. lia. }
  unfold round_pos. set (e := exponent (Qred x)) in *.
  assert (Qred x / 2 ^ e == x / 2 ^ e) as Hv by (rewrite Hred; reflexivity).
  rewrite (nearest_even_comp _ _ Hv). rewrite Hv in HL, HU.
  split; [exact HL |]. split; [exact HU | reflexivity].
Qed.

Lemma round_positive x : 0 < x -> 0 < round x.
Proof.
  intros Hx. destruct (round_pos_spec x Hx) as (e & HL & _ & ->).
  pose proof (pow2_pos e) as He.
  assert (2 ^ 52 == inject_Z (2 ^ 52)) as H52 by reflexivity.
  rewrite H52 in HL. apply Qfloor_resp_le in HL. rewrite Qfloor_Z in HL.
  pose proof (nearest_even_floor (x / 2 ^ e)) as Hn.
  assert (0 < nearest_even (x / 2 ^ e))%Z as Hz.
  { eapply Z.lt_le_trans; [| etransitivity; [exact HL | apply Hn]]. reflexivity. }
  rewrite Zlt_Qlt in Hz. change (inject_Z 0) with 0 in Hz.
  set (m := inject_Z _) in *. set (E := 2 ^ e) in *. nra.
Qed.

Lemma round_whole_pos (z : Z) :
  (0 < z <= 2 ^ 53)%Z -> round (inject_Z z) == inject_Z z.
Proof.
  intros [Hz0 Hz].
  assert (0 < inject_Z z) as Hx.
  { change 0 with (inject_Z 0). rewrite <- Zlt_Qlt. exact Hz0. }
  destruct (round_pos_spec _ Hx) as (e & HL & HU & ->).
  pose proof (pow2_pos e) as He.
  assert (inject_Z z <= 2 ^ 53) as Hzq.
  { change (2 ^ 53) with (inject_Z (2 ^ 53)). rewrite <- Zle_Qle. exact Hz. }
  assert (2 ^ 53 == 2 * 2 ^ 52) as H53 by reflexivity.
  assert (0 < 2 ^ 52) as H52 by reflexivity.
  assert (2 ^ 52 * 2 ^ e <= inject_Z z) as Hlow
    by (apply mul_le_of_le_div; assumption).
  destruct (Z_le_gt_dec e 0) as [Hneg | Hpos'].
  - assert (inject_Z z / 2 ^ e == inject_Z (z * 2 ^ (- e))) as Hv.
    { rewrite inject_Z_mult, (pow2_neg e Hneg). field.
      rewrite <- pow2_whole by lia. pose proof (pow2_pos (- e)). lra. }
    rewrite (nearest_even_comp _ _ Hv), nearest_even_whole.
    rewrite inject_Z_mult, (pow2_neg e Hneg). field.
    rewrite <- pow2_whole by lia. pose proof (pow2_pos (- e)). lra.
  - assert (2 ^ 1 <= 2 ^ e) as H1 by (apply pow2_le; lia).
    change (2 ^ 1) with 2 in H1.
    assert (e = 1)%Z as ->.
    { destruct (Z_le_gt_dec e 1) as [Hle | Hgt]; [lia |].
      assert (2 ^ 2 <= 2 ^ e) as H2 by (apply pow2_le; lia).
      change (2 ^ 2) with 4 in H2.
      set (P := 2 ^ 52) in *. set (E := 2 ^ e) in *. exfalso. nra. }
    change (2 ^ 1) with 2 in *.
    assert (inject_Z z == 2 ^ 53) as Hzeq.
    { set (P := 2 ^ 52) in *. set (P' := 2 ^ 53) in *. lra. }
    assert (inject_Z z / 2 == inject_Z (2 ^ 52)) as Hv.
    { rewrite Hzeq. reflexivity. }
    rewrite (nearest_even_comp _ _ Hv), nearest_even_whole, Hzeq. reflexivity.
Qed.

Lemma round_whole (z : Z) :
  (Z.abs z <= 2 ^ 53)%Z -> round (inject_Z z) == inject_Z z.
Proof.
  intros Hz. destruct (Z.lt_trichotomy z 0) as [Hneg | [-> | Hpos]].
  - assert (inject_Z z == - inject_Z (- z)) as Hopp.
    { rewrite inject_Z_opp. ring. }
    rewrite (round_comp _ _ Hopp), round_opp, round_whole_pos by lia.
    rewrite inject_Z_opp. ring.
  - reflexivity.
  - apply round_whole_pos. lia.
Qed.

Lemma round_monotone_pos x y : 0 < x -> x <= y -> round x <= round y.
Proof.
  intros Hx Hxy. assert (0 < y) as Hy by lra.
  destruct (round_pos_spec x Hx) as (ex & HxL & HxU & ->).
  destruct (round_pos_spec y Hy) as (ey & HyL & HyU & ->).
  pose proof (pow2_pos ex) as Hex. pose proof (pow2_pos ey) as Hey.
  assert (2 ^ 53 == 2 * 2 ^ 52) as H53 by reflexivity.
  assert (0 < 2 ^ 52) as H52 by reflexivity.
  assert (2 ^ 52 == inject_Z (2 ^ 52)) as W52 by reflexivity.
  assert (2 ^ 53 == inject_Z (2 ^ 53)) as W53 by reflexivity.
  assert (2 ^ 52 * 2 ^ ex <= x) as HxL' by (apply mul_le_of_le_div; assumption).
  assert (y < 2 ^ 53 * 2 ^ ey) as HyU' by (apply lt_mul_of_div_lt; assumption).
  pose proof (nearest_even_floor (x / 2 ^ ex)) as Hnx.
  pose proof (nearest_even_floor (y / 2 ^ ey)) as Hny.
  assert (nearest_even (x / 2 ^ ex) <= 2 ^ 53)%Z as Hmx.
  { rewrite <- (nearest_even_whole (2 ^ 53)). apply nearest_even_monotone.
    rewrite <- W53. lra. }
  assert (2 ^ 52 <= nearest_even (y / 2 ^ ey))%Z as Hmy.
  { rewrite <- (nearest_even_whole (2 ^ 52)). apply nearest_even_monotone.
    rewrite <- W52. exact HyL. }
  rewrite Zle_Qle, <- W53 in Hmx. rewrite Zle_Qle, <- W52 in Hmy.
  destruct (Z.lt_trichotomy ex ey) as [Hlt | [Heq | Hgt]].
  - assert (2 ^ (ex + 1) <= 2 ^ ey) as Hpow by (apply pow2_le; lia).
    rewrite pow2_succ in Hpow.
    set (mx := inject_Z (nearest_even (x / 2 ^ ex))) in *.
    set (my := inject_Z (nearest_even (y / 2 ^ ey))) in *.
    set (Ex := 2 ^ ex) in *. set (Ey := 2 ^ ey) in *.
    set (P52 := 2 ^ 52) in *. set (P53 := 2 ^ 53) in *.
    apply Qle_trans with (P53 * Ex); [nra |].
    apply Qle_trans with (P52 * Ey); nra.
  - subst ey.
    assert (x / 2 ^ ex <= y / 2 ^ ex) as Hv.
    { apply Qle_shift_div_l; [exact Hex |].
      assert (x / 2 ^ ex * 2 ^ ex == x) as -> by (field; lra). exact Hxy. }
    apply nearest_even_monotone in Hv. rewrite Zle_Qle in Hv.
    set (mx := inject_Z (nearest_even (x / 2 ^ ex))) in *.
    set (my := inject_Z (nearest_even (y / 2 ^ ex))) in *.
    set (Ex := 2 ^ ex) in *. nra.
  - exfalso.
    assert (2 ^ (ey + 1) <= 2 ^ ex) as Hpow by (apply pow2_le; lia).
    rewrite pow2_succ in Hpow.
    set (Ex := 2 ^ ex) in *. set (Ey := 2 ^ ey) in *.
    set (P52 := 2 ^ 52) in *. set (P53 := 2 ^ 53) in *. nra.
Qed.

Lemma round_nonneg x : 0 <= x -> 0 <= round x.
Proof.
  intros Hx. destruct (Qlt_le_dec 0 x) as [Hpos | Hle].
  - apply Qlt_le_weak, round_positive, Hpos.
  - assert (x == 0) as H0 by lra. rewrite (round_comp _ _ H0), round_zero. lra.
Qed.

Lemma round_monotone x y : x <= y -> round x <= round y.
Proof.
  intros Hxy. destruct (Qlt_le_dec 0 x) as [Hx | Hx].
  - apply round_monotone_pos; assumption.
  - destruct (Qlt_le_dec y 0) as [Hy | Hy].
    + assert (round (- y) <= round (- x)) as H
        by (apply round_monotone_pos; lra).
      rewrite !round_opp in H. lra.
    + assert (0 <= round y) as H1 by (apply round_nonneg; exact Hy).
      assert (0 <= round (- x)) as H2 by (apply round_nonneg; lra).
      rewrite round_opp in H2. lra.
Qed.

#[export] Instance round_rounding : Rounding round.
Proof.
  split.
  - intros x y H. rewrite (round_comp _ _ H). reflexivity.
  - exact round_whole.
  - exact round_positive.
  - exact round_monotone.
Qed.

#[export] Instance exact_rounding : Rounding (fun x : Q => x).
Proof.
  split.
  - intros x y H. exact H.
  - reflexivity.
  - intros x H. exact H.
  - intros x y H. exact H.
Qed.
End FloatFacts.

(** ** The cost the orchestrator hands to the algorithm *)

Section CostNormalisation.
Context {H S Ctx : Type}.
Variable this : Ratelimit.Ratelimit H S Ctx.
Variable ctx : Ctx.

(** A cost function whose floor is not zero is charged
    [max(0, floor(costFn(ctx)))]. *)
Lemma cost_floor_nonzero q :
  Ratelimit.costFn this ctx = JsNumber.Fin q ->
  ~ JsMath.floor q == 0 ->
  Ratelimit.cost this ctx = JsNumber.Fin (JsMath.max 0 (JsMath.floor q)).
Proof.
  intros Hq Hnz. unfold Ratelimit.cost. rewrite Hq. cbn.
  unfold JsNumber.or, JsNumber.truthy.
  apply neqb_true in Hnz. rewrite Hnz. reflexivity.
Qed.

Lemma cost_NaN :
  Ratelimit.costFn this ctx = JsNumber.NaN ->
  Ratelimit.cost this ctx = JsNumber.Fin 1.
Proof. intros Hq. unfold Ratelimit.cost. rewrite Hq. reflexivity. Qed.

Lemma cost_minus_five :
  Ratelimit.costFn this ctx = JsNumber.Fin (-5) ->
  Ratelimit.cost this ctx = JsNumber.Fin 0.
Proof. intros Hq. unfold Ratelimit.cost. rewrite Hq. reflexivity. Qed.

Lemma cost_two_point_seven :
  Ratelimit.costFn this ctx = JsNumber.Fin (27 # 10) ->
  Ratelimit.cost this ctx = JsNumber.Fin 2.
Proof. intros Hq. unfold Ratelimit.cost. rewrite Hq. reflexivity. Qed.

(** [Infinity] is truthy and passes through [Math.max]. *)
Lemma cost_infinite :
  Ratelimit.costFn this ctx = JsNumber.PosInf ->
  Ratelimit.cost this ctx = JsNumber.PosInf.
Proof. intros Hq. unfold Ratelimit.cost. rewrite Hq. reflexivity. Qed.
End CostNormalisation.

(** C1 (fails on the code): the cost handed to the algorithm is not always
    [max(0, floor(costFn(context)))].  A cost function returning a number
    in [0, 1) has floor [0], which [||] takes as falsy: the request is
    charged [1], while the claimed [max(0, floor(..))] is [0]. *)
Theorem cost_zero_charged_as_one {H S Ctx : Type}
    (this : Ratelimit.Ratelimit H S Ctx) (ctx : Ctx) (q : Q) :
  Ratelimit.costFn this ctx = JsNumber.Fin q ->
  0 <= q -> q < 1 ->
  Ratelimit.cost this ctx = JsNumber.Fin 1 /\
  JsMath.max 0 (JsMath.floor q) == 0.
Proof.
  intros Hq H0 H1.
  assert (JsMath.floor q = inject_Z 0) as Hfl
    by (apply floor_unique; change (inject_Z 0) with 0; lra).
  split.
  - unfold Ratelimit.cost. rewrite Hq. cbn. rewrite Hfl. reflexivity.
  - rewrite Hfl. reflexivity.
Qed.

Lemma cost_zero_charged_as_one_witness :
  Ratelimit.cost
    (Fixtures.limiter (Fixtures.bucket_of 10 1) (Some (fun _ => JsNumber.Fin 0)))
    tt = JsNumber.Fin 1 /\
  JsMath.max 0 (JsMath.floor 0) == 0.
Proof.
  apply (cost_zero_charged_as_one
           (Fixtures.limiter (Fixtures.bucket_of 10 1)
                             (Some (fun _ => JsNumber.Fin 0))) tt 0).
  - reflexivity.
  - lra.
  - lra.
Defined.

(** The same through a whole call, on the limiter of the test suite
    (capacity 10): returning [0] consumes a token, returning [-5] none. *)
Example limit_cost_zero_consumes_a_token :
  Types.remaining <$>
    Fixtures.decision
      (Ratelimit.limit
         (Fixtures.limiter (Fixtures.bucket_of 10 1)
                           (Some (fun _ => JsNumber.Fin 0))) tt
         (MemoryStore.fresh 0)) = Some 9 /\
  Types.remaining <$>
    Fixtures.decision
      (Ratelimit.limit
         (Fixtures.limiter (Fixtures.bucket_of 10 1)
                           (Some (fun _ => JsNumber.Fin (-5)))) tt
         (MemoryStore.fresh 0)) = Some 10.
Proof. split; vm_compute; reflexivity. Qed.

(** ** The constructors *)

Lemma slidingWindow_returns (limit windowMs : Q) :
  0 < limit -> 0 < windowMs ->
  SlidingWindow.slidingWindow (SlidingWindow.mkConfig limit windowMs) =
  Types.Ok (Fixtures.sliding_of limit windowMs).
Proof.
  intros Hl Hw. unfold SlidingWindow.slidingWindow. cbn.
  apply leb_false in Hl. apply leb_false in Hw. rewrite Hl, Hw. reflexivity.
Qed.

Lemma tokenBucket_returns (capacity refillRatePerSec : Q) :
  0 < capacity -> 0 < refillRatePerSec ->
  TokenBucket.tokenBucket (TokenBucket.mkConfig capacity refillRatePerSec) =
  Types.Ok (Fixtures.bucket_of capacity refillRatePerSec).
Proof.
  intros Hc Hr. unfold TokenBucket.tokenBucket. cbn.
  apply leb_false in Hc. apply leb_false in Hr. rewrite Hc, Hr. reflexivity.
Qed.

(** [tokenBucket({capacity: 0, refillRatePerSec: 1})] throws. *)
Example tokenBucket_rejects_zero_capacity :
  TokenBucket.tokenBucket (TokenBucket.mkConfig 0 1) =
  Types.Throw "capacity must be > 0".
Proof. reflexivity. Qed.

Example slidingWindow_rejects_zero_window :
  SlidingWindow.slidingWindow (SlidingWindow.mkConfig 5 0) =
  Types.Throw "windowMs must be > 0".
Proof. reflexivity. Qed.

(** ** Token bucket *)

Section TokenBucketFacts.
Import TokenBucket.
Variable config : Config.
Variable alg : Types.Algorithm State.
Hypothesis constructed : tokenBucket config = Types.Ok alg.

Lemma tokenBucket_config :
  0 < capacity config /\ 0 < refillRatePerSec config /\
  Types.compute alg = compute config.
Proof using constructed.
  unfold tokenBucket in constructed.
  destruct (JsMath.leb (capacity config) 0) eqn:Hc; [discriminate |].
  destruct (JsMath.leb (refillRatePerSec config) 0) eqn:Hr; [discriminate |].
  apply leb_false in Hc. apply leb_false in Hr.
  injection constructed as <-. auto.
Qed.

Lemma refillPerMs_pos : 0 < refillPerMs config.
Proof using constructed.
  destruct tokenBucket_config as (_ & Hr & _).
  unfold refillPerMs. apply Qlt_shift_div_l; lra.
Qed.

Local Abbreviation refilled := (refilled config).
Local Abbreviation bucket_ok := (bucket_ok config).
Local Abbreviation prior_ok := (prior_ok config).

Lemma compute_unfold state cost now :
  Types.compute alg state cost now =
  let '(s, allowed, retryAfter) := admission config (refilled state now) cost in
  Types.mkComputed s
    (Types.mkPartial allowed (capacity config)
       (JsMath.max 0 (JsMath.floor (tokens s)))
       (JsMath.ceil ((now + 1000) / 1000)) retryAfter)
    (JsMath.max 1000
       (JsMath.ceil (capacity config / refillPerMs config + 1000))).
Proof using constructed.
  destruct tokenBucket_config as (_ & _ & ->). reflexivity.
Qed.

(** No refill when the clock has not moved past [last]. *)
Lemma refill_skipped s now : now <= last s -> refill config s now = s.
Proof.
  intros Hle. unfold refill. apply gtb_false in Hle. rewrite Hle. reflexivity.
Qed.


(** Refill never takes the bucket above a bound that holds both for the
    capacity and for the tokens already there. *)
Lemma refill_le_capacity s now :
  tokens s <= capacity config -> tokens (refill config s now) <= capacity config.
Proof.
  intros Hle. unfold refill. destruct (JsMath.gtb now (last s)); cbn.
  - apply min_le_l.
  - exact Hle.
Qed.

Lemma refill_nonneg s now :
  0 <= tokens s -> 0 <= tokens (refill config s now).
Proof using constructed.
  intros Hge. unfold refill. destruct (JsMath.gtb now (last s)) eqn:Hgt; cbn.
  - apply gtb_true in Hgt. pose proof refillPerMs_pos as Hr.
    destruct tokenBucket_config as (Hc & _).
    apply min_glb; [lra |].
    assert (0 <= (now - last s) * refillPerMs config)
      by (apply Qmult_le_0_compat; lra).
    lra.
  - exact Hge.
Qed.

Lemma admission_granted s cost :
  cost <= tokens s ->
  admission config s cost = (mkState (tokens s - cost) (last s), true, None).
Proof.
  intros Hle. unfold admission. apply geb_true in Hle. rewrite Hle. reflexivity.
Qed.

Lemma admission_denied s cost :
  tokens s < cost ->
  admission config s cost =
  (s, false, Some (JsMath.ceil ((cost - tokens s) / refillPerMs config))).
Proof using constructed.
  intros Hlt. unfold admission. apply geb_false in Hlt. rewrite Hlt.
  pose proof refillPerMs_pos as Hr. apply gtb_true in Hr. rewrite Hr.
  reflexivity.
Qed.

Lemma refilled_ok state now : prior_ok state -> bucket_ok (refilled state now).
Proof using constructed.
  intros Hok. unfold refilled. destruct tokenBucket_config as (Hc & _).
  assert (bucket_ok (initial config state now)) as [H0 H1].
  { destruct state as [s |]; cbn; [exact Hok | split; cbn; lra]. }
  split; [apply refill_nonneg | apply refill_le_capacity]; assumption.
Qed.

Lemma compute_preserves_bucket state cost now :
  prior_ok state -> 0 <= cost ->
  bucket_ok (Types.state (Types.compute alg state cost now)).
Proof using constructed.
  intros Hok Hcost. rewrite compute_unfold.
  destruct (refilled_ok state now Hok) as [H0 H1].
  destruct (Qlt_le_dec (tokens (refilled state now)) cost) as [Hlt | Hle].
  - rewrite (admission_denied _ _ Hlt). cbn. split; assumption.
  - rewrite (admission_granted _ _ Hle). cbn. split; cbn; lra.
Qed.
End TokenBucketFacts.

(** ** Sliding window *)

Section SlidingWindowFacts.
Import SlidingWindow.
Variable config : Config.

Local Abbreviation cur := (curWindowStart config).
Local Abbreviation prev := (prevWindowStart config).
Local Abbreviation rolled := (rolled config).

Lemma compute_state state cost now :
  Types.state (compute config state cost now) =
  charge (rolled state now) cost.
Proof. reflexivity. Qed.

Lemma compute_allowed state cost now :
  Types.p_allowed (Types.result (compute config state cost now)) =
  JsMath.leb (effective config (charge (rolled state now) cost) now)
             (limit config).
Proof. reflexivity. Qed.

Lemma compute_remaining state cost now :
  Types.p_remaining (Types.result (compute config state cost now)) =
  JsMath.max 0
    (JsMath.floor
       (limit config - effective config (charge (rolled state now) cost) now)).
Proof. reflexivity. Qed.

(** The stored window is the current one: nothing moves. *)
Lemma rollover_same_window s now :
  windowStart s == cur now -> rollover config s now = s.
Proof.
  intros Heq. unfold rollover. apply neqb_false in Heq. rewrite Heq.
  reflexivity.
Qed.

(** The stored window is the one just before: its count is carried. *)
Lemma rollover_contiguous s now :
  ~ windowStart s == cur now -> windowStart s == prev now ->
  rollover config s now = mkState (cur now) 0 (windowStart s) (count s).
Proof.
  intros Hne Heq. unfold rollover.
  apply neqb_true in Hne. apply eqb_true in Heq. rewrite Hne, Heq.
  reflexivity.
Qed.

(** Any other stored window: both counters start from zero. *)
Lemma rollover_gap s now :
  ~ windowStart s == cur now -> ~ windowStart s == prev now ->
  rollover config s now = mkState (cur now) 0 (prev now) 0.
Proof.
  intros Hne Hnp. unfold rollover.
  apply neqb_true in Hne. apply eqb_false in Hnp. rewrite Hne, Hnp.
  reflexivity.
Qed.

Lemma rolled_absent now : rolled None now = mkState (cur now) 0 (prev now) 0.
Proof.
  unfold SlidingWindow.rolled. apply rollover_same_window. reflexivity.
Qed.

Lemma rollover_counts_ok s now :
  counts_ok s -> counts_ok (rollover config s now).
Proof.
  intros [Hc Hp]. unfold rollover.
  destruct (JsMath.neqb (windowStart s) (cur now)); [| split; assumption].
  destruct (JsMath.eqb (windowStart s) (prev now)); split; cbn; lra.
Qed.

Lemma compute_preserves_counts state cost now :
  prior_ok state -> 0 <= cost ->
  counts_ok (Types.state (compute config state cost now)).
Proof.
  intros Hok Hcost. rewrite compute_state.
  assert (counts_ok (rolled state now)) as [Hc Hp].
  { apply rollover_counts_ok. destruct state as [s |]; cbn.
    - exact Hok.
    - split; cbn; lra. }
  split; cbn; lra.
Qed.

(** A previous count of zero weighs nothing, whatever the weight. *)
Lemma effective_no_carry s now :
  prevCount s == 0 -> effective config s now == count s.
Proof.
  intros Hz. unfold effective.
  destruct (JsMath.eqb (prevStart s) (prev now)).
  - rewrite Hz. lra.
  - lra.
Qed.

(** A previous window that is not the adjacent one weighs nothing. *)
Lemma effective_not_adjacent s now :
  ~ prevStart s == prev now -> effective config s now == count s.
Proof.
  intros Hne. unfold effective. apply eqb_false in Hne. rewrite Hne. lra.
Qed.

Section ValidWindow.
Hypothesis window_pos : 0 < windowMs config.

Lemma cur_le now : cur now <= now.
Proof using window_pos.
  unfold curWindowStart.
  pose proof (floor_le (now / windowMs config)) as Hfl.
  assert (JsMath.floor (now / windowMs config) * windowMs config
          <= now / windowMs config * windowMs config) as Hm
    by (apply Qmult_le_compat_r; lra).
  assert (now / windowMs config * windowMs config == now) as Hd
    by (rewrite Qmult_comm; apply Qmult_div_r; lra).
  lra.
Qed.

Lemma cur_gt now : now < cur now + windowMs config.
Proof using window_pos.
  unfold curWindowStart.
  pose proof (floor_gt (now / windowMs config)) as Hfl.
  assert ((now / windowMs config - 1) * windowMs config
          < JsMath.floor (now / windowMs config) * windowMs config) as Hm
    by (apply Qmult_lt_compat_r; lra).
  assert (now / windowMs config * windowMs config == now) as Hd
    by (rewrite Qmult_comm; apply Qmult_div_r; lra).
  lra.
Qed.

(** A clock reading that falls before the stored window is taken for a
    gap: the state is started afresh. *)
Lemma rollover_backward s now :
  now < windowStart s ->
  rollover config s now = mkState (cur now) 0 (prev now) 0.
Proof using window_pos.
  intros Hlt. pose proof (cur_le now) as Hc.
  apply rollover_gap; unfold prevWindowStart; intros Heq; lra.
Qed.
End ValidWindow.

Lemma slidingWindow_config alg :
  slidingWindow config = Types.Ok alg ->
  0 < limit config /\ 0 < windowMs config /\
  Types.compute alg = compute config.
Proof.
  unfold slidingWindow. intros Hc.
  destruct (JsMath.leb (limit config) 0) eqn:Hl; [discriminate |].
  destruct (JsMath.leb (windowMs config) 0) eqn:Hw; [discriminate |].
  apply leb_false in Hl. apply leb_false in Hw.
  injection Hc as <-. auto.
Qed.
End SlidingWindowFacts.

(** ** Roundings *)

Section RoundingFacts.
Context (fl : Q -> Q) {rounding : Float.Rounding fl}.

Lemma rounding_zero x : x == 0 -> fl x == 0.
Proof.
  intros H. rewrite (Float.rounding_proper _ _ H).
  apply (Float.rounding_whole 0). vm_compute. discriminate.
Qed.

Lemma rounding_nonneg x : 0 <= x -> 0 <= fl x.
Proof.
  intros H. rewrite <- (rounding_zero 0) by reflexivity.
  apply Float.rounding_monotone. exact H.
Qed.

Lemma rounding_whole_eq x (z : Z) :
  x == inject_Z z -> (Z.abs z <= 2 ^ 53)%Z -> fl x == inject_Z z.
Proof.
  intros Hx Hz. rewrite (Float.rounding_proper _ _ Hx).
  apply Float.rounding_whole. exact Hz.
Qed.
End RoundingFacts.

(** ** The token bucket in rounded arithmetic *)

(** Without rounding the rounded algorithms are the exact ones. *)
Lemma tokenBucket_without_rounding (config : TokenBucket.Config)
    (state : option TokenBucket.State) (cost now : Q) :
  RoundedTokenBucket.compute (fun x => x) config state cost now =
  TokenBucket.compute config state cost now.
Proof. reflexivity. Qed.

Lemma slidingWindow_without_rounding (config : SlidingWindow.Config)
    (state : option SlidingWindow.State) (cost now : Q) :
  RoundedSlidingWindow.compute (fun x => x) config state cost now =
  SlidingWindow.compute config state cost now.
Proof. reflexivity. Qed.

Section RoundedTokenBucketFacts.
Import TokenBucket.
Context (fl : Q -> Q) {rounding : Float.Rounding fl}.
Variable config : Config.
Variable alg : Types.Algorithm State.
Hypothesis constructed : RoundedTokenBucket.tokenBucket fl config = Types.Ok alg.

Local Abbreviation refillPerMs := (RoundedTokenBucket.refillPerMs fl config).
Local Abbreviation refill := (RoundedTokenBucket.refill fl config).
Local Abbreviation refilled := (RoundedTokenBucket.refilled fl config).
Local Abbreviation admission := (RoundedTokenBucket.admission fl config).

Lemma rounded_tokenBucket_config :
  0 < capacity config /\ 0 < refillRatePerSec config /\
  alg = Types.mkAlgorithm Types.tokenBucket
          (RoundedTokenBucket.compute fl config).
Proof.
  revert constructed. unfold RoundedTokenBucket.tokenBucket.
  destruct (JsMath.leb (capacity config) 0) eqn:Hc; [discriminate |].
  destruct (JsMath.leb (refillRatePerSec config) 0) eqn:Hr; [discriminate |].
  intros [= <-]. apply leb_false in Hc, Hr. auto.
Qed.

Lemma rounded_refillPerMs_pos : 0 < refillPerMs.
Proof.
  destruct rounded_tokenBucket_config as (_ & Hr & _).
  unfold RoundedTokenBucket.refillPerMs, Float.div.
  apply Float.rounding_positive. apply Qlt_shift_div_l; lra.
Qed.

Lemma rounded_compute_unfold state cost now :
  Types.compute alg state cost now =
  let '(s, allowed, retryAfter) := admission (refilled state now) cost in
  Types.mkComputed s
    (Types.mkPartial allowed (capacity config)
       (JsMath.max 0 (JsMath.floor (tokens s)))
       (JsMath.ceil (fl (fl (now + 1000) / 1000)))
       retryAfter)
    (JsMath.max 1000
       (JsMath.ceil (fl (fl (capacity config / refillPerMs) + 1000)))).
Proof.
  destruct rounded_tokenBucket_config as (_ & _ & ->). reflexivity.
Qed.

Lemma rounded_refill_skipped s now : now <= last s -> refill s now = s.
Proof.
  intros H. unfold RoundedTokenBucket.refill.
  apply gtb_false in H. rewrite H. reflexivity.
Qed.

Lemma rounded_refill_forward s now :
  last s < now ->
  refill s now =
  mkState (JsMath.min (capacity config)
             (fl (tokens s + fl (fl (now - last s) * refillPerMs)))) now.
Proof.
  intros H. unfold RoundedTokenBucket.refill.
  apply gtb_true in H. rewrite H. reflexivity.
Qed.

Lemma rounded_refill_le_capacity s now :
  tokens s <= capacity config -> tokens (refill s now) <= capacity config.
Proof.
  intros H. destruct (Qlt_le_dec (last s) now) as [Hlt | Hle].
  - rewrite rounded_refill_forward by exact Hlt. cbn. apply min_le_l.
  - rewrite rounded_refill_skipped by exact Hle. exact H.
Qed.

Lemma rounded_refill_nonneg s now :
  0 <= tokens s -> 0 <= tokens (refill s now).
Proof.
  intros H. destruct rounded_tokenBucket_config as (Hc & _ & _).
  pose proof rounded_refillPerMs_pos as Hr.
  destruct (Qlt_le_dec (last s) now) as [Hlt | Hle].
  - rewrite rounded_refill_forward by exact Hlt. cbn.
    apply min_glb; [lra |]. apply rounding_nonneg; [assumption |].
    assert (0 <= fl (fl (now - last s) * refillPerMs)); [| lra].
    apply rounding_nonneg; [assumption |].
    assert (0 <= fl (now - last s)) as Hd
      by (apply rounding_nonneg; [assumption | lra]).
    set (d := fl (now - last s)) in *. set (r := refillPerMs) in *. nra.
  - rewrite rounded_refill_skipped by exact Hle. exact H.
Qed.

Lemma rounded_admission_granted s cost :
  cost <= tokens s ->
  admission s cost = (mkState (fl (tokens s - cost)) (last s), true, None).
Proof.
  intros H. unfold RoundedTokenBucket.admission.
  apply geb_true in H. rewrite H. reflexivity.
Qed.

Lemma rounded_admission_denied s cost :
  tokens s < cost ->
  admission s cost =
  (s, false, Some (JsMath.ceil (fl (fl (cost - tokens s) / refillPerMs)))).
Proof.
  intros H. unfold RoundedTokenBucket.admission.
  apply geb_false in H. rewrite H.
  pose proof rounded_refillPerMs_pos as Hr. apply gtb_true in Hr.
  rewrite Hr. reflexivity.
Qed.
End RoundedTokenBucketFacts.

(** ** The sliding window in rounded arithmetic *)

Section RoundedSlidingWindowFacts.
Import SlidingWindow.
Context (fl : Q -> Q) {rounding : Float.Rounding fl}.
Variable config : Config.

Local Abbreviation cur := (RoundedSlidingWindow.curWindowStart fl config).
Local Abbreviation prev := (RoundedSlidingWindow.prevWindowStart fl config).
Local Abbreviation rolled := (RoundedSlidingWindow.rolled fl config).
Local Abbreviation charge := (RoundedSlidingWindow.charge fl).

Lemma rounded_slidingWindow_config alg :
  RoundedSlidingWindow.slidingWindow fl config = Types.Ok alg ->
  0 < limit config /\ 0 < windowMs config /\
  alg = Types.mkAlgorithm Types.sliding
          (RoundedSlidingWindow.compute fl config).
Proof.
  unfold RoundedSlidingWindow.slidingWindow.
  destruct (JsMath.leb (limit config) 0) eqn:Hl; [discriminate |].
  destruct (JsMath.leb (windowMs config) 0) eqn:Hw; [discriminate |].
  intros [= <-]. apply leb_false in Hl, Hw. auto.
Qed.

Lemma rounded_compute_state state cost now :
  Types.state (RoundedSlidingWindow.compute fl config state cost now) =
  charge (rolled state now) cost.
Proof. reflexivity. Qed.

Lemma rounded_compute_allowed state cost now :
  Types.p_allowed
    (Types.result (RoundedSlidingWindow.compute fl config state cost now)) =
  JsMath.leb
    (RoundedSlidingWindow.effective fl config (charge (rolled state now) cost)
       now)
    (limit config).
Proof. reflexivity. Qed.

Lemma rounded_compute_remaining state cost now :
  Types.p_remaining
    (Types.result (RoundedSlidingWindow.compute fl config state cost now)) =
  JsMath.max 0
    (JsMath.floor
       (fl (limit config -
            RoundedSlidingWindow.effective fl config
              (charge (rolled state now) cost) now))).
Proof. reflexivity. Qed.

(** The state after rollover, by the window the stored state is of. *)
Lemma rounded_rolled_absent now : rolled None now = mkState (cur now) 0 (prev now) 0.
Proof.
  unfold RoundedSlidingWindow.rolled, RoundedSlidingWindow.rollover. cbn.
  unfold JsMath.neqb. rewrite Qeq_bool_refl. reflexivity.
Qed.

Lemma rounded_rolled_same s now :
  windowStart s == cur now -> rolled (Some s) now = s.
Proof.
  intros H. unfold RoundedSlidingWindow.rolled, RoundedSlidingWindow.rollover.
  cbn. apply neqb_false in H. rewrite H. reflexivity.
Qed.

Lemma rounded_rolled_contiguous s now :
  ~ windowStart s == cur now -> windowStart s == prev now ->
  rolled (Some s) now = mkState (cur now) 0 (windowStart s) (count s).
Proof.
  intros Hne Heq. unfold RoundedSlidingWindow.rolled, RoundedSlidingWindow.rollover.
  cbn. apply neqb_true in Hne. apply eqb_true in Heq. rewrite Hne, Heq.
  reflexivity.
Qed.

Lemma rounded_rolled_gap s now :
  ~ windowStart s == cur now -> ~ windowStart s == prev now ->
  rolled (Some s) now = mkState (cur now) 0 (prev now) 0.
Proof.
  intros Hne Hgap. unfold RoundedSlidingWindow.rolled, RoundedSlidingWindow.rollover.
  cbn. apply neqb_true in Hne. apply eqb_false in Hgap. rewrite Hne, Hgap.
  reflexivity.
Qed.

(** The count after the request, and the effective count on which it is
    judged, as functions of what was stored. *)
Lemma rounded_count_closed state cost now :
  count (charge (rolled state now) cost) =
  fl (WindowedDecay.counted fl config state now + cost).
Proof.
  destruct state as [s |].
  - unfold WindowedDecay.counted.
    change (WindowedDecay.window fl config now) with (cur now).
    destruct (Qeq_bool (windowStart s) (cur now)) eqn:Hw.
    + apply Qeq_bool_iff in Hw. rewrite rounded_rolled_same by exact Hw.
      reflexivity.
    + assert (~ windowStart s == cur now) as Hne.
      { intros H. apply Qeq_bool_iff in H. congruence. }
      destruct (Qeq_dec (windowStart s) (prev now)) as [Hc | Hg].
      * rewrite rounded_rolled_contiguous by assumption. reflexivity.
      * rewrite rounded_rolled_gap by assumption. reflexivity.
  - rewrite rounded_rolled_absent. reflexivity.
Qed.

Lemma rounded_effective_closed state cost now :
  RoundedSlidingWindow.effective fl config (charge (rolled state now) cost) now
  == WindowedDecay.effective fl config state cost now.
Proof.
  unfold WindowedDecay.effective. rewrite <- rounded_count_closed.
  unfold RoundedSlidingWindow.effective, Float.add, Float.mul.
  change (RoundedSlidingWindow.weight fl config now)
    with (WindowedDecay.weight fl config now).
  set (weight := WindowedDecay.weight fl config now).
  cbn [count prevStart prevCount RoundedSlidingWindow.charge].
  apply Float.rounding_proper.
  assert (forall n x, x == 0 -> n + 0 == n + fl (x * weight)) as Hzero.
  { intros n x Hx. rewrite (rounding_zero fl (x * weight)); [reflexivity |].
    rewrite Hx. ring. }
  destruct state as [s |].
  - unfold WindowedDecay.carried.
    change (WindowedDecay.window fl config now) with (cur now).
    change (WindowedDecay.before fl config now) with (prev now).
    destruct (Qeq_bool (windowStart s) (cur now)) eqn:Hw.
    + apply Qeq_bool_iff in Hw. rewrite rounded_rolled_same by exact Hw.
      unfold JsMath.eqb. destruct (Qeq_bool (prevStart s) (prev now)).
      * reflexivity.
      * apply Hzero. reflexivity.
    + assert (~ windowStart s == cur now) as Hne.
      { intros H. apply Qeq_bool_iff in H. congruence. }
      destruct (Qeq_bool (windowStart s) (prev now)) eqn:Hp.
      * apply Qeq_bool_iff in Hp.
        rewrite rounded_rolled_contiguous by assumption. cbn.
        apply eqb_true in Hp. rewrite Hp. reflexivity.
      * assert (~ windowStart s == prev now) as Hg.
        { intros H. apply Qeq_bool_iff in H. congruence. }
        rewrite rounded_rolled_gap by assumption. cbn.
        unfold JsMath.eqb. rewrite Qeq_bool_refl. reflexivity.
  - rewrite rounded_rolled_absent. cbn.
    unfold JsMath.eqb. rewrite Qeq_bool_refl. reflexivity.
Qed.

Lemma rounded_allowed_closed state cost now :
  Types.p_allowed
    (Types.result (RoundedSlidingWindow.compute fl config state cost now))
  = true <->
  WindowedDecay.effective fl config state cost now <= limit config.
Proof.
  rewrite rounded_compute_allowed, leb_true, rounded_effective_closed.
  reflexivity.
Qed.

Lemma rounded_ttlMs_pos state cost now :
  0 < Types.ttlMs (RoundedSlidingWindow.compute fl config state cost now).
Proof.
  cbn. eapply Qlt_le_trans; [| apply max_ge_l]. reflexivity.
Qed.

(** A request of whole cost at [t] on a state counting a whole number in
    the window of [t]: the counts add up without rounding. *)
Lemma rounded_compute_counting state t (k j : Z) :
  (0 <= k)%Z -> (0 <= j)%Z -> (k + j <= 2 ^ 53)%Z ->
  RoundedSlidingWindow.counting fl config t (inject_Z k) state ->
  let out := RoundedSlidingWindow.compute fl config state (inject_Z j) t in
  RoundedSlidingWindow.counting fl config t (inject_Z (k + j))
    (Some (Types.state out)) /\
  Types.p_allowed (Types.result out) =
    JsMath.leb (inject_Z (k + j)) (limit config).
Proof.
  intros Hk Hj Hkj Hcnt out. subst out.
  assert (windowStart (rolled state t) == cur t /\
          prevCount (rolled state t) == 0 /\
          count (rolled state t) == inject_Z k) as (Hw & Hp & Hc).
  { destruct state as [s |]; cbn in Hcnt.
    - destruct Hcnt as (Hw & Hp & Hc).
      rewrite rounded_rolled_same by exact Hw. auto.
    - rewrite rounded_rolled_absent. cbn. repeat split; try reflexivity.
      symmetry. exact Hcnt. }
  assert (fl (count (rolled state t) + inject_Z j) == inject_Z (k + j)) as Hn.
  { apply rounding_whole_eq; [assumption | | lia].
    rewrite Hc, inject_Z_plus. reflexivity. }
  rewrite rounded_compute_allowed, rounded_compute_state. split.
  - cbn. repeat split; assumption.
  - apply Qleb_comp; [| reflexivity].
    unfold RoundedSlidingWindow.effective, Float.add, Float.mul.
    cbn [count prevStart prevCount RoundedSlidingWindow.charge].
    apply rounding_whole_eq; [assumption | | lia].
    unfold Float.add. rewrite Hn.
    destruct (JsMath.eqb _ _).
    + rewrite (rounding_zero fl (prevCount _ * _)); [ring |].
      rewrite Hp. ring.
    + ring.
Qed.
End RoundedSlidingWindowFacts.

(** ** Claims on the two algorithms *)

(** C3: every [compute] call with a cost that is not negative preserves
    the state invariant.  A bucket that held between [0] and [capacity]
    tokens (or did not exist) holds between [0] and [capacity] tokens
    afterwards, whatever the time elapsed; a window state whose [count]
    and [prevCount] were not negative (or that did not exist) has [count]
    and [prevCount] not negative afterwards. *)
Theorem compute_preserves_invariant
    (tb : TokenBucket.Config) (alg_tb : Types.Algorithm TokenBucket.State)
    (sw : SlidingWindow.Config) (alg_sw : Types.Algorithm SlidingWindow.State)
    (bucket : option TokenBucket.State) (window : option SlidingWindow.State)
    (cost now : Q) :
  0 <= cost ->
  (TokenBucket.tokenBucket tb = Types.Ok alg_tb ->
   TokenBucket.prior_ok tb bucket ->
   TokenBucket.bucket_ok tb
     (Types.state (Types.compute alg_tb bucket cost now))) /\
  (SlidingWindow.slidingWindow sw = Types.Ok alg_sw ->
   SlidingWindow.prior_ok window ->
   SlidingWindow.counts_ok
     (Types.state (Types.compute alg_sw window cost now))).
Proof.
  intros Hcost. split.
  - intros Htb Hb. apply (compute_preserves_bucket tb alg_tb Htb); assumption.
  - intros Hsw Hw. destruct (slidingWindow_config sw alg_sw Hsw) as (_ & _ & ->).
    apply compute_preserves_counts; assumption.
Qed.

Lemma compute_preserves_invariant_witness :
  TokenBucket.bucket_ok (TokenBucket.mkConfig 10 1)
    (Types.state
       (Types.compute (Fixtures.bucket_of 10 1)
          (Some (TokenBucket.mkState 4 0)) 3 100000)) /\
  SlidingWindow.counts_ok
    (Types.state
       (Types.compute (Fixtures.sliding_of 3 1000)
          (Some (SlidingWindow.mkState 0 2 (-1000) 1)) 3 100000)).
Proof.
  destruct (compute_preserves_invariant
              (TokenBucket.mkConfig 10 1) (Fixtures.bucket_of 10 1)
              (SlidingWindow.mkConfig 3 1000) (Fixtures.sliding_of 3 1000)
              (Some (TokenBucket.mkState 4 0))
              (Some (SlidingWindow.mkState 0 2 (-1000) 1)) 3 100000)
    as [Hbucket Hwindow].
  - lra.
  - split.
    + apply Hbucket; [reflexivity | split; cbn; lra].
    + apply Hwindow; [reflexivity | split; cbn; lra].
Defined.

(** C5: token bucket admission, in the arithmetic of the code.  On the
    state left by the refill step, a cost that the tokens cover is
    subtracted and the request is allowed; otherwise the request is
    denied, the state is left as it is, and [retryAfter] is
    [ceil((cost - tokens) / refillPerMs)], where the difference, the
    quotient and [refillPerMs = refillRatePerSec / 1000] are each rounded.
    On doubles, with capacity [1] and [2] tokens per second, a request of
    cost [2] on a key without state is denied with [retryAfter = 500]. *)
Theorem tokenBucket_admission
    (fl : Q -> Q) {rounding : Float.Rounding fl}
    (config : TokenBucket.Config) (alg : Types.Algorithm TokenBucket.State)
    (state : option TokenBucket.State) (cost now : Q) :
  RoundedTokenBucket.tokenBucket fl config = Types.Ok alg ->
  let s := RoundedTokenBucket.refilled fl config state now in
  let out := Types.compute alg state cost now in
  (cost <= TokenBucket.tokens s ->
     Types.p_allowed (Types.result out) = true /\
     Types.p_retryAfter (Types.result out) = None /\
     Types.state out =
       TokenBucket.mkState (fl (TokenBucket.tokens s - cost))
         (TokenBucket.last s)) /\
  (TokenBucket.tokens s < cost ->
     Types.p_allowed (Types.result out) = false /\
     Types.state out = s /\
     Types.p_retryAfter (Types.result out) =
       Some (JsMath.ceil
               (fl (fl (cost - TokenBucket.tokens s)
                    / fl (TokenBucket.refillRatePerSec config / 1000))))) /\
  (forall t : Q,
     let fresh :=
       Types.compute (Fixtures.rounded_bucket_of Float.round 1 2) None 2 t in
     Types.p_allowed (Types.result fresh) = false /\
     Types.p_retryAfter (Types.result fresh) = Some 500).
Proof.
  intros Hc s out. subst s out. rewrite (rounded_compute_unfold fl config alg Hc).
  split; [| split].
  - intros Hle. rewrite (rounded_admission_granted fl config _ _ Hle). cbn. auto.
  - intros Hlt. rewrite (rounded_admission_denied fl config alg Hc _ _ Hlt).
    cbn. auto.
  - intros t. cbn.
    assert (RoundedTokenBucket.refilled Float.round (TokenBucket.mkConfig 1 2)
              None t = TokenBucket.mkState 1 t) as Hr
      by (apply rounded_refill_skipped; cbn; lra).
    unfold RoundedTokenBucket.compute.
    change (RoundedTokenBucket.refill _ _ (TokenBucket.initial _ None t) t)
      with (RoundedTokenBucket.refilled Float.round (TokenBucket.mkConfig 1 2)
              None t).
    rewrite Hr. split; vm_compute; reflexivity.
Qed.

Lemma tokenBucket_admission_witness :
  Types.p_allowed
    (Types.result
       (Types.compute (Fixtures.rounded_bucket_of Float.round 10 1) None 3 0))
  = true /\
  Types.p_retryAfter
    (Types.result
       (Types.compute (Fixtures.rounded_bucket_of Float.round 1 1)
          (Some (TokenBucket.mkState 0 0)) 1 289)) = Some 712 /\
  Types.p_allowed
    (Types.result
       (Types.compute (Fixtures.rounded_bucket_of Float.round 27 9)
          (Some (TokenBucket.mkState 0 0)) 27 3000)) = false.
Proof.
  split; [| split].
  - apply (tokenBucket_admission Float.round (TokenBucket.mkConfig 10 1)
             (Fixtures.rounded_bucket_of Float.round 10 1) None 3 0 eq_refl).
    vm_compute. discriminate.
  - etransitivity.
    + refine (proj2 (proj2 (proj1 (proj2
        (tokenBucket_admission Float.round (TokenBucket.mkConfig 1 1)
           (Fixtures.rounded_bucket_of Float.round 1 1)
           (Some (TokenBucket.mkState 0 0)) 1 289 eq_refl)) _))).
      vm_compute. reflexivity.
    + vm_compute. reflexivity.
  - refine (proj1 (proj1 (proj2
      (tokenBucket_admission Float.round (TokenBucket.mkConfig 27 9)
         (Fixtures.rounded_bucket_of Float.round 27 9)
         (Some (TokenBucket.mkState 0 0)) 27 3000 eq_refl)) _)).
    vm_compute. reflexivity.
Defined.

(** C10: a cost above the capacity is never admitted by the token bucket.
    For every prior state holding at most [capacity] tokens (or absent) and
    every time, the request is denied, and the [retryAfter] returned is
    the positive number [ceil((cost - tokens) / refillPerMs)] computed, in
    the arithmetic of the code, from the tokens of the returned state. *)
Theorem tokenBucket_cost_above_capacity
    (fl : Q -> Q) {rounding : Float.Rounding fl}
    (config : TokenBucket.Config) (alg : Types.Algorithm TokenBucket.State)
    (state : option TokenBucket.State) (cost now : Q) :
  RoundedTokenBucket.tokenBucket fl config = Types.Ok alg ->
  TokenBucket.within_capacity config state ->
  TokenBucket.capacity config < cost ->
  let out := Types.compute alg state cost now in
  let wait :=
    JsMath.ceil
      (fl (fl (cost - TokenBucket.tokens (Types.state out))
           / fl (TokenBucket.refillRatePerSec config / 1000))) in
  Types.p_allowed (Types.result out) = false /\
  Types.p_retryAfter (Types.result out) = Some wait /\
  0 < wait.
Proof.
  intros Hc Hcap Hcost out wait. subst wait out.
  rewrite (rounded_compute_unfold fl config alg Hc).
  destruct (rounded_tokenBucket_config fl config alg Hc) as (Hpos & _ & _).
  assert (TokenBucket.tokens (RoundedTokenBucket.refilled fl config state now)
          <= TokenBucket.capacity config) as Hle.
  { apply rounded_refill_le_capacity.
    destruct state as [s |]; cbn; [exact Hcap | lra]. }
  assert (TokenBucket.tokens (RoundedTokenBucket.refilled fl config state now)
          < cost) as Hlt by lra.
  rewrite (rounded_admission_denied fl config alg Hc _ _ Hlt). cbn.
  split; [reflexivity | split; [reflexivity |]].
  pose proof (rounded_refillPerMs_pos fl config alg Hc) as Hr.
  eapply Qlt_le_trans; [| apply ceil_ge].
  apply Float.rounding_positive. apply Qlt_shift_div_l; [exact Hr |].
  assert (0 < fl (cost - TokenBucket.tokens
                           (RoundedTokenBucket.refilled fl config state now)))
    by (apply Float.rounding_positive; lra).
  lra.
Qed.

Lemma tokenBucket_cost_above_capacity_witness :
  let out :=
    Types.compute (Fixtures.rounded_bucket_of Float.round 1 1)
      (Some (TokenBucket.mkState 0 0)) 2 707 in
  Types.p_allowed (Types.result out) = false /\
  Types.p_retryAfter (Types.result out) = Some 1294.
Proof.
  destruct (tokenBucket_cost_above_capacity Float.round
              (TokenBucket.mkConfig 1 1)
              (Fixtures.rounded_bucket_of Float.round 1 1)
              (Some (TokenBucket.mkState 0 0)) 2 707 eq_refl)
    as (Hdenied & Hretry & _).
  - cbn. lra.
  - cbn. lra.
  - split; [exact Hdenied |]. cbn zeta. rewrite Hretry.
    vm_compute. reflexivity.
Defined.

(** ** Clock readings that are not ahead of the state *)

(** The token bucket half of C2: when [now <= last] nothing is refilled,
    [last] stays, and the tokens can only go down by the cost. *)
Lemma tokenBucket_clock_not_ahead
    (config : TokenBucket.Config) (alg : Types.Algorithm TokenBucket.State)
    (s : TokenBucket.State) (cost now : Q) :
  TokenBucket.tokenBucket config = Types.Ok alg ->
  now <= TokenBucket.last s -> 0 <= cost ->
  let out := Types.compute alg (Some s) cost now in
  TokenBucket.refilled config (Some s) now = s /\
  TokenBucket.last (Types.state out) = TokenBucket.last s /\
  TokenBucket.tokens (Types.state out) <= TokenBucket.tokens s.
Proof.
  intros Hc Hnow Hcost out. subst out.
  assert (TokenBucket.refilled config (Some s) now = s) as Hr
    by (apply refill_skipped; exact Hnow).
  rewrite (compute_unfold config alg Hc), Hr.
  split; [reflexivity |].
  destruct (Qlt_le_dec (TokenBucket.tokens s) cost) as [Hlt | Hle].
  - rewrite (admission_denied config alg Hc _ _ Hlt). cbn. split; [reflexivity | lra].
  - rewrite (admission_granted config _ _ Hle). cbn. split; [reflexivity | lra].
Qed.

(** The sliding window within its stored window: no rollover, whatever
    the order of the clock readings inside the window. *)
Lemma slidingWindow_same_window
    (config : SlidingWindow.Config) (s : SlidingWindow.State) (cost now : Q) :
  SlidingWindow.windowStart s == SlidingWindow.curWindowStart config now ->
  Types.state (SlidingWindow.compute config (Some s) cost now) =
  SlidingWindow.charge s cost.
Proof.
  intros Heq. rewrite compute_state. unfold SlidingWindow.rolled. cbn.
  rewrite rollover_same_window by exact Heq. reflexivity.
Qed.

(** The sliding window before its stored window: whatever had been
    counted is dropped, and the request is judged on its cost alone. *)
Lemma slidingWindow_clock_behind_window
    (config : SlidingWindow.Config) (alg : Types.Algorithm SlidingWindow.State)
    (s : SlidingWindow.State) (cost now : Q) :
  SlidingWindow.slidingWindow config = Types.Ok alg ->
  now < SlidingWindow.windowStart s ->
  let out := Types.compute alg (Some s) cost now in
  SlidingWindow.count (Types.state out) == cost /\
  SlidingWindow.prevCount (Types.state out) == 0 /\
  Types.p_allowed (Types.result out) = JsMath.leb cost (SlidingWindow.limit config).
Proof.
  intros Hc Hlt out. subst out.
  destruct (slidingWindow_config config alg Hc) as (_ & Hw & ->).
  rewrite compute_allowed, compute_state. unfold SlidingWindow.rolled. cbn [SlidingWindow.initial].
  rewrite (rollover_backward config Hw s now Hlt). cbn.
  split; [lra | split; [lra |]].
  apply Qleb_comp; [| reflexivity].
  rewrite effective_no_carry by (cbn; lra). cbn. lra.
Qed.

(** C2 (fails on the code): on a window state that three requests at
    [now = 5000] have filled to its limit of [3], a fourth request is
    denied at [now = 5000], but the same request with the clock one
    millisecond back, at [now = 4999], is allowed with [remaining = 2]:
    the stored count is dropped and capacity is granted again. *)
Theorem slidingWindow_backward_clock_regrants :
  let alg := Fixtures.sliding_of 3 1000 in
  let full := Fixtures.replay alg 3 1 5000 None in
  full = Some (SlidingWindow.mkState 5000 3 4000 0) /\
  Types.p_allowed (Types.result (Types.compute alg full 1 5000)) = false /\
  Types.p_allowed (Types.result (Types.compute alg full 1 4999)) = true /\
  Types.p_remaining (Types.result (Types.compute alg full 1 4999)) = 2 /\
  Types.state (Types.compute alg full 1 4999) =
    SlidingWindow.mkState 4000 1 3000 0.
Proof. vm_compute. repeat split. Qed.

(** ** Requests of cost zero *)

(** C4 (as amended): a request of cost zero is allowed by the token bucket
    on every prior state that is absent or holds tokens that are not
    negative.  By the sliding window it is allowed on an absent state; on
    a stored state it is allowed exactly when the effective count, the
    count of the current window plus the weighted count of the window
    before as the code computes them, is within the limit. *)
Theorem zero_cost_admission
    (fl : Q -> Q) {rounding : Float.Rounding fl}
    (tb : TokenBucket.Config) (alg_tb : Types.Algorithm TokenBucket.State)
    (sw : SlidingWindow.Config) (alg_sw : Types.Algorithm SlidingWindow.State)
    (bucket : option TokenBucket.State) (window : option SlidingWindow.State)
    (now : Q) :
  (RoundedTokenBucket.tokenBucket fl tb = Types.Ok alg_tb ->
   TokenBucket.not_overdrawn bucket ->
   Types.p_allowed (Types.result (Types.compute alg_tb bucket 0 now)) = true) /\
  (RoundedSlidingWindow.slidingWindow fl sw = Types.Ok alg_sw ->
   Types.p_allowed (Types.result (Types.compute alg_sw None 0 now)) = true /\
   (Types.p_allowed (Types.result (Types.compute alg_sw window 0 now)) = true
    <->
    let windowMs := SlidingWindow.windowMs sw in
    let curWindowStart := fl (inject_Z (Qfloor (fl (now / windowMs))) * windowMs) in
    let weight := fl (fl (windowMs - fl (now - curWindowStart)) / windowMs) in
    fl (fl (WindowedDecay.counted fl sw window now + 0)
        + fl (WindowedDecay.carried fl sw window now * weight))
    <= SlidingWindow.limit sw)).
Proof.
  split.
  - intros Htb Hb. rewrite (rounded_compute_unfold fl tb alg_tb Htb).
    assert (0 <= TokenBucket.tokens
                   (RoundedTokenBucket.refilled fl tb bucket now)) as Hge.
    { apply (rounded_refill_nonneg fl tb alg_tb Htb).
      destruct (rounded_tokenBucket_config fl tb alg_tb Htb) as (Hc & _).
      destruct bucket as [s |]; cbn; [exact Hb | lra]. }
    rewrite (rounded_admission_granted fl tb _ _ Hge). reflexivity.
  - intros Hsw.
    destruct (rounded_slidingWindow_config fl sw alg_sw Hsw) as (Hl & Hw & ->).
    split.
    + apply (rounded_allowed_closed fl sw).
      unfold WindowedDecay.effective. cbn [WindowedDecay.counted WindowedDecay.carried].
      rewrite (rounding_zero fl); [lra |].
      rewrite (rounding_zero fl (0 + 0)) by reflexivity.
      rewrite (rounding_zero fl (0 * _)) by ring. reflexivity.
    + apply (rounded_allowed_closed fl sw).
Qed.

Lemma zero_cost_admission_witness :
  Types.p_allowed
    (Types.result
       (Types.compute (Fixtures.rounded_bucket_of Float.round 10 1)
          (Some (TokenBucket.mkState 0 0)) 0 0)) = true /\
  Types.p_allowed
    (Types.result
       (Types.compute (Fixtures.rounded_sliding_of Float.round 3 1000)
          None 0 0)) = true /\
  Types.p_allowed
    (Types.result
       (Types.compute (Fixtures.rounded_sliding_of Float.round 14 1000)
          (Some (SlidingWindow.mkState 0 25 (-1000) 0)) 0 1440)) = false.
Proof.
  destruct (zero_cost_admission Float.round
              (TokenBucket.mkConfig 10 1)
              (Fixtures.rounded_bucket_of Float.round 10 1)
              (SlidingWindow.mkConfig 14 1000)
              (Fixtures.rounded_sliding_of Float.round 14 1000)
              (Some (TokenBucket.mkState 0 0))
              (Some (SlidingWindow.mkState 0 25 (-1000) 0)) 1440)
    as (_ & Hs).
  destruct (zero_cost_admission Float.round
              (TokenBucket.mkConfig 10 1)
              (Fixtures.rounded_bucket_of Float.round 10 1)
              (SlidingWindow.mkConfig 3 1000)
              (Fixtures.rounded_sliding_of Float.round 3 1000)
              (Some (TokenBucket.mkState 0 0)) None 0)
    as (Hb & Hfresh).
  split; [| split].
  - apply Hb; [reflexivity | cbn; lra].
  - exact (proj1 (Hfresh eq_refl)).
  - destruct (Hs eq_refl) as [_ [Hif _]].
    clear Hs Hb Hfresh.
    match goal with |- ?a = false => destruct a eqn:Hallowed end;
      [| reflexivity].
    exfalso. pose proof (Hif eq_refl) as Hle. vm_compute in Hle.
    apply Hle. reflexivity.
Defined.

(** C4 (as stated) fails: after four requests of cost [1] at the same
    instant against a limit of [3], the window counts [4], and a request
    of cost zero at that instant is denied. *)
Lemma zero_cost_denied_on_overfull_window :
  let alg := Fixtures.sliding_of 3 1000 in
  let over := Fixtures.replay alg 4 1 0 None in
  over = Some (SlidingWindow.mkState 0 4 (-1000) 0) /\
  Types.p_allowed (Types.result (Types.compute alg over 0 0)) = false.
Proof. vm_compute. split; reflexivity. Qed.

(** ** The memory store *)

Section MemoryStoreFacts.
Import Runtime MemoryStore.
Context {S : Type}.
Implicit Types (w : World (gmap string (Entry S))) (map : gmap string (Entry S)).

Lemma cleanup_lookup now map key :
  cleanup now map !! key =
  match map !! key with
  | Some v => if JsMath.leb (expiresAt v) now then None else Some v
  | None => None
  end.
Proof.
  unfold cleanup. rewrite map_lookup_filter.
  destruct (map !! key) as [v |]; cbn; [| reflexivity].
  destruct (JsMath.leb (expiresAt v) now) eqn:Hexp; case_guard; cbn;
    congruence.
Qed.

(** [load] always resolves: to what is stored and has not expired. *)
Lemma load_resolves key w :
  load key w =
  Resolved (stored w key, mkWorld (clock w) (cleanup (clock w) (heap w))).
Proof.
  unfold load, stored, bind, Date_now, get_heap, put_heap, ret. cbn.
  rewrite cleanup_lookup.
  destruct (heap w !! key) as [v |]; [| reflexivity].
  destruct (JsMath.leb (expiresAt v) (clock w)) eqn:Hexp; [reflexivity |].
  rewrite Hexp. reflexivity.
Qed.

(** [save] always resolves, whatever the lifetime. *)
Lemma save_resolves key (s : S) ttl w :
  save key s ttl w =
  Resolved (tt, mkWorld (clock w)
                  (<[key := mkEntry s (clock w + ttl)]>
                     (cleanup (clock w) (heap w)))).
Proof. reflexivity. Qed.

Lemma stored_entry w key (e : Entry S) :
  heap w !! key = Some e ->
  stored w key =
  if JsMath.leb (expiresAt e) (clock w) then None else Some (state e).
Proof. intros He. unfold stored. rewrite He. reflexivity. Qed.
End MemoryStoreFacts.

(** C8: the memory store gives back what was saved until its lifetime has
    run out.  [save] at time [clock w] always resolves; a later [load] of
    the key at time [t] resolves to the saved state while
    [t < clock w + ttl], and to nothing once [clock w + ttl <= t]; with
    [ttl <= 0] every load at or after the time of the save finds nothing. *)
Theorem memoryStore_round_trip {S : Type}
    (w : Runtime.World (gmap string (MemoryStore.Entry S)))
    (k : string) (s : S) (ttl t : Q) :
  exists w1,
    Runtime.save MemoryStore.memoryStore k s ttl w = Runtime.Resolved (tt, w1) /\
    let found :=
      Fixtures.decision
        (Runtime.load MemoryStore.memoryStore k (Runtime.setSystemTime t w1)) in
    (t < Runtime.clock w + ttl -> found = Some (Some s)) /\
    (Runtime.clock w + ttl <= t -> found = Some None) /\
    (ttl <= 0 -> Runtime.clock w <= t -> found = Some None).
Proof.
  eexists. split; [apply save_resolves |].
  cbn [Runtime.load MemoryStore.memoryStore]. rewrite load_resolves.
  cbn [Fixtures.decision].
  rewrite (stored_entry _ k (MemoryStore.mkEntry s (Runtime.clock w + ttl)))
    by (cbn; apply lookup_insert_eq).
  cbn [MemoryStore.expiresAt MemoryStore.state Runtime.clock
       Runtime.setSystemTime].
  split; [| split].
  - intros Hlt. apply leb_false in Hlt. rewrite Hlt. reflexivity.
  - intros Hle. apply leb_true in Hle. rewrite Hle. reflexivity.
  - intros Httl Hclock.
    assert (Runtime.clock w + ttl <= t) as Hle by lra.
    apply leb_true in Hle. rewrite Hle. reflexivity.
Qed.

Lemma memoryStore_round_trip_witness :
  exists w1,
    Runtime.save MemoryStore.memoryStore "k"%string 7%nat 1000
      (MemoryStore.fresh 50) = Runtime.Resolved (tt, w1) /\
    Fixtures.decision
      (Runtime.load MemoryStore.memoryStore "k"%string
         (Runtime.setSystemTime 1049 w1)) = Some (Some 7%nat) /\
    Fixtures.decision
      (Runtime.load MemoryStore.memoryStore "k"%string
         (Runtime.setSystemTime 1050 w1)) = Some None.
Proof.
  destruct (memoryStore_round_trip (MemoryStore.fresh 50) "k"%string 7%nat
              1000 1049) as (w1 & Hsave & Hbefore & _ & _).
  destruct (memoryStore_round_trip (MemoryStore.fresh 50) "k"%string 7%nat
              1000 1050) as (w2 & Hsave' & _ & Hafter & _).
  exists w1. split; [exact Hsave |]. split.
  - apply Hbefore. cbn. lra.
  - assert (w1 = w2) as -> by congruence. apply Hafter. cbn. lra.
Defined.

(** ** The orchestrator on the memory store *)

Section LimitOnMemoryStore.
Import Runtime.
Context {S : Type}.
Variable alg : Types.Algorithm S.
Variable costs : option (unit -> JsNumber.number).

Local Abbreviation this := (Fixtures.limiter alg costs).
Local Abbreviation key := ("default:test"%string).

(** One call: the algorithm runs on what the store holds for the key, and
    its state is saved under the key with the lifetime it asked for. *)
Lemma limit_resolves (c : Q) w :
  Ratelimit.cost this tt = JsNumber.Fin c ->
  let out := Types.compute alg (MemoryStore.stored w key) c (clock w) in
  exists w',
    Ratelimit.limit this tt w =
      Resolved (Types.with_now (Types.result out) (clock w), w') /\
    clock w' = clock w /\
    heap w' !! key =
      Some (MemoryStore.mkEntry (Types.state out) (clock w + Types.ttlMs out)).
Proof.
  intros Hcost out. subst out. eexists. split; [| split].
  - unfold Ratelimit.limit. unfold bind at 1. cbn [Date_now].
    unfold bind at 1. rewrite Hcost. cbn [Ratelimit.finite ret].
    unfold bind at 1.
    change (load (Ratelimit.store this)) with (@MemoryStore.load S).
    change (Ratelimit.fullKey this tt) with key.
    rewrite load_resolves.
    unfold bind at 1.
    change (save (Ratelimit.store this)) with (@MemoryStore.save S).
    rewrite save_resolves. cbn [ret clock heap].
    change (Ratelimit.algorithm this) with alg. reflexivity.
  - reflexivity.
  - cbn [heap]. apply lookup_insert_eq.
Qed.

(** With a positive lifetime, the next call at the same instant finds
    the state just saved. *)
Lemma stored_after_limit w' (s : S) (t ttl : Q) :
  clock w' = t ->
  heap w' !! key = Some (MemoryStore.mkEntry s (t + ttl)) ->
  0 < ttl ->
  MemoryStore.stored w' key = Some s.
Proof.
  intros Hclock Hheap Httl. rewrite (stored_entry _ _ _ Hheap). cbn.
  rewrite Hclock.
  assert (t < t + ttl) as Hlt by lra. apply leb_false in Hlt.
  rewrite Hlt. reflexivity.
Qed.

(** Once the lifetime has run out, the next call finds nothing. *)
Lemma stored_expired w' (s : S) (t ttl t' : Q) :
  heap w' !! key = Some (MemoryStore.mkEntry s (t + ttl)) ->
  t + ttl <= t' ->
  MemoryStore.stored (setSystemTime t' w') key = None.
Proof.
  intros Hheap Hle. rewrite (stored_entry _ _ (MemoryStore.mkEntry s (t + ttl)))
    by exact Hheap.
  cbn. apply leb_true in Hle. rewrite Hle. reflexivity.
Qed.
End LimitOnMemoryStore.

(** ** Requests at one instant *)

Section SlidingWindowBurst.
Import SlidingWindow.
Variable config : Config.

Lemma ttlMs_pos state cost now :
  0 < Types.ttlMs (compute config state cost now).
Proof.
  cbn. eapply Qlt_le_trans; [| apply max_ge_l]. reflexivity.
Qed.

Lemma ttlMs_le state cost now :
  0 < windowMs config -> windowMs config <= 1000 ->
  now + Types.ttlMs (compute config state cost now) <= now + 2000.
Proof.
  intros Hpos Hw.
  assert (Types.ttlMs (compute config state cost now) <= 2000); [| lra].
  change (Types.ttlMs (compute config state cost now))
    with (JsMath.max 1000
            (windowStart (charge (rolled config state now) cost)
             + 2 * windowMs config - now)).
  apply Q.max_lub; [lra |].
  assert (windowStart (charge (rolled config state now) cost)
          <= curWindowStart config now) as Hs.
  { cbn. unfold SlidingWindow.rolled, rollover.
    destruct (JsMath.neqb _ _) eqn:Hne; cbn; [lra |].
    apply neqb_false in Hne. rewrite Hne. lra. }
  pose proof (cur_le config Hpos now). lra.
Qed.

(** A request at [t] on a state counting [c] in the window of [t]: the
    count becomes [c + cost], denied or not, and the request is allowed
    exactly when [c + cost <= limit]. *)
Lemma compute_counting state cost t c :
  counting config t c state ->
  let out := compute config state cost t in
  counting config t (c + cost) (Some (Types.state out)) /\
  Types.p_allowed (Types.result out) = JsMath.leb (c + cost) (limit config).
Proof.
  intros Hcnt out. subst out.
  assert (windowStart (rolled config state t) == curWindowStart config t /\
          prevCount (rolled config state t) == 0 /\
          count (rolled config state t) == c) as (Hw & Hp & Hc).
  { destruct state as [s |]; cbn in Hcnt.
    - destruct Hcnt as (Hw & Hp & Hc). unfold SlidingWindow.rolled. cbn.
      rewrite rollover_same_window by exact Hw. auto.
    - rewrite rolled_absent. cbn. repeat split; try reflexivity.
      symmetry. exact Hcnt. }
  rewrite compute_allowed, compute_state. split.
  - cbn. repeat split; try assumption. rewrite Hc. reflexivity.
  - apply Qleb_comp; [| reflexivity].
    rewrite effective_no_carry by exact Hp. cbn. rewrite Hc. reflexivity.
Qed.
End SlidingWindowBurst.

Lemma burst_step {H S Ctx} (this : Ratelimit.Ratelimit H S Ctx) (ctx : Ctx)
    (n : nat) (w w1 : Runtime.World H) (r : Types.LimitResult) :
  Ratelimit.limit this ctx w = Runtime.Resolved (r, w1) ->
  Fixtures.burst this ctx (Datatypes.S n) w =
  (Some r :: (Fixtures.burst this ctx n w1).1, (Fixtures.burst this ctx n w1).2).
Proof.
  intros Hrun. cbn [Fixtures.burst]. rewrite Hrun. cbn.
  destruct (Fixtures.burst this ctx n w1). reflexivity.
Qed.

(** One call of the limiter of the tests on a key whose stored state counts
    [c] in the window of the clock. *)
Lemma limit_counting (config : SlidingWindow.Config) (c : Q)
    (w : Runtime.World (gmap string (MemoryStore.Entry SlidingWindow.State))) :
  let alg := Types.mkAlgorithm Types.sliding (SlidingWindow.compute config) in
  let this := Fixtures.limiter alg None in
  SlidingWindow.counting config (Runtime.clock w) c
    (MemoryStore.stored w "default:test") ->
  exists r w',
    Ratelimit.limit this tt w = Runtime.Resolved (r, w') /\
    Types.allowed r = JsMath.leb (c + 1) (SlidingWindow.limit config) /\
    Runtime.clock w' = Runtime.clock w /\
    SlidingWindow.counting config (Runtime.clock w') (c + 1)
      (MemoryStore.stored w' "default:test").
Proof.
  intros alg this Hcnt.
  destruct (limit_resolves alg None 1 w eq_refl) as (w' & Hrun & Hclock & Hheap).
  destruct (compute_counting config _ 1 _ c Hcnt) as (Hnext & Hallowed).
  eexists _, w'. split; [exact Hrun |]. split; [exact Hallowed |].
  split; [exact Hclock |].
  rewrite (stored_after_limit w' _ (Runtime.clock w) _ Hclock Hheap)
    by apply ttlMs_pos.
  rewrite Hclock. exact Hnext.
Qed.

(** One call of the limiter of the tests on a key whose stored state counts
    the whole number [k] in the window of the clock. *)
Lemma rounded_limit_counting (fl : Q -> Q) {rounding : Float.Rounding fl}
    (config : SlidingWindow.Config) (k : Z)
    (w : Runtime.World (gmap string (MemoryStore.Entry SlidingWindow.State))) :
  let alg :=
    Types.mkAlgorithm Types.sliding (RoundedSlidingWindow.compute fl config) in
  let this := Fixtures.limiter alg None in
  (0 <= k)%Z -> (k + 1 <= 2 ^ 53)%Z ->
  RoundedSlidingWindow.counting fl config (Runtime.clock w) (inject_Z k)
    (MemoryStore.stored w "default:test") ->
  exists r w',
    Ratelimit.limit this tt w = Runtime.Resolved (r, w') /\
    Types.allowed r = JsMath.leb (inject_Z (k + 1)) (SlidingWindow.limit config) /\
    Runtime.clock w' = Runtime.clock w /\
    RoundedSlidingWindow.counting fl config (Runtime.clock w')
      (inject_Z (k + 1)) (MemoryStore.stored w' "default:test").
Proof.
  intros alg this Hk Hk1 Hcnt.
  destruct (limit_resolves alg None 1 w eq_refl) as (w' & Hrun & Hclock & Hheap).
  destruct (rounded_compute_counting fl config _ _ k 1 Hk ltac:(lia) Hk1 Hcnt)
    as (Hnext & Hallowed).
  eexists _, w'. split; [exact Hrun |]. split; [exact Hallowed |].
  split; [exact Hclock |].
  rewrite (stored_after_limit w' _ (Runtime.clock w) _ Hclock Hheap)
    by apply rounded_ttlMs_pos.
  rewrite Hclock. exact Hnext.
Qed.

(** C6: the sliding window adds the cost of every attempt to the count,
    allowed or not, and allows exactly when the effective count is within
    the limit.  The count stored is what the state had counted in the
    window of [now] plus the cost; the effective count adds to it the
    count carried from the window before times the weight
    [(windowMs - (now - curWindowStart)) / windowMs], every operation
    rounded as the code rounds it.  With [limit = 3] and
    [windowMs = 1000], four requests of cost [1] for one key at one
    instant, on a store holding nothing for the key, are allowed,
    allowed, allowed and denied, and the state stored afterwards
    counts [4]. *)
Theorem slidingWindow_counts_attempts
    (fl : Q -> Q) {rounding : Float.Rounding fl}
    (config : SlidingWindow.Config) (state : option SlidingWindow.State)
    (cost now : Q)
    (w : Runtime.World (gmap string (MemoryStore.Entry SlidingWindow.State))) :
  (let out := RoundedSlidingWindow.compute fl config state cost now in
   let windowMs := SlidingWindow.windowMs config in
   let curWindowStart := fl (inject_Z (Qfloor (fl (now / windowMs))) * windowMs) in
   let weight := fl (fl (windowMs - fl (now - curWindowStart)) / windowMs) in
   SlidingWindow.windowStart (Types.state out) == curWindowStart /\
   SlidingWindow.count (Types.state out) =
     fl (WindowedDecay.counted fl config state now + cost) /\
   (Types.p_allowed (Types.result out) = true <->
    fl (SlidingWindow.count (Types.state out)
        + fl (WindowedDecay.carried fl config state now * weight))
    <= SlidingWindow.limit config)) /\
  (MemoryStore.stored w "default:test" = None ->
   let this :=
     Fixtures.limiter (Fixtures.rounded_sliding_of fl 3 1000) None in
   let run := Fixtures.burst this tt 4 w in
   Fixtures.verdicts run.1 = [Some true; Some true; Some true; Some false] /\
   exists s, MemoryStore.stored run.2 "default:test" = Some s /\
             SlidingWindow.count s == 4).
Proof.
  split.
  - cbn zeta. split; [| split].
    + rewrite rounded_compute_state. cbn [SlidingWindow.windowStart RoundedSlidingWindow.charge].
      destruct state as [s |].
      * destruct (Qeq_dec (SlidingWindow.windowStart s)
                    (RoundedSlidingWindow.curWindowStart fl config now))
          as [Hsame | Hne].
        -- rewrite rounded_rolled_same by exact Hsame. exact Hsame.
        -- destruct (Qeq_dec (SlidingWindow.windowStart s)
                       (RoundedSlidingWindow.prevWindowStart fl config now))
             as [Hc | Hg].
           ++ rewrite rounded_rolled_contiguous by assumption. reflexivity.
           ++ rewrite rounded_rolled_gap by assumption. reflexivity.
      * rewrite rounded_rolled_absent. reflexivity.
    + rewrite rounded_compute_state. apply (rounded_count_closed fl config).
    + rewrite rounded_compute_state, (rounded_count_closed fl config).
      apply (rounded_allowed_closed fl config).
  - intros Hfresh. cbn zeta.
    assert (RoundedSlidingWindow.counting fl (SlidingWindow.mkConfig 3 1000)
              (Runtime.clock w) (inject_Z 0)
              (MemoryStore.stored w "default:test")) as H0
      by (rewrite Hfresh; cbn; reflexivity).
    destruct (rounded_limit_counting fl _ 0 _ ltac:(lia) ltac:(lia) H0)
      as (r1 & w1 & Hrun1 & Ha1 & Hc1 & H1).
    destruct (rounded_limit_counting fl _ 1 _ ltac:(lia) ltac:(lia) H1)
      as (r2 & w2 & Hrun2 & Ha2 & Hc2 & H2).
    destruct (rounded_limit_counting fl _ 2 _ ltac:(lia) ltac:(lia) H2)
      as (r3 & w3 & Hrun3 & Ha3 & Hc3 & H3).
    destruct (rounded_limit_counting fl _ 3 _ ltac:(lia) ltac:(lia) H3)
      as (r4 & w4 & Hrun4 & Ha4 & Hc4 & H4).
    unfold Fixtures.rounded_sliding_of.
    rewrite (burst_step _ _ _ _ _ _ Hrun1), (burst_step _ _ _ _ _ _ Hrun2),
            (burst_step _ _ _ _ _ _ Hrun3), (burst_step _ _ _ _ _ _ Hrun4).
    cbn [Fixtures.burst Fixtures.verdicts fst snd List.map option_map].
    rewrite Ha1, Ha2, Ha3, Ha4. split; [reflexivity |].
    destruct (MemoryStore.stored w4 "default:test") as [s |] eqn:Hs.
    + exists s. split; [reflexivity |].
      destruct H4 as (_ & _ & Hcount). rewrite Hcount. reflexivity.
    + cbn in H4. discriminate H4.
Qed.

Lemma slidingWindow_counts_attempts_witness :
  Types.p_allowed
    (Types.result
       (RoundedSlidingWindow.compute Float.round
          (SlidingWindow.mkConfig 15 1000)
          (Some (SlidingWindow.mkState 0 25 (-1000) 0)) 1 1440)) = false /\
  SlidingWindow.count
    (Types.state
       (RoundedSlidingWindow.compute Float.round
          (SlidingWindow.mkConfig 15 1000)
          (Some (SlidingWindow.mkState 0 25 (-1000) 0)) 1 1440)) == 1 /\
  Fixtures.verdicts
    (Fixtures.burst
       (Fixtures.limiter (Fixtures.rounded_sliding_of Float.round 3 1000) None)
       tt 4 (MemoryStore.fresh 1700000000123)).1
  = [Some true; Some true; Some true; Some false].
Proof.
  destruct (slidingWindow_counts_attempts Float.round
              (SlidingWindow.mkConfig 15 1000)
              (Some (SlidingWindow.mkState 0 25 (-1000) 0)) 1 1440
              (MemoryStore.fresh 1700000000123))
    as ((_ & Hcount & Hallowed) & Hburst).
  split; [| split].
  - match goal with |- ?a = false => destruct a eqn:Hdecision end;
      [| reflexivity].
    exfalso. pose proof (proj1 Hallowed eq_refl) as Hle.
    vm_compute in Hle. apply Hle. reflexivity.
  - rewrite Hcount. vm_compute. reflexivity.
  - apply Hburst. reflexivity.
Defined.

(** ** Windows that are not adjacent *)

Section SlidingWindowGap.
Import SlidingWindow.
Variable config : Config.

Lemma compute_via_rolled st1 st2 cost now :
  rolled config st1 now = rolled config st2 now ->
  compute config st1 cost now = compute config st2 cost now.
Proof.
  unfold compute, SlidingWindow.rolled. intros Heq. cbn zeta.
  rewrite Heq. reflexivity.
Qed.

(** After a gap the stored state has no say: the call is the call on a
    key without state. *)
Lemma compute_gap s cost now :
  ~ windowStart s == curWindowStart config now ->
  ~ windowStart s == prevWindowStart config now ->
  compute config (Some s) cost now = compute config None cost now.
Proof.
  intros Hne Hnp. apply compute_via_rolled. rewrite rolled_absent.
  apply rollover_gap; assumption.
Qed.

Lemma floor_of_whole x (z : Z) : x == inject_Z z -> JsMath.floor x = inject_Z z.
Proof.
  intros Heq. unfold JsMath.floor. rewrite (Qfloor_comp _ _ Heq), Qfloor_Z.
  reflexivity.
Qed.

(** A call on a key without state. *)
Lemma compute_absent cost now :
  let out := compute config None cost now in
  prevCount (Types.state out) = 0 /\
  effective config (Types.state out) now == cost /\
  Types.p_allowed (Types.result out) = JsMath.leb cost (limit config) /\
  forall z : Z, limit config - cost == inject_Z z ->
    Types.p_remaining (Types.result out) = JsMath.max 0 (inject_Z z).
Proof.
  cbn zeta.
  assert (effective config (Types.state (compute config None cost now)) now
          == cost) as Heff.
  { rewrite compute_state, rolled_absent, effective_no_carry by reflexivity.
    cbn. lra. }
  split; [| split; [| split]].
  - rewrite compute_state, rolled_absent. reflexivity.
  - exact Heff.
  - rewrite compute_allowed. rewrite compute_state in Heff.
    apply Qleb_comp; [exact Heff | reflexivity].
  - intros z Hz. rewrite compute_remaining. rewrite compute_state in Heff.
    f_equal. apply floor_of_whole. rewrite Heff. exact Hz.
Qed.
End SlidingWindowGap.

(** Five seconds after a request, a one second window is neither the
    window of the request nor the one after it. *)
Lemma five_seconds_later_is_a_gap (t0 : Q) :
  let config := SlidingWindow.mkConfig 5 1000 in
  let first := SlidingWindow.compute config None 1 t0 in
  ~ SlidingWindow.windowStart (Types.state first)
      == SlidingWindow.curWindowStart config (t0 + 5000) /\
  ~ SlidingWindow.windowStart (Types.state first)
      == SlidingWindow.prevWindowStart config (t0 + 5000).
Proof.
  intros config first. subst first.
  rewrite compute_state, rolled_absent.
  cbn [SlidingWindow.charge SlidingWindow.windowStart].
  assert (0 < SlidingWindow.windowMs config) as Hpos by (cbn; lra).
  pose proof (cur_le config Hpos t0) as H1.
  pose proof (cur_gt config Hpos (t0 + 5000)) as H2.
  unfold SlidingWindow.prevWindowStart.
  change (SlidingWindow.windowMs config) with 1000 in *.
  split; intros Heq; lra.
Qed.

(** C7: a stored window that is neither the current one nor the one just
    before it carries nothing: on rollover [prevCount] is set to [0] and
    the decision is the decision on a key without state; a [prevStart]
    that is not the window just before the current one adds nothing to the
    effective count.  With [limit = 5] and [windowMs = 1000], a request at
    [t0] and then one at [t0 + 5000] yields [allowed = true] and
    [remaining = 4], both when the algorithm is handed the state of the
    first request and through the limiter on the memory store. *)
Theorem slidingWindow_gap_carries_nothing
    (config : SlidingWindow.Config) (alg : Types.Algorithm SlidingWindow.State)
    (s : SlidingWindow.State) (cost now t0 : Q)
    (w : Runtime.World (gmap string (MemoryStore.Entry SlidingWindow.State))) :
  SlidingWindow.slidingWindow config = Types.Ok alg ->
  (~ SlidingWindow.windowStart s == SlidingWindow.curWindowStart config now ->
   ~ SlidingWindow.windowStart s == SlidingWindow.prevWindowStart config now ->
   let out := Types.compute alg (Some s) cost now in
   SlidingWindow.prevCount (Types.state out) = 0 /\
   SlidingWindow.effective config (Types.state out) now == cost /\
   out = Types.compute alg None cost now) /\
  (~ SlidingWindow.prevStart s == SlidingWindow.prevWindowStart config now ->
   SlidingWindow.effective config s now == SlidingWindow.count s) /\
  (let a5 := Fixtures.sliding_of 5 1000 in
   let first := Types.compute a5 None 1 t0 in
   let second := Types.compute a5 (Some (Types.state first)) 1 (t0 + 5000) in
   Types.p_allowed (Types.result second) = true /\
   Types.p_remaining (Types.result second) = 4 /\
   SlidingWindow.prevCount (Types.state second) = 0) /\
  (let this := Fixtures.limiter (Fixtures.sliding_of 5 1000) None in
   exists r1 w1 r2 w2,
     Ratelimit.limit this tt w = Runtime.Resolved (r1, w1) /\
     Ratelimit.limit this tt
       (Runtime.setSystemTime (Runtime.clock w + 5000) w1)
       = Runtime.Resolved (r2, w2) /\
     Types.allowed r2 = true /\ Types.remaining r2 = 4).
Proof.
  intros Hc.
  destruct (slidingWindow_config config alg Hc) as (_ & _ & Hcompute).
  destruct (compute_absent (SlidingWindow.mkConfig 5 1000) 1 (t0 + 5000)) as (Hp & _ & Ha & Hr).
  specialize (Hr 4%Z ltac:(reflexivity)).
  split; [| split; [| split]].
  - intros Hne Hnp out. subst out. rewrite Hcompute.
    rewrite (compute_gap config s cost now Hne Hnp).
    destruct (compute_absent config cost now) as (Hp' & He' & _).
    auto.
  - apply effective_not_adjacent.
  - cbn zeta. cbn [Fixtures.sliding_of Types.compute].
    destruct (five_seconds_later_is_a_gap t0) as (Hne & Hnp).
    rewrite (compute_gap (SlidingWindow.mkConfig 5 1000) _ 1 (t0 + 5000) Hne Hnp).
    auto.
  - cbn zeta.
    destruct (limit_resolves (Fixtures.sliding_of 5 1000) None 1 w eq_refl)
      as (w1 & Hrun1 & Hclock1 & Hheap1).
    assert (MemoryStore.stored
              (Runtime.setSystemTime (Runtime.clock w + 5000) w1)
              "default:test" = None) as Hgone.
    { eapply stored_expired; [exact Hheap1 |].
      cbn [Fixtures.sliding_of Types.compute].
      pose proof (ttlMs_le (SlidingWindow.mkConfig 5 1000) (MemoryStore.stored w "default:test") 1
                    (Runtime.clock w)) as Hle.
      cbn [SlidingWindow.windowMs] in Hle.
      specialize (Hle ltac:(lra) ltac:(lra)). lra. }
    destruct (limit_resolves (Fixtures.sliding_of 5 1000) None 1
                (Runtime.setSystemTime (Runtime.clock w + 5000) w1) eq_refl)
      as (w2 & Hrun2 & _ & _).
    rewrite Hgone in Hrun2.
    eexists _, w1, _, w2. split; [exact Hrun1 |]. split; [exact Hrun2 |].
    cbn [Types.with_now Types.allowed Types.remaining Runtime.setSystemTime
         Runtime.clock Fixtures.sliding_of Types.compute].
    destruct (compute_absent (SlidingWindow.mkConfig 5 1000) 1
                (Runtime.clock w + 5000)) as (_ & _ & Ha' & Hr').
    specialize (Hr' 4%Z ltac:(reflexivity)).
    auto.
Qed.

Lemma slidingWindow_gap_carries_nothing_witness :
  Types.compute (Fixtures.sliding_of 5 1000)
    (Some (SlidingWindow.mkState 1000 5 0 5)) 1 6200
  = Types.compute (Fixtures.sliding_of 5 1000) None 1 6200.
Proof.
  symmetry.
  refine (proj2 (proj2 (proj1
    (slidingWindow_gap_carries_nothing (SlidingWindow.mkConfig 5 1000)
       (Fixtures.sliding_of 5 1000) (SlidingWindow.mkState 1000 5 0 5)
       1 6200 0 (MemoryStore.fresh 0) eq_refl) _ _))).
  - vm_compute. discriminate.
  - vm_compute. discriminate.
Defined.

(** ** Headers *)

Section HeadersFacts.
Import Headers.
Variable String_ : Q -> string.

Lemma retry_after_header_other result (out : gmap string string) name :
  name <> "Retry-After"%string ->
  retry_after_header String_ result out !! name = out !! name.
Proof.
  intros Hne. unfold retry_after_header.
  destruct (Types.retryAfter result); [| reflexivity].
  apply lookup_insert_ne. congruence.
Qed.

Lemma retry_after_header_set result (out : gmap string string) ms :
  Types.retryAfter result = Some ms ->
  retry_after_header String_ result out !! "Retry-After"%string =
  Some (String_ (JsMath.ceil (ms / 1000))).
Proof.
  intros Hra. unfold retry_after_header. rewrite Hra. apply lookup_insert_eq.
Qed.

(** Every header but [RateLimit-Policy] comes from the two families. *)
Lemma build_lookup_not_policy result opts name :
  name <> "RateLimit-Policy"%string ->
  build String_ result opts !! name =
  (let o := default empty_options opts in
   let out : gmap string string := ∅ in
   let out :=
     if standard_of o then
       retry_after_header String_ result
         (<["RateLimit-Reset"%string := String_ (Types.reset result)]>
            (<["RateLimit-Remaining"%string := String_ (Types.remaining result)]>
               (<["RateLimit-Limit"%string := String_ (Types.limit result)]> out)))
     else out in
   let out :=
     if legacy_of o then
       retry_after_header String_ result
         (<["X-RateLimit-Reset"%string := String_ (Types.reset result)]>
            (<["X-RateLimit-Remaining"%string := String_ (Types.remaining result)]>
               (<["X-RateLimit-Limit"%string := String_ (Types.limit result)]> out)))
     else out in
   out) !! name.
Proof.
  intros Hne. unfold build. cbn zeta.
  destruct (Types.policy result) as [p |]; [| reflexivity].
  destruct (policy_of _ && negb (String.eqb p "")); [| reflexivity].
  apply lookup_insert_ne. congruence.
Qed.

Lemma build_all_disabled result opts :
  standard_of (default empty_options opts) = false ->
  legacy_of (default empty_options opts) = false ->
  policy_of (default empty_options opts) = false ->
  build String_ result opts = ∅.
Proof.
  intros Hs Hl Hp. unfold build. cbn zeta. rewrite Hs, Hl, Hp. cbn.
  destruct (Types.policy result); reflexivity.
Qed.
End HeadersFacts.

Ltac header_lookups :=
  rewrite ?retry_after_header_other by discriminate;
  repeat (rewrite lookup_insert_ne by discriminate);
  rewrite ?retry_after_header_other by discriminate;
  repeat (rewrite lookup_insert_ne by discriminate);
  rewrite ?lookup_insert_eq, ?lookup_empty; try reflexivity.

(** [RateLimit-Policy] is written by the policy family alone, and only for
    a decision that carries a descriptor that is not empty. *)
Lemma build_lookup_policy (String_ : Q -> string)
    (result : Types.LimitResult) (opts : option Headers.HeadersOptions) :
  Headers.build String_ result opts !! "RateLimit-Policy"%string =
  match Types.policy result with
  | Some p =>
      if Headers.policy_of (default Headers.empty_options opts)
         && negb (String.eqb p "")
      then Some p else None
  | None => None
  end.
Proof.
  unfold Headers.build. cbn zeta.
  destruct (Types.policy result) as [p |].
  - destruct (Headers.policy_of _ && negb (String.eqb p "")).
    + apply lookup_insert_eq.
    + destruct (Headers.standard_of _), (Headers.legacy_of _); header_lookups.
  - destruct (Headers.standard_of _), (Headers.legacy_of _); header_lookups.
Qed.

(** C9 (as amended): a family that is disabled emits none of its headers,
    and a configuration that disables the three families emits no header
    at all; an empty configuration takes the defaults and emits the
    standard family.  When the decision carries a [retryAfter] and the
    standard or the legacy family is enabled, [Retry-After] is
    [ceil(retryAfter / 1000)]; with neither of the two there is no
    [Retry-After]. *)
Theorem build_headers_by_family (String_ : Q -> string)
    (result : Types.LimitResult) (opts : option Headers.HeadersOptions) :
  let o := default Headers.empty_options opts in
  let out := Headers.build String_ result opts in
  (Headers.standard_of o = false ->
     Forall (fun name => out !! name = None) Headers.standard_names) /\
  (Headers.legacy_of o = false ->
     Forall (fun name => out !! name = None) Headers.legacy_names) /\
  (Headers.policy_of o = false ->
     Forall (fun name => out !! name = None) Headers.policy_names) /\
  (Headers.standard_of o = false -> Headers.legacy_of o = false ->
     Headers.policy_of o = false -> out = ∅) /\
  (forall ms, Types.retryAfter result = Some ms ->
     Headers.standard_of o = true \/ Headers.legacy_of o = true ->
     out !! "Retry-After"%string = Some (String_ (JsMath.ceil (ms / 1000)))) /\
  (Headers.standard_of o = false -> Headers.legacy_of o = false ->
     out !! "Retry-After"%string = None) /\
  (opts = None \/ opts = Some Headers.empty_options ->
     out !! "RateLimit-Limit"%string = Some (String_ (Types.limit result)) /\
     out !! "RateLimit-Remaining"%string = Some (String_ (Types.remaining result)) /\
     out !! "RateLimit-Reset"%string = Some (String_ (Types.reset result))).
Proof.
  intros o out. subst out.
  split; [| split; [| split; [| split; [| split; [| split]]]]];
    [| | | | | | intros Hempty; split; [| split]].
  - intros Hs. unfold Headers.standard_names. repeat constructor;
      rewrite build_lookup_not_policy by discriminate; cbn zeta; fold o;
      rewrite Hs; destruct (Headers.legacy_of o); header_lookups.
  - intros Hl. unfold Headers.legacy_names. repeat constructor;
      rewrite build_lookup_not_policy by discriminate; cbn zeta; fold o;
      rewrite Hl; destruct (Headers.standard_of o); header_lookups.
  - intros Hp. unfold Headers.policy_names. repeat constructor.
    rewrite build_lookup_policy. fold o. rewrite Hp.
    destruct (Types.policy result); reflexivity.
  - apply build_all_disabled.
  - intros ms Hra Hon.
    rewrite build_lookup_not_policy by discriminate. cbn zeta. fold o.
    destruct (Headers.legacy_of o) eqn:Hl.
    + apply retry_after_header_set. exact Hra.
    + destruct Hon as [Hs | Hs]; [| discriminate]. rewrite Hs.
      apply retry_after_header_set. exact Hra.
  - intros Hs Hl. rewrite build_lookup_not_policy by discriminate.
    cbn zeta. fold o. rewrite Hs, Hl. apply lookup_empty.
  - rewrite build_lookup_not_policy by discriminate. cbn zeta.
    assert (default Headers.empty_options opts = Headers.empty_options) as ->
      by (destruct Hempty; subst; reflexivity).
    change (Headers.standard_of Headers.empty_options) with true.
    change (Headers.legacy_of Headers.empty_options) with false.
    cbv iota. header_lookups.
  - rewrite build_lookup_not_policy by discriminate. cbn zeta.
    assert (default Headers.empty_options opts = Headers.empty_options) as ->
      by (destruct Hempty; subst; reflexivity).
    change (Headers.standard_of Headers.empty_options) with true.
    change (Headers.legacy_of Headers.empty_options) with false.
    cbv iota. header_lookups.
  - rewrite build_lookup_not_policy by discriminate. cbn zeta.
    assert (default Headers.empty_options opts = Headers.empty_options) as ->
      by (destruct Hempty; subst; reflexivity).
    change (Headers.standard_of Headers.empty_options) with true.
    change (Headers.legacy_of Headers.empty_options) with false.
    cbv iota. header_lookups.
Qed.

Lemma build_headers_by_family_witness :
  Headers.build Headers.decimal Headers.mockDeniedResult
    (Some (Headers.mkOptions (Some false) (Some true) None))
    !! "Retry-After"%string = Some "5"%string /\
  Headers.build Headers.decimal Headers.mockDeniedResult
    (Some (Headers.mkOptions (Some false) (Some false) (Some false))) = ∅.
Proof.
  pose proof (build_headers_by_family Headers.decimal Headers.mockDeniedResult
    (Some (Headers.mkOptions (Some false) (Some true) None)))
    as (_ & _ & _ & _ & Hretry & _).
  pose proof (build_headers_by_family Headers.decimal Headers.mockDeniedResult
    (Some (Headers.mkOptions (Some false) (Some false) (Some false))))
    as (_ & _ & _ & Hnone & _).
  split.
  - apply (Hretry 5000); [reflexivity | right; reflexivity].
  - apply Hnone; reflexivity.
Defined.

(** C9 (as stated) fails twice.  The empty configuration [{}] emits the
    standard family, since [standard] defaults to [true]; and with the
    policy family alone enabled, a decision that carries a [retryAfter]
    gets its [RateLimit-Policy] header but no [Retry-After]. *)
Lemma build_empty_options_and_policy_only :
  Headers.build Headers.decimal Headers.mockResult (Some Headers.empty_options)
    !! "RateLimit-Limit"%string = Some "100"%string /\
  Headers.build Headers.decimal Headers.mockResult (Some Headers.empty_options)
    <> ∅ /\
  Headers.build Headers.decimal Headers.mockDeniedWithPolicy
    (Some (Headers.mkOptions (Some false) (Some false) (Some true)))
    = {[ "RateLimit-Policy"%string := "100;w=60"%string ]} /\
  Headers.build Headers.decimal Headers.mockDeniedWithPolicy
    (Some (Headers.mkOptions (Some false) (Some false) (Some true)))
    !! "Retry-After"%string = None.
Proof.
  assert (Headers.build Headers.decimal Headers.mockResult
            (Some Headers.empty_options) !! "RateLimit-Limit"%string
          = Some "100"%string) as Hlimit by (vm_compute; reflexivity).
  split; [exact Hlimit |]. split; [| split].
  - intros Hnil. rewrite Hnil in Hlimit. discriminate.
  - vm_compute. reflexivity.
  - vm_compute. reflexivity.
Qed.

(* ===================================================================== *)
(** * Further properties of the code                                      *)
(* ===================================================================== *)

(** ** The sliding window: what a decision reports *)

Section SlidingWindowReports.
Import SlidingWindow.
Variable config : Config.
Hypothesis window_pos : 0 < windowMs config.

Lemma rolled_windowStart state now :
  windowStart (rolled config state now) == curWindowStart config now.
Proof.
  unfold SlidingWindow.rolled, rollover.
  destruct (JsMath.neqb _ _) eqn:Hne; cbn; [reflexivity |].
  apply neqb_false in Hne. exact Hne.
Qed.

Lemma rolled_counts_ok state now :
  prior_ok state -> counts_ok (rolled config state now).
Proof.
  intros Hok. apply rollover_counts_ok. destruct state as [s |]; cbn.
  - exact Hok.
  - split; cbn; lra.
Qed.

Lemma weight_bounds now : 0 < weight config now /\ weight config now <= 1.
Proof using window_pos.
  unfold weight. pose proof (cur_le config window_pos now) as Hle.
  pose proof (cur_gt config window_pos now) as Hgt. split.
  - apply Qlt_shift_div_l; lra.
  - apply Qle_shift_div_r; lra.
Qed.

Lemma effective_ge_count s now :
  0 <= prevCount s -> count s <= effective config s now.
Proof using window_pos.
  intros Hp. unfold effective.
  destruct (JsMath.eqb (prevStart s) (prevWindowStart config now)); [| lra].
  destruct (weight_bounds now) as [Hw _].
  assert (0 <= prevCount s * weight config now)
    by (apply Qmult_le_0_compat; lra).
  lra.
Qed.

Lemma compute_retryAfter state cost now :
  Types.p_retryAfter (Types.result (compute config state cost now)) =
  if Types.p_allowed (Types.result (compute config state cost now))
  then None
  else Some (windowStart (rolled config state now) + windowMs config - now).
Proof using window_pos.
  change (Types.p_retryAfter (Types.result (compute config state cost now)))
    with (if negb (Types.p_allowed (Types.result (compute config state cost now)))
          then Some (if JsMath.ltb
                          (windowStart (rolled config state now)
                           + windowMs config - now) 0
                     then 0
                     else windowStart (rolled config state now)
                          + windowMs config - now)
          else None).
  destruct (Types.p_allowed _); cbn [negb]; [reflexivity |].
  pose proof (rolled_windowStart state now) as Hw.
  pose proof (cur_gt config window_pos now) as Hgt.
  assert (0 <= windowStart (rolled config state now) + windowMs config - now)
    as Hge by lra.
  apply ltb_false in Hge. rewrite Hge. reflexivity.
Qed.
End SlidingWindowReports.

(** [Math.max(0, n)] on a whole number [n]. *)
Lemma max_zero_whole (z : Z) :
  JsMath.max 0 (inject_Z z) = inject_Z (Z.max 0 z).
Proof.
  unfold JsMath.max, Qmax, GenericMinMax.gmax.
  assert ((0 ?= inject_Z z) = (0 ?= z)%Z) as ->.
  { unfold Qcompare. cbn [Qnum Qden inject_Z]. rewrite !Z.mul_1_r. reflexivity. }
  destruct (Z.compare_spec 0 z) as [Heq | Hlt | Hgt].
  - subst z. reflexivity.
  - rewrite Z.max_r by lia. reflexivity.
  - rewrite Z.max_l by lia. reflexivity.
Qed.

(** X1: the sliding window reports [retryAfter] exactly on a denial, and
    then it is the time left to the end of the current window: positive,
    at most [windowMs], and [now + retryAfter] is the end of the stored
    window. *)
Theorem slidingWindow_retryAfter_is_time_to_window_end
    (config : SlidingWindow.Config) (alg : Types.Algorithm SlidingWindow.State)
    (state : option SlidingWindow.State) (cost now : Q) :
  SlidingWindow.slidingWindow config = Types.Ok alg ->
  let out := Types.compute alg state cost now in
  match Types.p_retryAfter (Types.result out) with
  | Some r =>
      Types.p_allowed (Types.result out) = false /\
      0 < r /\ r <= SlidingWindow.windowMs config /\
      now + r == SlidingWindow.windowStart (Types.state out)
                 + SlidingWindow.windowMs config
  | None => Types.p_allowed (Types.result out) = true
  end.
Proof.
  intros Hc out. subst out.
  destruct (slidingWindow_config config alg Hc) as (_ & Hw & ->).
  rewrite (compute_retryAfter config Hw).
  destruct (Types.p_allowed _); [reflexivity |].
  pose proof (rolled_windowStart config state now) as Hs.
  pose proof (cur_le config Hw now). pose proof (cur_gt config Hw now).
  rewrite compute_state. cbn [SlidingWindow.charge SlidingWindow.windowStart].
  repeat split; lra.
Qed.

Lemma slidingWindow_retryAfter_is_time_to_window_end_witness :
  let out :=
    Types.compute (Fixtures.sliding_of 1 5000)
      (Some (SlidingWindow.mkState 0 1 (-5000) 0)) 1 1000 in
  match Types.p_retryAfter (Types.result out) with
  | Some r =>
      Types.p_allowed (Types.result out) = false /\
      0 < r /\ r <= 5000 /\
      1000 + r == SlidingWindow.windowStart (Types.state out) + 5000
  | None => Types.p_allowed (Types.result out) = true
  end.
Proof.
  exact (slidingWindow_retryAfter_is_time_to_window_end
           (SlidingWindow.mkConfig 1 5000) (Fixtures.sliding_of 1 5000)
           (Some (SlidingWindow.mkState 0 1 (-5000) 0)) 1 1000 eq_refl).
Defined.

(** X2: with a cost and stored counters that are not negative, the
    [remaining] of the sliding window is a whole number between [0] and
    [limit], and it is [0] on every denial. *)
Theorem slidingWindow_remaining_bounds
    (config : SlidingWindow.Config) (alg : Types.Algorithm SlidingWindow.State)
    (state : option SlidingWindow.State) (cost now : Q) :
  SlidingWindow.slidingWindow config = Types.Ok alg ->
  SlidingWindow.prior_ok state -> 0 <= cost ->
  let out := Types.compute alg state cost now in
  let remaining := Types.p_remaining (Types.result out) in
  (exists k : Z, (0 <= k)%Z /\ remaining = inject_Z k) /\
  remaining <= SlidingWindow.limit config /\
  (Types.p_allowed (Types.result out) = false -> remaining = 0).
Proof.
  intros Hc Hok Hcost out remaining. subst remaining out.
  destruct (slidingWindow_config config alg Hc) as (Hl & Hw & ->).
  rewrite compute_remaining, compute_allowed.
  set (s := SlidingWindow.charge (SlidingWindow.rolled config state now) cost).
  set (e := SlidingWindow.effective config s now).
  assert (0 <= e) as He.
  { destruct (rolled_counts_ok config state now Hok) as [Hcnt Hprev].
    pose proof (effective_ge_count config Hw s now Hprev) as Hge.
    subst e. cbn in Hge. fold s in Hge. cbn in Hge. lra. }
  pose proof (floor_le (SlidingWindow.limit config - e)) as Hfl.
  pose proof (floor_gt (SlidingWindow.limit config - e)) as Hfg.
  unfold JsMath.floor in *. rewrite max_zero_whole.
  set (z := Qfloor (SlidingWindow.limit config - e)) in *.
  assert (inject_Z z <= inject_Z (Z.max 0 z)) as Hmax
    by (rewrite <- Zle_Qle; lia).
  split; [exists (Z.max 0 z); split; [lia | reflexivity] |].
  destruct (Z_lt_le_dec z 0) as [Hneg | Hpos].
  - rewrite Z.max_l by lia. change (inject_Z 0) with 0.
    split; [lra | reflexivity].
  - rewrite Z.max_r by lia.
    assert (inject_Z 0 <= inject_Z z) as Hz by (rewrite <- Zle_Qle; lia).
    change (inject_Z 0) with 0 in Hz.
    split; [lra |].
    intros Ha. apply leb_false in Ha. lra.
Qed.

Lemma slidingWindow_remaining_bounds_witness :
  Types.p_remaining
    (Types.result
       (Types.compute (Fixtures.sliding_of 5 1000)
          (Some (SlidingWindow.mkState 0 7 (-1000) 0)) 1 10)) = 0.
Proof.
  refine (proj2 (proj2
    (slidingWindow_remaining_bounds (SlidingWindow.mkConfig 5 1000)
       (Fixtures.sliding_of 5 1000)
       (Some (SlidingWindow.mkState 0 7 (-1000) 0)) 1 10 eq_refl _ _)) _).
  - split; cbn; lra.
  - lra.
  - reflexivity.
Defined.

(** X3: the lifetime the sliding window asks for is at least a second and
    reaches the end of the window after the current one; once it has run
    out the saved state has no say any more: every later call decides and
    stores exactly what a call without state does. *)
Theorem slidingWindow_lifetime_outlives_state
    (config : SlidingWindow.Config) (alg : Types.Algorithm SlidingWindow.State)
    (state : option SlidingWindow.State) (cost now : Q) :
  SlidingWindow.slidingWindow config = Types.Ok alg ->
  let out := Types.compute alg state cost now in
  1000 <= Types.ttlMs out /\
  SlidingWindow.windowStart (Types.state out)
    + 2 * SlidingWindow.windowMs config <= now + Types.ttlMs out /\
  forall cost' t : Q,
    now + Types.ttlMs out <= t ->
    Types.compute alg (Some (Types.state out)) cost' t =
    Types.compute alg None cost' t.
Proof.
  intros Hc out. subst out.
  destruct (slidingWindow_config config alg Hc) as (_ & Hw & ->).
  assert (Types.ttlMs (SlidingWindow.compute config state cost now) =
          JsMath.max 1000
            (SlidingWindow.windowStart
               (Types.state (SlidingWindow.compute config state cost now))
             + 2 * SlidingWindow.windowMs config - now)) as Httl
    by reflexivity.
  pose proof (max_ge_l 1000
                (SlidingWindow.windowStart
                   (Types.state (SlidingWindow.compute config state cost now))
                 + 2 * SlidingWindow.windowMs config - now)) as H1.
  pose proof (max_ge_r 1000
                (SlidingWindow.windowStart
                   (Types.state (SlidingWindow.compute config state cost now))
                 + 2 * SlidingWindow.windowMs config - now)) as H2.
  rewrite <- Httl in H1, H2.
  split; [exact H1 |]. split; [lra |].
  intros cost' t Ht.
  pose proof (cur_gt config Hw t) as Hgt.
  apply compute_gap; unfold SlidingWindow.prevWindowStart; intros Heq; lra.
Qed.

Lemma slidingWindow_lifetime_outlives_state_witness :
  Types.compute (Fixtures.sliding_of 3 1000)
    (Some (Types.state (Types.compute (Fixtures.sliding_of 3 1000) None 3 1500)))
    1 3000
  = Types.compute (Fixtures.sliding_of 3 1000) None 1 3000.
Proof.
  apply (slidingWindow_lifetime_outlives_state (SlidingWindow.mkConfig 3 1000)
           (Fixtures.sliding_of 3 1000) None 3 1500 eq_refl).
  vm_compute. discriminate.
Defined.

(** X4: the state a call of the sliding window returns is of the window
    that contains [now]: its [windowStart] is a whole multiple of
    [windowMs], not after [now] and less than [windowMs] before it; and
    if the stored [prevStart] was one window before the stored
    [windowStart] (or there was no state), the same holds of the state
    returned. *)
Theorem slidingWindow_state_is_aligned
    (config : SlidingWindow.Config) (alg : Types.Algorithm SlidingWindow.State)
    (state : option SlidingWindow.State) (cost now : Q) :
  SlidingWindow.slidingWindow config = Types.Ok alg ->
  match state with
  | Some s =>
      SlidingWindow.prevStart s
      == SlidingWindow.windowStart s - SlidingWindow.windowMs config
  | None => True
  end ->
  let s' := Types.state (Types.compute alg state cost now) in
  (exists k : Z,
     SlidingWindow.windowStart s'
     == inject_Z k * SlidingWindow.windowMs config) /\
  SlidingWindow.windowStart s' <= now /\
  now < SlidingWindow.windowStart s' + SlidingWindow.windowMs config /\
  SlidingWindow.prevStart s'
    == SlidingWindow.windowStart s' - SlidingWindow.windowMs config.
Proof.
  intros Hc Hal s'. subst s'.
  destruct (slidingWindow_config config alg Hc) as (_ & Hw & ->).
  rewrite compute_state.
  pose proof (rolled_windowStart config state now) as Hs.
  pose proof (cur_le config Hw now). pose proof (cur_gt config Hw now).
  assert (SlidingWindow.prevStart (SlidingWindow.rolled config state now)
          == SlidingWindow.prevWindowStart config now) as Hp.
  { clear Hs. unfold SlidingWindow.rolled, SlidingWindow.rollover.
    destruct (JsMath.neqb _ _) eqn:Hne.
    - destruct (JsMath.eqb _ _) eqn:Hcont;
        cbn [SlidingWindow.prevStart]; [| reflexivity].
      apply eqb_true in Hcont. exact Hcont.
    - apply neqb_false in Hne. unfold SlidingWindow.prevWindowStart.
      destruct state as [s |]; cbn [SlidingWindow.initial] in *.
      + lra.
      + cbn [SlidingWindow.prevStart].
        unfold SlidingWindow.prevWindowStart. reflexivity. }
  cbn [SlidingWindow.charge SlidingWindow.windowStart SlidingWindow.prevStart].
  split.
  - exists (Qfloor (now / SlidingWindow.windowMs config)). exact Hs.
  - split; [lra |]. split; [lra |].
    unfold SlidingWindow.prevWindowStart in Hp. lra.
Qed.

Lemma slidingWindow_state_is_aligned_witness :
  let s' :=
    Types.state
      (Types.compute (Fixtures.sliding_of 10 1000)
         (Some (SlidingWindow.mkState 0 8 (-1000) 0)) 1 1500) in
  (exists k : Z, SlidingWindow.windowStart s' == inject_Z k * 1000) /\
  SlidingWindow.windowStart s' <= 1500 /\
  1500 < SlidingWindow.windowStart s' + 1000 /\
  SlidingWindow.prevStart s' == SlidingWindow.windowStart s' - 1000.
Proof.
  apply (slidingWindow_state_is_aligned (SlidingWindow.mkConfig 10 1000)
           (Fixtures.sliding_of 10 1000)
           (Some (SlidingWindow.mkState 0 8 (-1000) 0)) 1 1500 eq_refl).
  cbn. lra.
Defined.

(** X5: when the stored window is the one just before the window of
    [now], its count is carried as [prevCount] and the new count is the
    cost alone; the request is judged on the cost plus the carried count
    times the weight [(windowMs - (now - curWindowStart)) / windowMs], and
    [remaining] is the floor of what is left of the limit, every operation
    rounded as the code rounds it. *)
Theorem slidingWindow_contiguous_carry
    (fl : Q -> Q) {rounding : Float.Rounding fl}
    (config : SlidingWindow.Config) (alg : Types.Algorithm SlidingWindow.State)
    (s : SlidingWindow.State) (cost now : Q) :
  RoundedSlidingWindow.slidingWindow fl config = Types.Ok alg ->
  let windowMs := SlidingWindow.windowMs config in
  let curWindowStart := fl (inject_Z (Qfloor (fl (now / windowMs))) * windowMs) in
  ~ SlidingWindow.windowStart s == curWindowStart ->
  SlidingWindow.windowStart s == fl (curWindowStart - windowMs) ->
  let out := Types.compute alg (Some s) cost now in
  let weight := fl (fl (windowMs - fl (now - curWindowStart)) / windowMs) in
  let effective := fl (fl (0 + cost) + fl (SlidingWindow.count s * weight)) in
  Types.state out =
    SlidingWindow.mkState curWindowStart (fl (0 + cost))
      (SlidingWindow.windowStart s) (SlidingWindow.count s) /\
  Types.p_allowed (Types.result out)
    = JsMath.leb effective (SlidingWindow.limit config) /\
  Types.p_remaining (Types.result out)
    = JsMath.max 0 (JsMath.floor (fl (SlidingWindow.limit config - effective))).
Proof.
  intros Hc windowMs curWindowStart Hne Hprev out weight effective.
  subst out.
  destruct (rounded_slidingWindow_config fl config alg Hc) as (_ & Hw & ->).
  cbn [Types.compute].
  rewrite rounded_compute_state, rounded_compute_allowed,
    rounded_compute_remaining.
  rewrite (rounded_rolled_contiguous fl config s now Hne Hprev).
  unfold RoundedSlidingWindow.effective, RoundedSlidingWindow.charge.
  cbn [SlidingWindow.count SlidingWindow.prevCount SlidingWindow.prevStart
       SlidingWindow.windowStart].
  apply eqb_true in Hprev.
  change (RoundedSlidingWindow.prevWindowStart fl config now)
    with (fl (curWindowStart - windowMs)).
  rewrite Hprev. repeat split.
Qed.

Lemma slidingWindow_contiguous_carry_witness :
  let out :=
    Types.compute (Fixtures.rounded_sliding_of Float.round 100 30000)
      (Some (SlidingWindow.mkState 0 75 (-30000) 0)) 1 39600 in
  Types.state out = SlidingWindow.mkState 30000 1 0 75 /\
  Types.p_allowed (Types.result out) = true /\
  Types.p_remaining (Types.result out) = 47.
Proof.
  destruct (slidingWindow_contiguous_carry Float.round
              (SlidingWindow.mkConfig 100 30000)
              (Fixtures.rounded_sliding_of Float.round 100 30000)
              (SlidingWindow.mkState 0 75 (-30000) 0) 1 39600 eq_refl)
    as (Hstate & Hallowed & Hremaining).
  - vm_compute. discriminate.
  - vm_compute. reflexivity.
  - cbn zeta. rewrite Hstate, Hallowed, Hremaining.
    vm_compute. repeat split.
Defined.

(** ** Both algorithms: cost, first request, reset *)

(** X6: a cheaper request is allowed wherever a dearer one is: for the
    same stored state and the same time, if a request of cost [c2] is
    allowed then so is every request of cost [c1 <= c2]. *)
Theorem allowed_is_monotone_in_cost
    (tb : TokenBucket.Config) (alg_tb : Types.Algorithm TokenBucket.State)
    (sw : SlidingWindow.Config) (alg_sw : Types.Algorithm SlidingWindow.State)
    (bucket : option TokenBucket.State) (window : option SlidingWindow.State)
    (c1 c2 now : Q) :
  c1 <= c2 ->
  (TokenBucket.tokenBucket tb = Types.Ok alg_tb ->
   Types.p_allowed (Types.result (Types.compute alg_tb bucket c2 now)) = true ->
   Types.p_allowed (Types.result (Types.compute alg_tb bucket c1 now)) = true) /\
  (SlidingWindow.slidingWindow sw = Types.Ok alg_sw ->
   Types.p_allowed (Types.result (Types.compute alg_sw window c2 now)) = true ->
   Types.p_allowed (Types.result (Types.compute alg_sw window c1 now)) = true).
Proof.
  intros Hle. split.
  - intros Htb. rewrite !(compute_unfold tb alg_tb Htb).
    destruct (Qlt_le_dec (TokenBucket.tokens (TokenBucket.refilled tb bucket now)) c2)
      as [Hlt | Hge].
    + rewrite (admission_denied tb alg_tb Htb _ _ Hlt). cbn. discriminate.
    + intros _.
      assert (c1 <= TokenBucket.tokens (TokenBucket.refilled tb bucket now))
        as Hge1 by lra.
      rewrite (admission_granted tb _ _ Hge1). reflexivity.
  - intros Hsw. destruct (slidingWindow_config sw alg_sw Hsw) as (_ & _ & ->).
    rewrite !compute_allowed, !leb_true.
    unfold SlidingWindow.effective, SlidingWindow.charge.
    cbn [SlidingWindow.count SlidingWindow.prevCount SlidingWindow.prevStart].
    destruct (JsMath.eqb _ _); lra.
Qed.

Lemma allowed_is_monotone_in_cost_witness :
  Types.p_allowed
    (Types.result
       (Types.compute (Fixtures.bucket_of 10 1)
          (Some (TokenBucket.mkState 6 0)) 2 0)) = true /\
  Types.p_allowed
    (Types.result
       (Types.compute (Fixtures.sliding_of 10 1000)
          (Some (SlidingWindow.mkState 0 4 (-1000) 0)) 2 0)) = true.
Proof.
  destruct (allowed_is_monotone_in_cost
              (TokenBucket.mkConfig 10 1) (Fixtures.bucket_of 10 1)
              (SlidingWindow.mkConfig 10 1000) (Fixtures.sliding_of 10 1000)
              (Some (TokenBucket.mkState 6 0))
              (Some (SlidingWindow.mkState 0 4 (-1000) 0)) 2 5 0)
    as [Hbucket Hwindow].
  - lra.
  - split; [apply Hbucket | apply Hwindow]; reflexivity.
Defined.

(** X7: on a key without state a request is allowed exactly when its cost
    is within the limit (sliding window) or the capacity (token bucket);
    the state returned then counts the cost, resp. holds the capacity less
    the cost. *)
Theorem first_request_allowed_iff_cost_fits
    (tb : TokenBucket.Config) (alg_tb : Types.Algorithm TokenBucket.State)
    (sw : SlidingWindow.Config) (alg_sw : Types.Algorithm SlidingWindow.State)
    (cost now : Q) :
  (TokenBucket.tokenBucket tb = Types.Ok alg_tb ->
   let out := Types.compute alg_tb None cost now in
   (Types.p_allowed (Types.result out) = true <-> cost <= TokenBucket.capacity tb) /\
   TokenBucket.last (Types.state out) = now /\
   (cost <= TokenBucket.capacity tb ->
    TokenBucket.tokens (Types.state out) = TokenBucket.capacity tb - cost) /\
   (TokenBucket.capacity tb < cost ->
    TokenBucket.tokens (Types.state out) = TokenBucket.capacity tb)) /\
  (SlidingWindow.slidingWindow sw = Types.Ok alg_sw ->
   let out := Types.compute alg_sw None cost now in
   (Types.p_allowed (Types.result out) = true <-> cost <= SlidingWindow.limit sw) /\
   SlidingWindow.count (Types.state out) == cost /\
   SlidingWindow.prevCount (Types.state out) = 0).
Proof.
  split.
  - intros Htb out. subst out. rewrite (compute_unfold tb alg_tb Htb).
    assert (TokenBucket.refilled tb None now
            = TokenBucket.mkState (TokenBucket.capacity tb) now) as ->
      by (apply refill_skipped; cbn; lra).
    destruct (Qlt_le_dec (TokenBucket.capacity tb) cost) as [Hlt | Hle].
    + rewrite (admission_denied tb alg_tb Htb
                 (TokenBucket.mkState (TokenBucket.capacity tb) now) cost Hlt).
      cbn.
      split; [split; [discriminate | lra] |].
      split; [reflexivity |]. split; [lra | reflexivity].
    + rewrite (admission_granted tb
                 (TokenBucket.mkState (TokenBucket.capacity tb) now) cost Hle).
      cbn.
      split; [split; [intros _; exact Hle | reflexivity] |].
      split; [reflexivity |]. split; [reflexivity | lra].
  - intros Hsw out. subst out.
    destruct (slidingWindow_config sw alg_sw Hsw) as (_ & _ & ->).
    destruct (compute_absent sw cost now) as (Hp & _ & Ha & _).
    split; [rewrite Ha; apply leb_true |].
    split; [| exact Hp].
    rewrite compute_state, rolled_absent. cbn. lra.
Qed.

Lemma first_request_allowed_iff_cost_fits_witness :
  TokenBucket.tokens
    (Types.state (Types.compute (Fixtures.bucket_of 10 1) None 3 77)) = 10 - 3.
Proof.
  refine (proj1 (proj2 (proj2 (proj1
    (first_request_allowed_iff_cost_fits
       (TokenBucket.mkConfig 10 1) (Fixtures.bucket_of 10 1)
       (SlidingWindow.mkConfig 10 1000) (Fixtures.sliding_of 10 1000) 3 77)
    eq_refl))) _).
  cbn. lra.
Defined.

(** X8: [reset] is a whole number of seconds.  For the sliding window it
    is the first whole second at or after the end of the current window,
    hence after [now]; for the token bucket it is the first whole second
    at or after [now + 1000] ms. *)
Theorem reset_is_next_whole_second
    (tb : TokenBucket.Config) (alg_tb : Types.Algorithm TokenBucket.State)
    (sw : SlidingWindow.Config) (alg_sw : Types.Algorithm SlidingWindow.State)
    (bucket : option TokenBucket.State) (window : option SlidingWindow.State)
    (cost now : Q) :
  (TokenBucket.tokenBucket tb = Types.Ok alg_tb ->
   let reset := Types.p_reset (Types.result (Types.compute alg_tb bucket cost now)) in
   (exists k : Z, reset = inject_Z k) /\
   now + 1000 <= reset * 1000 /\ reset * 1000 < now + 2000) /\
  (SlidingWindow.slidingWindow sw = Types.Ok alg_sw ->
   let out := Types.compute alg_sw window cost now in
   let reset := Types.p_reset (Types.result out) in
   let window_end :=
     SlidingWindow.windowStart (Types.state out) + SlidingWindow.windowMs sw in
   (exists k : Z, reset = inject_Z k) /\
   now < reset * 1000 /\
   window_end <= reset * 1000 /\ reset * 1000 < window_end + 1000).
Proof.
  split.
  - intros Htb reset. subst reset. rewrite (compute_unfold tb alg_tb Htb).
    destruct (TokenBucket.admission tb _ cost) as [[s a] r]. cbn.
    pose proof (ceil_ge ((now + 1000) / 1000)) as Hge.
    pose proof (ceil_lt ((now + 1000) / 1000)) as Hlt.
    assert ((now + 1000) / 1000 * 1000 == now + 1000) as Hd by (field).
    split; [eexists; reflexivity |]. split; lra.
  - intros Hsw out reset window_end. subst reset window_end out.
    destruct (slidingWindow_config sw alg_sw Hsw) as (_ & Hw & ->).
    change (Types.p_reset (Types.result (SlidingWindow.compute sw window cost now)))
      with (JsMath.ceil
              ((SlidingWindow.windowStart
                  (Types.state (SlidingWindow.compute sw window cost now))
                + SlidingWindow.windowMs sw) / 1000)).
    set (e := SlidingWindow.windowStart
                (Types.state (SlidingWindow.compute sw window cost now))
              + SlidingWindow.windowMs sw).
    assert (now < e) as Hnow.
    { subst e. rewrite compute_state. cbn.
      pose proof (rolled_windowStart sw window now).
      pose proof (cur_gt sw Hw now). lra. }
    pose proof (ceil_ge (e / 1000)) as Hge.
    pose proof (ceil_lt (e / 1000)) as Hlt.
    assert (e / 1000 * 1000 == e) as Hd by (field).
    split; [eexists; reflexivity |]. repeat split; lra.
Qed.

Lemma reset_is_next_whole_second_witness :
  Types.p_reset
    (Types.result
       (Types.compute (Fixtures.sliding_of 5 10000) None 1 1000000000000))
    * 1000 < 1000000010000 + 1000.
Proof.
  refine (proj2 (proj2 (proj2 (proj2
    (reset_is_next_whole_second
       (TokenBucket.mkConfig 10 1) (Fixtures.bucket_of 10 1)
       (SlidingWindow.mkConfig 5 10000) (Fixtures.sliding_of 5 10000)
       None None 1 1000000000000) eq_refl)))).
Defined.

(** ** The token bucket: what a decision reports *)

(** X12: with a cost that is not negative and a stored bucket between [0]
    and [capacity], the [remaining] of the token bucket is the whole part
    of the tokens left: a whole number between [0] and [capacity], at most
    the tokens and less than one below them. *)
Theorem tokenBucket_remaining_is_whole_tokens
    (config : TokenBucket.Config) (alg : Types.Algorithm TokenBucket.State)
    (state : option TokenBucket.State) (cost now : Q) :
  TokenBucket.tokenBucket config = Types.Ok alg ->
  TokenBucket.prior_ok config state -> 0 <= cost ->
  let out := Types.compute alg state cost now in
  let remaining := Types.p_remaining (Types.result out) in
  (exists k : Z, (0 <= k)%Z /\ remaining = inject_Z k) /\
  remaining <= TokenBucket.capacity config /\
  remaining <= TokenBucket.tokens (Types.state out) /\
  TokenBucket.tokens (Types.state out) < remaining + 1 /\
  Types.p_limit (Types.result out) = TokenBucket.capacity config.
Proof.
  intros Hc Hok Hcost out remaining.
  destruct (compute_preserves_bucket config alg Hc state cost now Hok Hcost)
    as [H0 H1].
  fold out in H0, H1.
  assert (remaining =
          JsMath.max 0 (JsMath.floor (TokenBucket.tokens (Types.state out)))
          /\ Types.p_limit (Types.result out) = TokenBucket.capacity config)
    as [Hrem Hlim].
  { subst remaining out. rewrite (compute_unfold config alg Hc).
    destruct (TokenBucket.admission config _ cost) as [[s a] r].
    split; reflexivity. }
  rewrite Hrem. unfold JsMath.floor. rewrite max_zero_whole.
  pose proof (floor_le (TokenBucket.tokens (Types.state out))) as Hfl.
  pose proof (floor_gt (TokenBucket.tokens (Types.state out))) as Hfg.
  unfold JsMath.floor in Hfl, Hfg.
  set (z := Qfloor (TokenBucket.tokens (Types.state out))) in *.
  assert (0 <= z)%Z as Hz.
  { assert (inject_Z (-1) < inject_Z z) as Hlt
      by (change (inject_Z (-1)) with (-1 # 1); lra).
    rewrite <- Zlt_Qlt in Hlt. lia. }
  rewrite Z.max_r by lia.
  split; [exists z; split; [exact Hz | reflexivity] |].
  repeat split; try lra. exact Hlim.
Qed.

Lemma tokenBucket_remaining_is_whole_tokens_witness :
  let out :=
    Types.compute (Fixtures.bucket_of 10 1)
      (Some (TokenBucket.mkState (5 # 2) 0)) 1 250 in
  let remaining := Types.p_remaining (Types.result out) in
  (exists k : Z, (0 <= k)%Z /\ remaining = inject_Z k) /\
  remaining <= 10 /\
  remaining <= TokenBucket.tokens (Types.state out) /\
  TokenBucket.tokens (Types.state out) < remaining + 1 /\
  Types.p_limit (Types.result out) = 10.
Proof.
  apply (tokenBucket_remaining_is_whole_tokens (TokenBucket.mkConfig 10 1)
           (Fixtures.bucket_of 10 1) (Some (TokenBucket.mkState (5 # 2) 0))
           1 250 eq_refl).
  - split; cbn; lra.
  - lra.
Defined.

(** ** Series of requests *)

Section TokenBucketSeries.
Import TokenBucket.
Variable config : Config.
Variable alg : Types.Algorithm State.
Hypothesis constructed : tokenBucket config = Types.Ok alg.



End TokenBucketSeries.



(** ** Series of requests within one window *)

Section SlidingWindowSeries.
Import SlidingWindow.
Variable config : Config.
Hypothesis window_pos : 0 < windowMs config.

Lemma serve_within_window requests : forall s W,
  windowStart s == W -> counts_ok s ->
  Forall (fun q => 0 <= q.1 /\ curWindowStart config q.2 == W) requests ->
  (Fixtures.serve (Types.mkAlgorithm Types.sliding (compute config))
     (Some s) requests).1
  <= JsMath.max 0 (limit config - count s).
Proof using window_pos.
  induction requests as [| [cost now] rest IH]; intros s W Hw [Hc Hp] Hall.
  - cbn. apply max_ge_l.
  - apply Forall_cons_iff in Hall as [[Hcost Hnow] Hall]. cbn [fst snd] in *.
    cbn [Fixtures.serve Types.compute].
    pose proof (compute_allowed config (Some s) cost now) as Hallowed.
    pose proof (compute_state config (Some s) cost now) as Hstate.
    assert (rolled config (Some s) now = s) as Hrolled
      by (apply rollover_same_window; cbn; lra).
    rewrite Hrolled in Hallowed, Hstate.
    rewrite Hstate, Hallowed. clear Hallowed Hstate.
    specialize (IH (charge s cost) W).
    destruct (Fixtures.serve _ (Some (charge s cost)) rest) as [a f].
    cbn [fst snd] in *.
    assert (a <= JsMath.max 0 (limit config - (count s + cost))) as Ha.
    { apply IH; [cbn; exact Hw | split; cbn; lra | exact Hall]. }
    pose proof (max_ge_l 0 (limit config - count s)) as M0.
    pose proof (max_ge_r 0 (limit config - count s)) as M1.
    unfold JsMath.max in *.
    destruct (Q.max_spec 0 (limit config - (count s + cost)))
      as [[Hm1 Hm2] | [Hm1 Hm2]]; rewrite Hm2 in Ha.
    + destruct (JsMath.leb _ _); lra.
    + destruct (JsMath.leb _ _) eqn:Hdec; [| lra].
      apply leb_true in Hdec.
      pose proof (effective_ge_count config window_pos (charge s cost) now)
        as Hge.
      cbn in Hge. specialize (Hge Hp). lra.
Qed.
End SlidingWindowSeries.

(** X14: within one window the sliding window never admits more than the
    limit.  For any series of requests with costs [>= 0] whose clock
    readings all fall in one window, served from a state of that window
    with counters [>= 0], the cost admitted in total is at most
    [max(0, limit - count)]; served from no state it is at most [limit]. *)
Theorem slidingWindow_admits_at_most_limit_per_window
    (config : SlidingWindow.Config) (alg : Types.Algorithm SlidingWindow.State)
    (requests : list (Q * Q)) (W : Q) :
  SlidingWindow.slidingWindow config = Types.Ok alg ->
  Forall (fun q => 0 <= q.1 /\ SlidingWindow.curWindowStart config q.2 == W)
         requests ->
  (forall s : SlidingWindow.State,
     SlidingWindow.windowStart s == W -> SlidingWindow.counts_ok s ->
     (Fixtures.serve alg (Some s) requests).1
     <= JsMath.max 0 (SlidingWindow.limit config - SlidingWindow.count s)) /\
  (Fixtures.serve alg None requests).1 <= SlidingWindow.limit config.
Proof.
  intros Hc Hall.
  destruct (slidingWindow_config config alg Hc) as (Hl & Hw & Hcompute).
  assert (alg = Types.mkAlgorithm Types.sliding (SlidingWindow.compute config))
    as ->.
  { unfold SlidingWindow.slidingWindow in Hc.
    destruct (JsMath.leb (SlidingWindow.limit config) 0); [discriminate |].
    destruct (JsMath.leb (SlidingWindow.windowMs config) 0); [discriminate |].
    congruence. }
  split.
  - intros s Hs Hok. apply (serve_within_window config Hw requests s W); assumption.
  - destruct requests as [| [cost now] rest]; [cbn; lra |].
    assert (Fixtures.serve
              (Types.mkAlgorithm Types.sliding (SlidingWindow.compute config))
              None ((cost, now) :: rest)
            = Fixtures.serve
                (Types.mkAlgorithm Types.sliding (SlidingWindow.compute config))
                (Some (SlidingWindow.rolled config None now))
                ((cost, now) :: rest)) as ->.
    { cbn [Fixtures.serve Types.compute].
      rewrite (compute_via_rolled config None
                 (Some (SlidingWindow.rolled config None now)) cost now);
        [reflexivity |].
      rewrite !rolled_absent. unfold SlidingWindow.rolled. cbn.
      symmetry. apply rollover_same_window. reflexivity. }
    apply Forall_cons_iff in Hall as Hall'. destruct Hall' as [[_ Hnow] _].
    cbn [snd] in Hnow.
    pose proof (serve_within_window config Hw ((cost, now) :: rest)
                  (SlidingWindow.rolled config None now) W) as Hbound.
    rewrite rolled_absent in *.
    assert (SlidingWindow.counts_ok
              (SlidingWindow.mkState (SlidingWindow.curWindowStart config now) 0
                 (SlidingWindow.prevWindowStart config now) 0)) as Hok
      by (split; cbn; lra).
    specialize (Hbound Hnow Hok Hall).
    cbn [SlidingWindow.count] in Hbound.
    assert (JsMath.max 0 (SlidingWindow.limit config - 0)
            <= SlidingWindow.limit config) as Hmax
      by (apply Q.max_lub; lra).
    lra.
Qed.

Lemma slidingWindow_admits_at_most_limit_per_window_witness :
  (Fixtures.serve (Fixtures.sliding_of 5 1000) None
     [(2, 4000); (2, 4100); (2, 4900); (1, 4500); (1, 4999)]).1 <= 5.
Proof.
  refine (proj2
    (slidingWindow_admits_at_most_limit_per_window
       (SlidingWindow.mkConfig 5 1000) (Fixtures.sliding_of 5 1000)
       [(2, 4000); (2, 4100); (2, 4900); (1, 4500); (1, 4999)] 4000
       eq_refl _)).
  repeat constructor; cbn; try lra; vm_compute; reflexivity.
Defined.

(** ** The memory store: what each operation touches *)

Section MemoryStoreMore.
Import Runtime MemoryStore.
Context {S : Type}.
Implicit Types (w : World (gmap string (Entry S))) (map : gmap string (Entry S)).

Lemma cleanup_lookup_Some now map key (e : Entry S) :
  cleanup now map !! key = Some e <->
  map !! key = Some e /\ now < expiresAt e.
Proof.
  rewrite cleanup_lookup. destruct (map !! key) as [v |].
  - destruct (JsMath.leb (expiresAt v) now) eqn:Hexp.
    + apply leb_true in Hexp. split; [discriminate |].
      intros [Hv Hlt]. injection Hv as <-. lra.
    + apply leb_false in Hexp. split.
      * intros Hv. injection Hv as <-. auto.
      * intros [Hv _]. exact Hv.
  - split; [discriminate | intros [Hv _]; discriminate].
Qed.

(** Pruning at a time that has passed does not change what is found. *)
Lemma stored_after_cleanup now map key t :
  now <= t ->
  stored (mkWorld t (cleanup now map)) key = stored (mkWorld t map) key.
Proof.
  intros Hle. unfold stored. cbn [heap clock]. rewrite cleanup_lookup.
  destruct (map !! key) as [v |]; [| reflexivity].
  destruct (JsMath.leb (expiresAt v) now) eqn:Hexp; [| reflexivity].
  apply leb_true in Hexp.
  assert (expiresAt v <= t) as Hexp' by lra.
  apply leb_true in Hexp'. rewrite Hexp'. reflexivity.
Qed.
End MemoryStoreMore.

(** X15: [load] only prunes.  It resolves to the state stored under the
    key if its entry has not expired; it leaves the clock alone; the
    entries left are exactly the former entries that have not expired, so
    none is added or changed and none that expired is kept; and what any
    key holds at any time from then on is what it held before. *)
Theorem memoryStore_load_only_prunes {S : Type}
    (w : Runtime.World (gmap string (MemoryStore.Entry S))) (k : string) :
  exists w',
    Runtime.load MemoryStore.memoryStore k w
      = Runtime.Resolved (MemoryStore.stored w k, w') /\
    Runtime.clock w' = Runtime.clock w /\
    (forall k' e,
       Runtime.heap w' !! k' = Some e <->
       Runtime.heap w !! k' = Some e /\ Runtime.clock w < MemoryStore.expiresAt e) /\
    (forall k' t, Runtime.clock w <= t ->
       MemoryStore.stored (Runtime.setSystemTime t w') k'
       = MemoryStore.stored (Runtime.setSystemTime t w) k').
Proof.
  eexists. split; [apply load_resolves |]. split; [reflexivity |]. split.
  - intros k' e. apply cleanup_lookup_Some.
  - intros k' t Ht. apply stored_after_cleanup. exact Ht.
Qed.

Lemma memoryStore_load_only_prunes_witness :
  let w :=
    Runtime.mkWorld 100
      (<["a"%string := MemoryStore.mkEntry 1%nat 50]>
         (<["b"%string := MemoryStore.mkEntry 2%nat 150]> ∅)) in
  exists w',
    Runtime.load MemoryStore.memoryStore "a"%string w
      = Runtime.Resolved (None, w') /\
    MemoryStore.stored (Runtime.setSystemTime 120 w') "b"%string = Some 2%nat.
Proof.
  intros w.
  destruct (memoryStore_load_only_prunes w "a"%string)
    as (w' & Hload & _ & _ & Hsame).
  exists w'. split; [exact Hload |].
  rewrite Hsame by (cbn; lra). reflexivity.
Defined.

(** X16: [save] touches one key.  It always resolves and leaves the clock
    alone; under its key it puts the state with expiry [now + ttlMs],
    replacing what was there; every other key keeps its entry if that has
    not expired and loses it otherwise, so what another key holds at any
    time from then on is what it held before. *)
Theorem memoryStore_save_touches_one_key {S : Type}
    (w : Runtime.World (gmap string (MemoryStore.Entry S)))
    (k : string) (s : S) (ttl : Q) :
  exists w',
    Runtime.save MemoryStore.memoryStore k s ttl w = Runtime.Resolved (tt, w') /\
    Runtime.clock w' = Runtime.clock w /\
    Runtime.heap w' !! k = Some (MemoryStore.mkEntry s (Runtime.clock w + ttl)) /\
    (forall k' e, k' <> k ->
       (Runtime.heap w' !! k' = Some e <->
        Runtime.heap w !! k' = Some e /\ Runtime.clock w < MemoryStore.expiresAt e)) /\
    (forall k' t, k' <> k -> Runtime.clock w <= t ->
       MemoryStore.stored (Runtime.setSystemTime t w') k'
       = MemoryStore.stored (Runtime.setSystemTime t w) k').
Proof.
  eexists. split; [apply save_resolves |]. split; [reflexivity |].
  split; [apply lookup_insert_eq |]. split.
  - intros k' e Hne. cbn [Runtime.heap].
    rewrite lookup_insert_ne by congruence. apply cleanup_lookup_Some.
  - intros k' t Hne Ht. unfold Runtime.setSystemTime. cbn [Runtime.heap].
    rewrite <- (stored_after_cleanup (Runtime.clock w) (Runtime.heap w) k' t Ht).
    unfold MemoryStore.stored. cbn [Runtime.heap Runtime.clock].
    rewrite lookup_insert_ne by congruence. reflexivity.
Qed.

Lemma memoryStore_save_touches_one_key_witness :
  let w :=
    Runtime.mkWorld 100
      (<["a"%string := MemoryStore.mkEntry 1%nat 50]>
         (<["b"%string := MemoryStore.mkEntry 2%nat 150]> ∅)) in
  exists w',
    Runtime.save MemoryStore.memoryStore "a"%string 7%nat 10 w
      = Runtime.Resolved (tt, w') /\
    Runtime.heap w' !! "a"%string = Some (MemoryStore.mkEntry 7%nat (100 + 10)) /\
    MemoryStore.stored (Runtime.setSystemTime 120 w') "b"%string = Some 2%nat.
Proof.
  intros w.
  destruct (memoryStore_save_touches_one_key w "a"%string 7%nat 10)
    as (w' & Hsave & _ & Hkey & _ & Hsame).
  exists w'. split; [exact Hsave |]. split; [exact Hkey |].
  rewrite Hsame by (cbn; try discriminate; lra). reflexivity.
Defined.

(** X17: the memory store offers [reset], and [reset] forgets one key.
    It always resolves, on a key that is stored or not; afterwards a load
    of the key finds nothing at any time, and every other entry is as it
    was, expired or not: [reset] does not prune. *)
Theorem memoryStore_reset_forgets_one_key {S : Type}
    (w : Runtime.World (gmap string (MemoryStore.Entry S))) (k : string) :
  exists reset w',
    Runtime.reset (@MemoryStore.memoryStore S) = Some reset /\
    reset k w = Runtime.Resolved (tt, w') /\
    Runtime.clock w' = Runtime.clock w /\
    (forall t,
       Fixtures.decision
         (Runtime.load MemoryStore.memoryStore k (Runtime.setSystemTime t w'))
       = Some None) /\
    (forall k', k' <> k -> Runtime.heap w' !! k' = Runtime.heap w !! k') /\
    (Runtime.heap w !! k = None -> w' = w).
Proof.
  eexists _, _. split; [reflexivity |]. split; [reflexivity |].
  split; [reflexivity |]. split; [| split].
  - intros t. cbn [Runtime.load MemoryStore.memoryStore].
    rewrite load_resolves. cbn [Fixtures.decision].
    unfold MemoryStore.stored, Runtime.setSystemTime.
    cbn [Runtime.heap Runtime.clock]. rewrite lookup_delete_eq. reflexivity.
  - intros k' Hne. cbn [Runtime.heap]. apply lookup_delete_ne. congruence.
  - intros Hnone. destruct w as [c h]. cbn in *. f_equal.
    apply delete_id. exact Hnone.
Qed.

Lemma memoryStore_reset_forgets_one_key_witness :
  let w :=
    Runtime.mkWorld 100
      (<["a"%string := MemoryStore.mkEntry 1%nat 500]>
         (<["b"%string := MemoryStore.mkEntry 2%nat 150]> ∅)) in
  exists reset w',
    Runtime.reset (@MemoryStore.memoryStore nat) = Some reset /\
    reset "a"%string w = Runtime.Resolved (tt, w') /\
    Fixtures.decision
      (Runtime.load MemoryStore.memoryStore "a"%string
         (Runtime.setSystemTime 100 w')) = Some None /\
    Runtime.heap w' !! "b"%string = Some (MemoryStore.mkEntry 2%nat 150).
Proof.
  intros w.
  destruct (memoryStore_reset_forgets_one_key w "a"%string)
    as (reset & w' & Hreset & Hrun & _ & Hgone & Hother & _).
  exists reset, w'. split; [exact Hreset |]. split; [exact Hrun |].
  split; [apply Hgone |]. rewrite Hother by discriminate. reflexivity.
Defined.

(** ** The orchestrator: cost and keys *)

(** X18: whatever the cost function returns, the cost handed to the
    algorithm is never [NaN], never negative and never fractional: it is
    [Infinity], exactly when the cost function returned [Infinity], or a
    whole number [>= 0]; and it is [0] exactly when the cost function
    returned a negative number or [-Infinity]. *)
Theorem cost_is_whole_and_not_negative {H S Ctx : Type}
    (this : Ratelimit.Ratelimit H S Ctx) (ctx : Ctx) :
  (Ratelimit.cost this ctx = JsNumber.PosInf \/
   exists n : Z, (0 <= n)%Z /\
     Ratelimit.cost this ctx = JsNumber.Fin (inject_Z n)) /\
  (Ratelimit.cost this ctx = JsNumber.PosInf <->
   Ratelimit.costFn this ctx = JsNumber.PosInf) /\
  (Ratelimit.cost this ctx = JsNumber.Fin 0 <->
   Ratelimit.costFn this ctx = JsNumber.NegInf \/
   exists q, Ratelimit.costFn this ctx = JsNumber.Fin q /\ q < 0).
Proof.
  unfold Ratelimit.cost.
  destruct (Ratelimit.costFn this ctx) as [q | | |] eqn:Hraw.
  - cbn [JsNumber.floor]. unfold JsNumber.or, JsNumber.truthy, JsMath.floor.
    pose proof (Qfloor_le q) as Hfl. pose proof (Qlt_floor q) as Hfg.
    rewrite inject_Z_plus in Hfg. change (inject_Z 1) with 1 in Hfg.
    set (z := Qfloor q) in *.
    destruct (JsMath.neqb (inject_Z z) 0) eqn:Hz.
    + apply neqb_true in Hz. cbn [JsNumber.max]. rewrite max_zero_whole.
      assert (z <> 0)%Z as Hz' by (intros ->; apply Hz; reflexivity).
      split; [right; exists (Z.max 0 z); split; [lia | reflexivity] |].
      split; [split; discriminate |].
      split.
      * intros Heq. right. exists q. split; [reflexivity |].
        injection Heq as Heq. change 0 with (inject_Z 0) in Heq.
        assert (Z.max 0 z = 0)%Z as Hmax.
        { unfold inject_Z in Heq. congruence. }
        assert (inject_Z z <= inject_Z (-1)) as Hle by (rewrite <- Zle_Qle; lia).
        change (inject_Z (-1)) with (-1 # 1) in Hle. lra.
      * intros [Hinf | (q' & Hq' & Hneg)]; [discriminate |].
        injection Hq' as <-.
        assert (inject_Z z < inject_Z 0) as Hlt
          by (change (inject_Z 0) with 0; lra).
        rewrite <- Zlt_Qlt in Hlt. rewrite Z.max_l by lia. reflexivity.
    + apply neqb_false in Hz. cbn [JsNumber.max].
      assert (z = 0)%Z as Hz' by (apply inject_Z_injective; exact Hz).
      change (JsMath.max 0 1) with (inject_Z 1).
      split; [right; exists 1%Z; split; [lia | reflexivity] |].
      split; [split; discriminate |].
      split; [discriminate |].
      intros [Hinf | (q' & Hq' & Hneg)]; [discriminate |].
      injection Hq' as <-. subst z. rewrite Hz' in Hfl.
      change (inject_Z 0) with 0 in Hfl. lra.
  - cbn. split; [right; exists 1%Z; split; [lia | reflexivity] |].
    split; [split; discriminate |]. split; [discriminate |].
    intros [Hinf | (q & Hq & _)]; discriminate.
  - cbn. split; [left; reflexivity |].
    split; [split; reflexivity |]. split; [discriminate |].
    intros [Hinf | (q & Hq & _)]; discriminate.
  - cbn. split; [right; exists 0%Z; split; [lia | reflexivity] |].
    split; [split; discriminate |].
    split; [intros _; left; reflexivity | reflexivity].
Qed.

Lemma cost_is_whole_and_not_negative_witness :
  Ratelimit.cost
    (Fixtures.limiter (Fixtures.bucket_of 10 1)
       (Some (fun _ => JsNumber.Fin (-5)))) tt = JsNumber.Fin 0.
Proof.
  apply (cost_is_whole_and_not_negative
           (Fixtures.limiter (Fixtures.bucket_of 10 1)
              (Some (fun _ => JsNumber.Fin (-5)))) tt).
  right. exists (-5). split; [reflexivity | lra].
Defined.

Lemma append_colon_inj (ns1 : string) : forall (ns2 k1 k2 : string),
  Fixtures.has_colon ns1 = false -> Fixtures.has_colon ns2 = false ->
  ns1 +:+ ":" +:+ k1 = ns2 +:+ ":" +:+ k2 ->
  ns1 = ns2 /\ k1 = k2.
Proof.
  induction ns1 as [| c1 r1 IH]; intros [| c2 r2] k1 k2 H1 H2 Heq.
  - injection Heq as Heq. split; [reflexivity | exact Heq].
  - injection Heq as Hc _. subst c2. cbn in H2. discriminate.
  - injection Heq as Hc _. subst c1. cbn in H1. discriminate.
  - injection Heq as Hc Heq. subst c2.
    cbn [Fixtures.has_colon] in H1, H2.
    apply orb_false_iff in H1 as [_ H1]. apply orb_false_iff in H2 as [_ H2].
    destruct (IH r2 k1 k2 H1 H2 Heq) as [Hns Hk]. subst. auto.
Qed.

(** X19: the full key is the namespace, a colon and the caller's key.
    Two limiters whose namespaces hold no colon use the same full key only
    if their namespaces and the keys are the same; a namespace that holds
    a colon can collide: namespace ["a"] with key ["b:c"] and namespace
    ["a:b"] with key ["c"] share the full key ["a:b:c"]. *)
Theorem fullKey_separates_namespaces {H S Ctx1 Ctx2 : Type}
    (this1 : Ratelimit.Ratelimit H S Ctx1) (this2 : Ratelimit.Ratelimit H S Ctx2)
    (ctx1 : Ctx1) (ctx2 : Ctx2) :
  (Fixtures.has_colon (Ratelimit.namespace this1) = false ->
   Fixtures.has_colon (Ratelimit.namespace this2) = false ->
   Ratelimit.fullKey this1 ctx1 = Ratelimit.fullKey this2 ctx2 ->
   Ratelimit.namespace this1 = Ratelimit.namespace this2 /\
   Ratelimit.keyFn this1 ctx1 = Ratelimit.keyFn this2 ctx2) /\
  (forall (store : Runtime.Store H S) (alg : Types.Algorithm S),
     Ratelimit.fullKey (Fixtures.keyed store alg "a" "b:c") tt
     = Ratelimit.fullKey (Fixtures.keyed store alg "a:b" "c") tt).
Proof.
  split.
  - unfold Ratelimit.fullKey. apply append_colon_inj.
  - intros store alg. reflexivity.
Qed.

Lemma fullKey_separates_namespaces_witness :
  Ratelimit.namespace
    (Fixtures.keyed (@MemoryStore.memoryStore TokenBucket.State)
       (Fixtures.bucket_of 5 1) "api" "user:1")
  = Ratelimit.namespace
      (Fixtures.keyed (@MemoryStore.memoryStore TokenBucket.State)
         (Fixtures.bucket_of 5 1) "api" "user:1") /\
  Ratelimit.keyFn
    (Fixtures.keyed (@MemoryStore.memoryStore TokenBucket.State)
       (Fixtures.bucket_of 5 1) "api" "user:1") tt
  = Ratelimit.keyFn
      (Fixtures.keyed (@MemoryStore.memoryStore TokenBucket.State)
         (Fixtures.bucket_of 5 1) "api" "user:1") tt.
Proof.
  apply (fullKey_separates_namespaces
           (Fixtures.keyed (@MemoryStore.memoryStore TokenBucket.State)
              (Fixtures.bucket_of 5 1) "api" "user:1")
           (Fixtures.keyed (@MemoryStore.memoryStore TokenBucket.State)
              (Fixtures.bucket_of 5 1) "api" "user:1") tt tt);
    reflexivity.
Defined.

Section LimitOnAnyStore.
Import Runtime.
Context {H S Ctx : Type}.
Variable this : Ratelimit.Ratelimit H S Ctx.
Variable ctx : Ctx.

(** [limit] is [load], then [compute] at the time read before the load,
    then [save]; the first rejection ends it. *)
Lemma limit_unfold (c : Q) (w : World H) :
  Ratelimit.cost this ctx = JsNumber.Fin c ->
  Ratelimit.limit this ctx w =
  match load (Ratelimit.store this) (Ratelimit.fullKey this ctx) w with
  | Resolved (state, w1) =>
      let out := Types.compute (Ratelimit.algorithm this) state c (clock w) in
      match save (Ratelimit.store this) (Ratelimit.fullKey this ctx)
              (Types.state out) (Types.ttlMs out) w1 with
      | Resolved (_, w2) =>
          Resolved (Types.with_now (Types.result out) (clock w), w2)
      | Rejected msg => Rejected msg
      | Unmodelled => Unmodelled
      end
  | Rejected msg => Rejected msg
  | Unmodelled => Unmodelled
  end.
Proof.
  intros Hcost. unfold Ratelimit.limit. unfold bind at 1. cbn [Date_now].
  unfold bind at 1. rewrite Hcost. cbn [Ratelimit.finite ret].
  unfold bind at 1.
  destruct (load (Ratelimit.store this) (Ratelimit.fullKey this ctx) w)
    as [[state w1] | msg |]; [| reflexivity | reflexivity].
  cbn zeta. unfold bind at 1.
  destruct (save _ _ _ _ w1) as [[u w2] | msg |]; reflexivity.
Qed.
End LimitOnAnyStore.

Lemma stored_insert_ne {S : Type} (map : gmap string (MemoryStore.Entry S))
    (k k' : string) (e : MemoryStore.Entry S) (t : Q) :
  k' <> k ->
  MemoryStore.stored (Runtime.mkWorld t (<[k := e]> map)) k'
  = MemoryStore.stored (Runtime.mkWorld t map) k'.
Proof.
  intros Hne. unfold MemoryStore.stored. cbn [Runtime.heap].
  rewrite lookup_insert_ne by congruence. reflexivity.
Qed.

(** X20: on the memory store a call with a finite cost always resolves.
    The decision is the algorithm's on what the store holds for the full
    key at the time of the call, with [now] that time; the returned state
    is saved under the full key with the lifetime the algorithm asked for,
    whether the request was allowed or denied; and what any other key
    holds, then or later, is not changed. *)
Theorem limit_on_memoryStore_touches_one_key {S Ctx : Type}
    (this : Ratelimit.Ratelimit (gmap string (MemoryStore.Entry S)) S Ctx)
    (ctx : Ctx) (c : Q)
    (w : Runtime.World (gmap string (MemoryStore.Entry S))) :
  Ratelimit.store this = MemoryStore.memoryStore ->
  Ratelimit.cost this ctx = JsNumber.Fin c ->
  let key := Ratelimit.fullKey this ctx in
  let out :=
    Types.compute (Ratelimit.algorithm this) (MemoryStore.stored w key) c
      (Runtime.clock w) in
  exists w',
    Ratelimit.limit this ctx w
      = Runtime.Resolved (Types.with_now (Types.result out) (Runtime.clock w), w') /\
    Runtime.clock w' = Runtime.clock w /\
    Runtime.heap w' !! key
      = Some (MemoryStore.mkEntry (Types.state out)
                (Runtime.clock w + Types.ttlMs out)) /\
    (forall k' t, k' <> key -> Runtime.clock w <= t ->
       MemoryStore.stored (Runtime.setSystemTime t w') k'
       = MemoryStore.stored (Runtime.setSystemTime t w) k').
Proof.
  intros Hstore Hcost key out. subst key out.
  rewrite (limit_unfold this ctx c w Hcost), Hstore.
  cbn [Runtime.load Runtime.save MemoryStore.memoryStore].
  rewrite load_resolves. cbn zeta. rewrite save_resolves.
  eexists. split; [reflexivity |]. cbn [Runtime.clock Runtime.heap].
  split; [reflexivity |]. split; [apply lookup_insert_eq |].
  intros k' t Hne Ht. unfold Runtime.setSystemTime. cbn [Runtime.heap].
  rewrite stored_insert_ne by exact Hne.
  rewrite !stored_after_cleanup by exact Ht. reflexivity.
Qed.

Lemma limit_on_memoryStore_touches_one_key_witness :
  let this :=
    Fixtures.keyed MemoryStore.memoryStore (Fixtures.bucket_of 1 1) "api" "u1" in
  let w :=
    Runtime.mkWorld 100
      (<["api:u2"%string := MemoryStore.mkEntry (TokenBucket.mkState 0 90) 5000]>
         ∅) in
  exists w',
    Ratelimit.limit this tt w
      = Runtime.Resolved
          (Types.with_now
             (Types.result
                (Types.compute (Fixtures.bucket_of 1 1)
                   (MemoryStore.stored w "api:u1") 1 100)) 100, w') /\
    MemoryStore.stored (Runtime.setSystemTime 100 w') "api:u2"
    = Some (TokenBucket.mkState 0 90).
Proof.
  intros this w.
  destruct (limit_on_memoryStore_touches_one_key this tt 1 w eq_refl eq_refl)
    as (w' & Hrun & _ & _ & Hother).
  exists w'. split; [exact Hrun |].
  rewrite Hother; [reflexivity | discriminate | cbn; lra].
Defined.

(** ** Headers: what is emitted *)

Ltac header_cases H :=
  repeat match type of H with
    | <[_ := _]> _ !! _ = Some _ =>
        apply lookup_insert_Some in H as [[<- <-] | [_ H]]
    | Headers.retry_after_header _ _ _ !! _ = Some _ =>
        unfold Headers.retry_after_header in H;
        destruct (Types.retryAfter _)
    | ∅ !! _ = Some _ =>
        rewrite lookup_empty in H; discriminate H
    end.

(** X22: [build] writes no header of its own invention: every name in the
    result is one of the three standard names, the three legacy names,
    [Retry-After] and [RateLimit-Policy]. *)
Theorem build_emits_known_names_only (String_ : Q -> string)
    (result : Types.LimitResult) (opts : option Headers.HeadersOptions)
    (name value : string) :
  Headers.build String_ result opts !! name = Some value ->
  In name (Headers.standard_names ++ Headers.legacy_names
           ++ "Retry-After"%string :: Headers.policy_names).
Proof.
  intros Hin.
  destruct (decide (name = "RateLimit-Policy"%string)) as [-> | Hne].
  { cbn. tauto. }
  rewrite build_lookup_not_policy in Hin by exact Hne. cbn zeta in Hin.
  destruct (Headers.standard_of _), (Headers.legacy_of _);
    header_cases Hin; cbn; tauto.
Qed.

Lemma build_emits_known_names_only_witness :
  In "X-RateLimit-Reset"%string
     (Headers.standard_names ++ Headers.legacy_names
      ++ "Retry-After"%string :: Headers.policy_names).
Proof.
  apply (build_emits_known_names_only Headers.decimal Headers.mockDeniedResult
           (Some (Headers.mkOptions (Some false) (Some true) None))
           "X-RateLimit-Reset" "1234567890").
  vm_compute. reflexivity.
Defined.

(** X23: an enabled family emits its three headers, each the rendering of
    the decision's [limit], [remaining] and [reset]; with both families
    enabled the legacy headers repeat the standard ones.  The policy
    header is emitted exactly when the policy family is enabled and the
    decision carries a policy that is not the empty string, and it is that
    policy. *)
Theorem build_emits_enabled_families (String_ : Q -> string)
    (result : Types.LimitResult) (opts : option Headers.HeadersOptions) :
  let o := default Headers.empty_options opts in
  let out := Headers.build String_ result opts in
  (Headers.standard_of o = true ->
   out !! "RateLimit-Limit"%string = Some (String_ (Types.limit result)) /\
   out !! "RateLimit-Remaining"%string = Some (String_ (Types.remaining result)) /\
   out !! "RateLimit-Reset"%string = Some (String_ (Types.reset result))) /\
  (Headers.legacy_of o = true ->
   out !! "X-RateLimit-Limit"%string = Some (String_ (Types.limit result)) /\
   out !! "X-RateLimit-Remaining"%string = Some (String_ (Types.remaining result)) /\
   out !! "X-RateLimit-Reset"%string = Some (String_ (Types.reset result))) /\
  (forall p, out !! "RateLimit-Policy"%string = Some p <->
     Headers.policy_of o = true /\ Types.policy result = Some p /\ p <> ""%string).
Proof.
  intros o out. subst out. split; [| split].
  - intros Hs.
    repeat split; rewrite build_lookup_not_policy by discriminate; cbn zeta;
      fold o; rewrite Hs; destruct (Headers.legacy_of o); header_lookups.
  - intros Hl.
    repeat split; rewrite build_lookup_not_policy by discriminate; cbn zeta;
      fold o; rewrite Hl; destruct (Headers.standard_of o); header_lookups.
  - intros p. rewrite build_lookup_policy. fold o.
    destruct (Types.policy result) as [p' |].
    + destruct (Headers.policy_of o); cbn [andb].
      * destruct (String.eqb p' "") eqn:Hp; cbn [negb].
        -- apply String.eqb_eq in Hp. subst p'. split; [discriminate |].
           intros (_ & Heq & Hne). injection Heq as <-. congruence.
        -- apply String.eqb_neq in Hp. split.
           ++ intros Heq. injection Heq as <-. auto.
           ++ intros (_ & Heq & _). exact Heq.
      * split; [discriminate | intros (Hf & _); discriminate].
    + split; [discriminate | intros (_ & Hf & _); discriminate].
Qed.

Lemma build_emits_enabled_families_witness :
  let out :=
    Headers.build Headers.decimal Headers.mockResult
      (Some (Headers.mkOptions (Some true) (Some true) None)) in
  out !! "X-RateLimit-Limit"%string = Some (Headers.decimal 100) /\
  out !! "X-RateLimit-Remaining"%string = Some (Headers.decimal 95) /\
  out !! "X-RateLimit-Reset"%string = Some (Headers.decimal 1234567890).
Proof.
  apply (build_emits_enabled_families Headers.decimal Headers.mockResult
           (Some (Headers.mkOptions (Some true) (Some true) None))).
  reflexivity.
Defined.

(** ** Bursts through the limiter *)

Lemma slidingWindow_is (config : SlidingWindow.Config)
    (alg : Types.Algorithm SlidingWindow.State) :
  SlidingWindow.slidingWindow config = Types.Ok alg ->
  alg = Types.mkAlgorithm Types.sliding (SlidingWindow.compute config).
Proof.
  unfold SlidingWindow.slidingWindow.
  destruct (JsMath.leb (SlidingWindow.limit config) 0); [discriminate |].
  destruct (JsMath.leb (SlidingWindow.windowMs config) 0); [discriminate |].
  congruence.
Qed.

Lemma tokenBucket_is (config : TokenBucket.Config)
    (alg : Types.Algorithm TokenBucket.State) :
  TokenBucket.tokenBucket config = Types.Ok alg ->
  alg = Types.mkAlgorithm Types.tokenBucket (TokenBucket.compute config).
Proof.
  unfold TokenBucket.tokenBucket.
  destruct (JsMath.leb (TokenBucket.capacity config) 0); [discriminate |].
  destruct (JsMath.leb (TokenBucket.refillRatePerSec config) 0); [discriminate |].
  congruence.
Qed.

Lemma counting_proper (config : SlidingWindow.Config) (t c c' : Q)
    (state : option SlidingWindow.State) :
  c == c' ->
  SlidingWindow.counting config t c state ->
  SlidingWindow.counting config t c' state.
Proof.
  intros Heq. destruct state as [s |]; cbn.
  - intros (Hw & Hp & Hc). repeat split; try assumption. lra.
  - intros Hc. lra.
Qed.

Lemma first_allowed_from (n : nat) : forall m i,
  List.map (fun j => Some (Nat.ltb j n)) (List.seq i (Datatypes.S m)) =
  Some (Nat.ltb i n) :: List.map (fun j => Some (Nat.ltb j n)) (List.seq (Datatypes.S i) m).
Proof. reflexivity. Qed.

Lemma burst_counting (config : SlidingWindow.Config) (n : nat) :
  SlidingWindow.limit config == inject_Z (Z.of_nat n) ->
  forall (m i : nat)
         (w : Runtime.World (gmap string (MemoryStore.Entry SlidingWindow.State))),
    SlidingWindow.counting config (Runtime.clock w) (inject_Z (Z.of_nat i))
      (MemoryStore.stored w "default:test") ->
    Fixtures.verdicts
      (Fixtures.burst
         (Fixtures.limiter
            (Types.mkAlgorithm Types.sliding (SlidingWindow.compute config)) None)
         tt m w).1
    = List.map (fun j => Some (Nat.ltb j n)) (List.seq i m).
Proof.
  intros Hlimit. induction m as [| m IH]; intros i w Hcnt; [reflexivity |].
  destruct (limit_counting config _ w Hcnt) as (r & w' & Hrun & Ha & Hclock & Hnext).
  rewrite (burst_step _ _ _ _ _ _ Hrun), first_allowed_from.
  cbn [fst Fixtures.verdicts List.map option_map].
  fold (Fixtures.verdicts
          (Fixtures.burst
             (Fixtures.limiter
                (Types.mkAlgorithm Types.sliding (SlidingWindow.compute config))
                None) tt m w').1).
  rewrite (IH (Datatypes.S i) w').
  - f_equal. f_equal. rewrite Ha.
    destruct (Nat.ltb_spec i n) as [Hlt | Hge].
    + apply leb_true. rewrite Hlimit. change 1 with (inject_Z 1).
      rewrite <- inject_Z_plus, <- Zle_Qle. lia.
    + apply leb_false. rewrite Hlimit. change 1 with (inject_Z 1).
      rewrite <- inject_Z_plus, <- Zlt_Qlt. lia.
  - apply (counting_proper config _ (inject_Z (Z.of_nat i) + 1)); [| exact Hnext].
    change 1 with (inject_Z 1). rewrite <- inject_Z_plus.
    replace (Z.of_nat i + 1)%Z with (Z.of_nat (Datatypes.S i)) by lia.
    reflexivity.
Qed.

(** X24: a burst against the sliding window.  With a whole limit [n], of
    [m] requests of cost [1] for one key at one instant, through the
    limiter on a memory store holding nothing for the key, exactly the
    first [n] are allowed. *)
Theorem slidingWindow_burst_allows_first_n (n m : nat) (windowMs : Q)
    (alg : Types.Algorithm SlidingWindow.State)
    (w : Runtime.World (gmap string (MemoryStore.Entry SlidingWindow.State))) :
  SlidingWindow.slidingWindow
    (SlidingWindow.mkConfig (inject_Z (Z.of_nat n)) windowMs) = Types.Ok alg ->
  MemoryStore.stored w "default:test" = None ->
  Fixtures.verdicts (Fixtures.burst (Fixtures.limiter alg None) tt m w).1
  = Fixtures.first_allowed n m.
Proof.
  intros Hc Hfresh. rewrite (slidingWindow_is _ _ Hc).
  apply (burst_counting _ n); [reflexivity |].
  rewrite Hfresh. cbn. reflexivity.
Qed.

Lemma slidingWindow_burst_allows_first_n_witness :
  Fixtures.verdicts
    (Fixtures.burst (Fixtures.limiter (Fixtures.sliding_of 2 1000) None) tt 4
       (MemoryStore.fresh 1700000000123)).1
  = Fixtures.first_allowed 2 4.
Proof.
  apply (slidingWindow_burst_allows_first_n 2 4 1000
           (Fixtures.sliding_of 2 1000) (MemoryStore.fresh 1700000000123));
    reflexivity.
Defined.

Section TokenBucketBurst.
Import TokenBucket.
Variable config : Config.
Hypothesis constructed :
  tokenBucket config
  = Types.Ok (Types.mkAlgorithm Types.tokenBucket (compute config)).

Local Abbreviation alg := (Types.mkAlgorithm Types.tokenBucket (compute config)).

(** A request of cost [1] at the time the bucket was last refilled. *)
Lemma compute_holding state t k :
  holding config t k state ->
  let out := compute config state 1 t in
  Types.p_allowed (Types.result out) = JsMath.leb 1 k /\
  holding config t (if JsMath.leb 1 k then k - 1 else k)
    (Some (Types.state out)) /\
  0 < Types.ttlMs out.
Proof using constructed.
  intros Hh out. subst out.
  assert (last (refilled config state t) == t /\
          tokens (refilled config state t) == k) as [Hl Hk].
  { destruct state as [s |]; cbn in Hh.
    - destruct Hh as [Hl Hk]. unfold refilled. cbn [initial].
      rewrite refill_skipped by lra. auto.
    - unfold refilled. rewrite refill_skipped by (cbn; lra). cbn.
      split; [reflexivity | lra]. }
  pose proof (compute_unfold config alg constructed state 1 t) as Hu.
  cbn [Types.compute] in Hu. rewrite Hu. clear Hu.
  assert (forall s a r,
            0 < Types.ttlMs
                  (Types.mkComputed s
                     (Types.mkPartial a (capacity config)
                        (JsMath.max 0 (JsMath.floor (tokens s)))
                        (JsMath.ceil ((t + 1000) / 1000)) r)
                     (JsMath.max 1000
                        (JsMath.ceil (capacity config / refillPerMs config + 1000)))))
    as Httl.
  { intros s a r. cbn. eapply Qlt_le_trans; [| apply max_ge_l]. reflexivity. }
  destruct (Qlt_le_dec (tokens (refilled config state t)) 1) as [Hlt | Hle].
  - rewrite (admission_denied config alg constructed _ _ Hlt).
    assert (JsMath.leb 1 k = false) as -> by (apply leb_false; lra).
    split; [reflexivity |]. split; [cbn; split; assumption | apply Httl].
  - rewrite (admission_granted config _ _ Hle).
    assert (JsMath.leb 1 k = true) as -> by (apply leb_true; lra).
    split; [reflexivity |]. split; [cbn; split; lra | apply Httl].
Qed.

Lemma limit_holding (k : Q)
    (w : Runtime.World (gmap string (MemoryStore.Entry State))) :
  holding config (Runtime.clock w) k (MemoryStore.stored w "default:test") ->
  exists r w',
    Ratelimit.limit (Fixtures.limiter alg None) tt w = Runtime.Resolved (r, w') /\
    Types.allowed r = JsMath.leb 1 k /\
    Runtime.clock w' = Runtime.clock w /\
    holding config (Runtime.clock w') (if JsMath.leb 1 k then k - 1 else k)
      (MemoryStore.stored w' "default:test").
Proof using constructed.
  intros Hh.
  destruct (limit_resolves alg None 1 w eq_refl) as (w' & Hrun & Hclock & Hheap).
  destruct (compute_holding _ _ k Hh) as (Ha & Hnext & Httl).
  eexists _, w'. split; [exact Hrun |]. split; [exact Ha |].
  split; [exact Hclock |].
  rewrite (stored_after_limit w' _ (Runtime.clock w) _ Hclock Hheap)
    by exact Httl.
  rewrite Hclock. exact Hnext.
Qed.

Lemma holding_proper t k k' state :
  k == k' -> holding config t k state -> holding config t k' state.
Proof.
  intros Heq. destruct state as [s |]; cbn.
  - intros [Hl Hk]. split; [exact Hl | lra].
  - intros Hk. lra.
Qed.

Lemma burst_holding (n : nat) :
  capacity config == inject_Z (Z.of_nat n) ->
  forall (m i : nat)
         (w : Runtime.World (gmap string (MemoryStore.Entry State))),
    holding config (Runtime.clock w) (inject_Z (Z.of_nat (n - i)))
      (MemoryStore.stored w "default:test") ->
    Fixtures.verdicts (Fixtures.burst (Fixtures.limiter alg None) tt m w).1
    = List.map (fun j => Some (Nat.ltb j n)) (List.seq i m).
Proof using constructed.
  intros Hcap. induction m as [| m IH]; intros i w Hh; [reflexivity |].
  destruct (limit_holding _ w Hh) as (r & w' & Hrun & Ha & Hclock & Hnext).
  rewrite (burst_step _ _ _ _ _ _ Hrun), first_allowed_from.
  cbn [fst Fixtures.verdicts List.map option_map].
  fold (Fixtures.verdicts
          (Fixtures.burst (Fixtures.limiter alg None) tt m w').1).
  assert (JsMath.leb 1 (inject_Z (Z.of_nat (n - i))) = Nat.ltb i n) as Hdec.
  { destruct (Nat.ltb_spec i n) as [Hlt | Hge].
    - apply leb_true. change 1 with (inject_Z 1). rewrite <- Zle_Qle. lia.
    - apply leb_false. change 1 with (inject_Z 1). rewrite <- Zlt_Qlt. lia. }
  rewrite (IH (Datatypes.S i) w').
  - rewrite Ha, Hdec. reflexivity.
  - eapply holding_proper; [| exact Hnext]. rewrite Hdec.
    destruct (Nat.ltb_spec i n) as [Hlt | Hge].
    + change 1 with (inject_Z 1). unfold Qminus.
      rewrite <- inject_Z_opp, <- inject_Z_plus.
      replace (Z.of_nat (n - i) + - (1))%Z with (Z.of_nat (n - Datatypes.S i))
        by lia.
      reflexivity.
    + replace (n - Datatypes.S i)%nat with (n - i)%nat by lia. reflexivity.
Qed.
End TokenBucketBurst.

(** X25: a burst against the token bucket.  With a whole capacity [n], of
    [m] requests of cost [1] for one key at one instant, through the
    limiter on a memory store holding nothing for the key, exactly the
    first [n] are allowed, whatever the refill rate. *)
Theorem tokenBucket_burst_allows_first_n (n m : nat) (refillRatePerSec : Q)
    (alg : Types.Algorithm TokenBucket.State)
    (w : Runtime.World (gmap string (MemoryStore.Entry TokenBucket.State))) :
  TokenBucket.tokenBucket
    (TokenBucket.mkConfig (inject_Z (Z.of_nat n)) refillRatePerSec)
    = Types.Ok alg ->
  MemoryStore.stored w "default:test" = None ->
  Fixtures.verdicts (Fixtures.burst (Fixtures.limiter alg None) tt m w).1
  = Fixtures.first_allowed n m.
Proof.
  intros Hc Hfresh. pose proof (tokenBucket_is _ _ Hc) as Halg. subst alg.
  apply (burst_holding _ Hc n); [reflexivity |].
  rewrite Hfresh. cbn. rewrite Nat.sub_0_r. reflexivity.
Qed.

Lemma tokenBucket_burst_allows_first_n_witness :
  Fixtures.verdicts
    (Fixtures.burst (Fixtures.limiter (Fixtures.bucket_of 3 1) None) tt 5
       (MemoryStore.fresh 1700000000123)).1
  = Fixtures.first_allowed 3 5.
Proof.
  apply (tokenBucket_burst_allows_first_n 3 5 1
           (Fixtures.bucket_of 3 1) (MemoryStore.fresh 1700000000123));
    reflexivity.
Defined.

(** ** The invariant in the arithmetic of the code *)

(** X29: the state invariant holds in rounded arithmetic too.  For a cost
    that is not negative and every rounding that preserves order and
    leaves whole numbers as they are: a bucket whose capacity is a number
    the rounding leaves as it is (a double, for [Float.round]) and that
    held between [0] and [capacity] tokens, or did not exist, holds
    between [0] and [capacity] tokens afterwards; a window state whose
    [count] and [prevCount] were not negative, or that did not exist, has
    [count] and [prevCount] not negative afterwards. *)
Theorem invariant_survives_rounding
    (fl : Q -> Q) {rounding : Float.Rounding fl}
    (tb : TokenBucket.Config) (alg_tb : Types.Algorithm TokenBucket.State)
    (sw : SlidingWindow.Config) (alg_sw : Types.Algorithm SlidingWindow.State)
    (bucket : option TokenBucket.State) (window : option SlidingWindow.State)
    (cost now : Q) :
  0 <= cost ->
  (RoundedTokenBucket.tokenBucket fl tb = Types.Ok alg_tb ->
   fl (TokenBucket.capacity tb) == TokenBucket.capacity tb ->
   TokenBucket.prior_ok tb bucket ->
   TokenBucket.bucket_ok tb
     (Types.state (Types.compute alg_tb bucket cost now))) /\
  (RoundedSlidingWindow.slidingWindow fl sw = Types.Ok alg_sw ->
   SlidingWindow.prior_ok window ->
   SlidingWindow.counts_ok
     (Types.state (Types.compute alg_sw window cost now))).
Proof.
  intros Hcost. split.
  - intros Htb Hcap Hb.
    destruct (rounded_tokenBucket_config fl tb alg_tb Htb) as (Hc & _ & _).
    assert (TokenBucket.bucket_ok tb
              (RoundedTokenBucket.refilled fl tb bucket now)) as [H0 H1].
    { split.
      - apply (rounded_refill_nonneg fl tb alg_tb Htb).
        destruct bucket as [s |]; cbn; [apply Hb | lra].
      - apply rounded_refill_le_capacity.
        destruct bucket as [s |]; cbn; [apply Hb | lra]. }
    rewrite (rounded_compute_unfold fl tb alg_tb Htb).
    destruct (Qlt_le_dec
                (TokenBucket.tokens (RoundedTokenBucket.refilled fl tb bucket now))
                cost) as [Hlt | Hle].
    + rewrite (rounded_admission_denied fl tb alg_tb Htb _ _ Hlt). split; assumption.
    + rewrite (rounded_admission_granted fl tb _ _ Hle). split; cbn.
      * apply rounding_nonneg; [assumption | lra].
      * rewrite <- Hcap. apply Float.rounding_monotone. lra.
  - intros Hsw Hw.
    destruct (rounded_slidingWindow_config fl sw alg_sw Hsw) as (_ & _ & ->).
    cbn [Types.compute]. rewrite rounded_compute_state.
    assert (SlidingWindow.counts_ok (RoundedSlidingWindow.rolled fl sw window now))
      as [Hc Hp].
    { destruct window as [s |].
      - unfold RoundedSlidingWindow.rolled, RoundedSlidingWindow.rollover.
        cbn [RoundedSlidingWindow.initial]. destruct Hw as [Hc Hp].
        destruct (JsMath.neqb _ _); [| split; assumption].
        destruct (JsMath.eqb _ _); split; cbn; lra.
      - rewrite rounded_rolled_absent. split; cbn; lra. }
    split; cbn; [| exact Hp].
    unfold Float.add. apply rounding_nonneg; [assumption | lra].
Qed.

Lemma invariant_survives_rounding_witness :
  TokenBucket.bucket_ok (TokenBucket.mkConfig 27 9)
    (Types.state
       (Types.compute (Fixtures.rounded_bucket_of Float.round 27 9)
          (Some (TokenBucket.mkState 0 0)) 3 3000)) /\
  SlidingWindow.counts_ok
    (Types.state
       (Types.compute (Fixtures.rounded_sliding_of Float.round 15 1000)
          (Some (SlidingWindow.mkState 0 25 (-1000) 0)) 1 1440)).
Proof.
  destruct (invariant_survives_rounding Float.round
              (TokenBucket.mkConfig 27 9)
              (Fixtures.rounded_bucket_of Float.round 27 9)
              (SlidingWindow.mkConfig 15 1000)
              (Fixtures.rounded_sliding_of Float.round 15 1000)
              (Some (TokenBucket.mkState 0 0))
              (Some (SlidingWindow.mkState 0 25 (-1000) 0)) 3 3000)
    as [Hbucket _].
  - lra.
  - destruct (invariant_survives_rounding Float.round
                (TokenBucket.mkConfig 27 9)
                (Fixtures.rounded_bucket_of Float.round 27 9)
                (SlidingWindow.mkConfig 15 1000)
                (Fixtures.rounded_sliding_of Float.round 15 1000)
                (Some (TokenBucket.mkState 0 0))
                (Some (SlidingWindow.mkState 0 25 (-1000) 0)) 1 1440)
      as [_ Hwindow].
    + lra.
    + split.
      * apply Hbucket; [reflexivity | vm_compute; reflexivity | split; cbn; lra].
      * apply Hwindow; [reflexivity | split; cbn; lra].
Defined.

(** What rounding does to three properties of the algorithms in exact
    arithmetic, on doubles.  There, a request of cost zero between two
    requests changes nothing; here the refill in two steps leaves the
    bucket short of the two tokens that the refill in one step gives.
    There, the lifetime of a bucket of capacity [63] at [9] tokens per
    second is [8000]; here it is [8001].  And the bucket of capacity [27]
    at [9] tokens per second, empty at [0], is not full again at
    [3000]. *)
Example rounding_shows_in_the_token_bucket :
  let alg := Fixtures.rounded_bucket_of Float.round 2 1 in
  let s := TokenBucket.mkState 1 0 in
  let probed := Types.state (Types.compute alg (Some s) 0 578) in
  Types.p_allowed (Types.result (Types.compute alg (Some probed) 2 1000))
    = false /\
  Types.p_allowed (Types.result (Types.compute alg (Some s) 2 1000)) = true /\
  Types.ttlMs
    (Types.compute (Fixtures.rounded_bucket_of Float.round 63 9) None 1 0)
    = 8001 /\
  Types.ttlMs (Types.compute (Fixtures.bucket_of 63 9) None 1 0) = 8000 /\
  TokenBucket.tokens
    (RoundedTokenBucket.refilled Float.round (TokenBucket.mkConfig 27 9)
       (Some (TokenBucket.mkState 0 0)) 3000) < 27.
Proof. vm_compute. repeat split. Qed.

(** The scenarios with whole numbers come out on doubles as they do in
    exact arithmetic: the window that four requests have pushed over its
    limit of [3] denies a request of cost zero; the window that three
    requests at [5000] have filled grants again at [4999]; and with a
    limit of [5], a request five seconds after the first leaves [4]. *)
Example whole_number_scenarios_on_doubles :
  let alg := Fixtures.rounded_sliding_of Float.round 3 1000 in
  let over := Fixtures.replay alg 4 1 0 None in
  let full := Fixtures.replay alg 3 1 5000 None in
  let alg5 := Fixtures.rounded_sliding_of Float.round 5 1000 in
  let first := Fixtures.replay alg5 1 1 1700000000123 None in
  over = Some (SlidingWindow.mkState 0 4 (-1000) 0) /\
  Types.p_allowed (Types.result (Types.compute alg over 0 0)) = false /\
  full = Some (SlidingWindow.mkState 5000 3 4000 0) /\
  Types.p_allowed (Types.result (Types.compute alg full 1 5000)) = false /\
  Types.p_allowed (Types.result (Types.compute alg full 1 4999)) = true /\
  Types.p_remaining (Types.result (Types.compute alg full 1 4999)) = 2 /\
  Types.p_allowed (Types.result (Types.compute alg5 first 1 1700000005123))
    = true /\
  Types.p_remaining (Types.result (Types.compute alg5 first 1 1700000005123))
    = 4.
Proof. vm_compute. repeat split. Qed.
